(** * Courseware generator: the generation pipeline and the HTML renderer

    A shallow embedding of [backend/src/services/gemini.ts] (class
    [GeminiService]) and [backend/src/templates/courseware-html.ts], with
    the properties the specification states about them.

    Layout: the run-time values first (strings of UTF-16 code units, the
    regular expressions the sources use, JSON values and [JSON.parse]),
    then the renderer, the grading script the renderer emits, and the
    service; the lemmas and theorems follow the definitions. *)

From Stdlib Require Import List NArith ZArith Arith Bool Lia String Ascii DecimalString.
Import ListNotations.

Set Implicit Arguments.
Set Warnings "-register-all".

(* ===================================================================== *)
(** ** Strings *)
(* ===================================================================== *)

(** A JavaScript string is a sequence of UTF-16 code units.  Literals of the
    sources are written as Rocq strings (UTF-8 bytes) and decoded. *)
Module JsString.

Definition code_unit := N.
Definition jsstring := list code_unit.

Definition byte_values (s : string) : list N :=
  map N_of_ascii (list_ascii_of_string s).

(** The code unit(s) of one code point. *)
Definition units_of_code_point (cp : N) : jsstring :=
  if (cp <? 65536)%N then [cp]
  else [(55296 + (cp - 65536) / 1024)%N; (56320 + (cp - 65536) mod 1024)%N].

(** UTF-8 decoding: [need] continuation bytes are still expected for the
    code point whose leading bits are [acc]. *)
Fixpoint utf8_units (bs : list N) (need : nat) (acc : N) : jsstring :=
  match bs with
  | [] => []
  | b :: rest =>
      match need with
      | O =>
          if (b <? 128)%N then b :: utf8_units rest 0 0%N
          else if (b <? 224)%N then utf8_units rest 1 (b - 192)%N
          else if (b <? 240)%N then utf8_units rest 2 (b - 224)%N
          else utf8_units rest 3 (b - 240)%N
      | S O => units_of_code_point (acc * 64 + (b - 128))%N ++ utf8_units rest 0 0%N
      | S n => utf8_units rest n (acc * 64 + (b - 128))%N
      end
  end.

Definition utf16 (s : string) : jsstring := utf8_units (byte_values s) 0 0%N.

(** Text of a template that holds double quotes: written with an apostrophe
    wherever the source has the double quote (none of the texts written this
    way holds an apostrophe of its own). *)
Definition quoted (s : string) : jsstring :=
  map (fun c => if (c =? 39)%N then 34%N else c) (utf16 s).

(** [String(n)] for a non-negative integer. *)
Definition decimal (n : nat) : jsstring :=
  utf16 (NilEmpty.string_of_uint (Nat.to_uint n)).

Fixpoint eqb (a b : jsstring) : bool :=
  match a, b with
  | [], [] => true
  | x :: a', y :: b' => (x =? y)%N && eqb a' b'
  | _, _ => false
  end.

(** Truthiness of a string: [Boolean(s)]. *)
Definition nonempty (s : jsstring) : bool :=
  match s with [] => false | _ :: _ => true end.

(** WhiteSpace and LineTerminator of ECMAScript: what [\s] matches and what
    [trim] removes. *)
Definition is_whitespace (c : code_unit) : bool :=
  ((9 <=? c) && (c <=? 13) || (c =? 32) || (c =? 160) || (c =? 5760)
   || (8192 <=? c) && (c <=? 8202) || (c =? 8232) || (c =? 8233)
   || (c =? 8239) || (c =? 8287) || (c =? 12288) || (c =? 65279))%N.

Fixpoint trimStart (s : jsstring) : jsstring :=
  match s with
  | c :: s' => if is_whitespace c then trimStart s' else s
  | [] => []
  end.

Definition trimEnd (s : jsstring) : jsstring := rev (trimStart (rev s)).

Definition trim (s : jsstring) : jsstring := trimEnd (trimStart s).

Fixpoint starts_with (p s : jsstring) : bool :=
  match p, s with
  | [], _ => true
  | x :: p', y :: s' => (x =? y)%N && starts_with p' s'
  | _ :: _, [] => false
  end.

(** [s.includes(p)]. *)
Fixpoint includes (p s : jsstring) : bool :=
  starts_with p s ||
  match s with
  | [] => false
  | _ :: s' => includes p s'
  end.

(** [s.indexOf(c)] for a one-unit [c]; [None] is the source's -1. *)
Fixpoint indexOf (c : code_unit) (s : jsstring) : option nat :=
  match s with
  | [] => None
  | x :: s' => if (x =? c)%N then Some 0 else option_map S (indexOf c s')
  end.

(** [s.lastIndexOf(c)]. *)
Fixpoint lastIndexOf (c : code_unit) (s : jsstring) : option nat :=
  match s with
  | [] => None
  | x :: s' =>
      match lastIndexOf c s' with
      | Some i => Some (S i)
      | None => if (x =? c)%N then Some 0 else None
      end
  end.

(** [s.slice(from, to)] for indices within the string; empty when
    [to <= from]. *)
Definition slice (from to : nat) (s : jsstring) : jsstring :=
  firstn (to - from) (skipn from s).

(** [parts.join(sep)]. *)
Fixpoint join (sep : jsstring) (parts : list jsstring) : jsstring :=
  match parts with
  | [] => []
  | [p] => p
  | p :: rest => p ++ sep ++ join sep rest
  end.

End JsString.
Import JsString.

Arguments utf16 s%_string.
Arguments quoted s%_string.

(* ===================================================================== *)
(** ** Regular expressions *)
(* ===================================================================== *)

(** The patterns of the sources are sequences of single characters,
    character classes and starred classes; all of them carry the flag [i].
    The matcher is the backtracking one of ECMAScript: alternatives are
    tried in priority order and the first success is the match. *)
Module Regex.

Inductive char_class :=
| Exactly (c : code_unit)       (* a pattern character *)
| Space                          (* \s *)
| AnyUnit                        (* [\s\S] *)
| OneOf (cs : list code_unit)    (* [...] *)
| NoneOf (cs : list code_unit).  (* [^...] *)

Inductive atom :=
| One (k : char_class)
| Greedy (k : char_class)        (* k*  *)
| Lazy (k : char_class)          (* k*? *)
| Captured (k : char_class).     (* (k*?), the group a match reports *)

Definition pattern := list atom.

(** Canonicalize under flag [i] (without [u]): the upper-case mapping of a
    code unit.  This development folds the ASCII letters; ECMAScript never
    maps a code unit of 128 and above onto an ASCII one, and the cased
    letters beyond ASCII are compared as they stand here. *)
Definition canonicalize (c : code_unit) : code_unit :=
  if ((97 <=? c) && (c <=? 122))%N then (c - 32)%N else c.

Definition same_letter (a x : code_unit) : bool :=
  (canonicalize a =? canonicalize x)%N.

Definition accepts (k : char_class) (x : code_unit) : bool :=
  match k with
  | Exactly c => same_letter c x
  | Space => is_whitespace x
  | AnyUnit => true
  | OneOf cs => existsb (fun a => same_letter a x) cs
  | NoneOf cs => negb (existsb (fun a => same_letter a x) cs)
  end.

(** The text a group captured, and the input left after the match. *)
Definition result := (jsstring * jsstring)%type.

Fixpoint greedy_star (k : char_class) (cont : jsstring -> option result)
    (s : jsstring) : option result :=
  match s with
  | c :: s' =>
      if accepts k c then
        match greedy_star k cont s' with
        | Some r => Some r
        | None => cont s
        end
      else cont s
  | [] => cont []
  end.

Fixpoint lazy_star (capture : bool) (k : char_class)
    (cont : jsstring -> option result) (s : jsstring) : option result :=
  match cont s with
  | Some r => Some r
  | None =>
      match s with
      | c :: s' =>
          if accepts k c then
            match lazy_star capture k cont s' with
            | Some (g, rest) => Some (if capture then c :: g else g, rest)
            | None => None
            end
          else None
      | [] => None
      end
  end.

(** A match of [p] that starts at the head of [s]. *)
Fixpoint match_here (p : pattern) (s : jsstring) : option result :=
  match p with
  | [] => Some ([], s)
  | One k :: p' =>
      match s with
      | c :: s' => if accepts k c then match_here p' s' else None
      | [] => None
      end
  | Greedy k :: p' => greedy_star k (match_here p') s
  | Lazy k :: p' => lazy_star false k (match_here p') s
  | Captured k :: p' => lazy_star true k (match_here p') s
  end.

(** [s.match(p)] without flag [g]: the leftmost match; the group's text. *)
Fixpoint first_match (p : pattern) (s : jsstring) : option jsstring :=
  match match_here p s with
  | Some (g, _) => Some g
  | None =>
      match s with
      | _ :: s' => first_match p s'
      | [] => None
      end
  end.

(** [s.replace(p, '')] with flag [g]: every match, found left to right
    from the end of the previous one, is dropped.  [skip] units of the
    current match are still to be dropped.  An empty match drops nothing
    and the search moves on by one unit. *)
Fixpoint remove_from (p : pattern) (s : jsstring) (skip : nat) : jsstring :=
  match s with
  | [] => []
  | c :: s' =>
      match skip with
      | S n => remove_from p s' n
      | O =>
          match match_here p s with
          | Some (_, rest) =>
              if List.length s <=? List.length rest then c :: remove_from p s' 0
              else remove_from p s' (List.length s' - List.length rest)
          | None => c :: remove_from p s' 0
          end
      end
  end.

Definition remove_all (p : pattern) (s : jsstring) : jsstring := remove_from p s 0.

(** A run of pattern characters. *)
Definition text (t : jsstring) : pattern := map (fun c => One (Exactly c)) t.

End Regex.

(* ===================================================================== *)
(** ** JSON values and [JSON.parse] *)
(* ===================================================================== *)

Module Json.

(** A number is kept as its literal: its binary64 value, and so whether it
    is zero and how it prints, is given by the [numerics] below. *)
Inductive json :=
| JNull
| JBool (b : bool)
| JNum (literal : jsstring)
| JStr (s : jsstring)
| JArr (items : list json)
| JObj (members : list (jsstring * json)).

Definition is_json_space (c : code_unit) : bool :=
  ((c =? 9) || (c =? 10) || (c =? 13) || (c =? 32))%N.

Fixpoint skip_ws (s : jsstring) : jsstring :=
  match s with
  | c :: s' => if is_json_space c then skip_ws s' else s
  | [] => []
  end.

Definition is_digit (c : code_unit) : bool := ((48 <=? c) && (c <=? 57))%N.

Definition hex_value (c : code_unit) : option N :=
  if is_digit c then Some (c - 48)%N
  else if ((97 <=? c) && (c <=? 102))%N then Some (c - 87)%N
  else if ((65 <=? c) && (c <=? 70))%N then Some (c - 55)%N
  else None.

Definition hex4 (a b c d : code_unit) : option code_unit :=
  match hex_value a, hex_value b, hex_value c, hex_value d with
  | Some x, Some y, Some z, Some w => Some (((x * 16 + y) * 16 + z) * 16 + w)%N
  | _, _, _, _ => None
  end.

(** What follows a backslash other than [u]. *)
Definition simple_escape (c : code_unit) : option code_unit :=
  if (c =? 34)%N then Some 34%N
  else if (c =? 92)%N then Some 92%N
  else if (c =? 47)%N then Some 47%N
  else if (c =? 98)%N then Some 8%N
  else if (c =? 102)%N then Some 12%N
  else if (c =? 110)%N then Some 10%N
  else if (c =? 114)%N then Some 13%N
  else if (c =? 116)%N then Some 9%N
  else None.

(** The characters of a string after its opening quote, up to and
    including the closing one. *)
Fixpoint parse_chars (s : jsstring) : option (jsstring * jsstring) :=
  match s with
  | [] => None
  | c :: r =>
      if (c =? 34)%N then Some ([], r)
      else if (c <? 32)%N then None
      else if (c =? 92)%N then
        match r with
        | e :: r1 =>
            if (e =? 117)%N then
              match r1 with
              | h1 :: h2 :: h3 :: h4 :: r2 =>
                  match hex4 h1 h2 h3 h4, parse_chars r2 with
                  | Some u, Some (t, rest) => Some (u :: t, rest)
                  | _, _ => None
                  end
              | _ => None
              end
            else
              match simple_escape e, parse_chars r1 with
              | Some u, Some (t, rest) => Some (u :: t, rest)
              | _, _ => None
              end
        | [] => None
        end
      else
        match parse_chars r with
        | Some (t, rest) => Some (c :: t, rest)
        | None => None
        end
  end.

Fixpoint span_digits (s : jsstring) : jsstring * jsstring :=
  match s with
  | c :: s' =>
      if is_digit c then let (d, r) := span_digits s' in (c :: d, r) else ([], s)
  | [] => ([], [])
  end.

(** A number of the JSON grammar: an optional minus; a zero, or a digit
    from 1 to 9 and a run of digits; an optional point and digits (one at
    least); an optional exponent mark, sign and digits (one at least). *)
Definition parse_number (s : jsstring) : option (jsstring * jsstring) :=
  let (sign, s1) :=
    match s with
    | c :: r => if (c =? 45)%N then ([c], r) else ([], s)
    | [] => ([], s)
    end in
  let int_part :=
    match s1 with
    | c :: r =>
        if (c =? 48)%N then Some ([c], r)
        else if is_digit c then let (d, r') := span_digits r in Some (c :: d, r')
        else None
    | [] => None
    end in
  match int_part with
  | None => None
  | Some (int, s2) =>
      let frac_part :=
        match s2 with
        | c :: r =>
            if (c =? 46)%N then
              match span_digits r with
              | ([], _) => None
              | (d, r') => Some (c :: d, r')
              end
            else Some ([], s2)
        | [] => Some ([], s2)
        end in
      match frac_part with
      | None => None
      | Some (frac, s3) =>
          let exp_part :=
            match s3 with
            | c :: r =>
                if ((c =? 101) || (c =? 69))%N then
                  let (esign, r1) :=
                    match r with
                    | g :: r' => if ((g =? 43) || (g =? 45))%N then ([g], r') else ([], r)
                    | [] => ([], r)
                    end in
                  match span_digits r1 with
                  | ([], _) => None
                  | (d, r') => Some (c :: esign ++ d, r')
                  end
                else Some ([], s3)
            | [] => Some ([], s3)
            end in
          match exp_part with
          | None => None
          | Some (exp, s4) => Some (sign ++ int ++ frac ++ exp, s4)
          end
      end
  end.

(** A value, with the input left after it.  [fuel] bounds the number of
    nested calls; each call below the first reads at least one unit, so
    twice the length of the input is never used up. *)
Fixpoint parse_value (fuel : nat) (s : jsstring) : option (json * jsstring) :=
  match fuel with
  | O => None
  | S fuel' =>
      match skip_ws s with
      | [] => None
      | c :: r =>
          if (c =? 123)%N then
            match skip_ws r with
            | c' :: r' =>
                if (c' =? 125)%N then Some (JObj [], r')
                else
                  match parse_members fuel' r with
                  | Some (ms, rest) => Some (JObj ms, rest)
                  | None => None
                  end
            | [] => None
            end
          else if (c =? 91)%N then
            match skip_ws r with
            | c' :: r' =>
                if (c' =? 93)%N then Some (JArr [], r')
                else
                  match parse_elements fuel' r with
                  | Some (vs, rest) => Some (JArr vs, rest)
                  | None => None
                  end
            | [] => None
            end
          else if (c =? 34)%N then
            match parse_chars r with
            | Some (t, rest) => Some (JStr t, rest)
            | None => None
            end
          else if starts_with (utf16 "null") (c :: r) then Some (JNull, skipn 4 (c :: r))
          else if starts_with (utf16 "true") (c :: r) then Some (JBool true, skipn 4 (c :: r))
          else if starts_with (utf16 "false") (c :: r) then Some (JBool false, skipn 5 (c :: r))
          else
            match parse_number (c :: r) with
            | Some (lit, rest) => Some (JNum lit, rest)
            | None => None
            end
      end
  end
with parse_elements (fuel : nat) (s : jsstring) : option (list json * jsstring) :=
  match fuel with
  | O => None
  | S fuel' =>
      match parse_value fuel' s with
      | Some (v, r) =>
          match skip_ws r with
          | c :: r' =>
              if (c =? 44)%N then
                match parse_elements fuel' r' with
                | Some (vs, rest) => Some (v :: vs, rest)
                | None => None
                end
              else if (c =? 93)%N then Some ([v], r')
              else None
          | [] => None
          end
      | None => None
      end
  end
with parse_members (fuel : nat) (s : jsstring) : option (list (jsstring * json) * jsstring) :=
  match fuel with
  | O => None
  | S fuel' =>
      match skip_ws s with
      | q :: r0 =>
          if (q =? 34)%N then
            match parse_chars r0 with
            | Some (key, r1) =>
                match skip_ws r1 with
                | colon :: r2 =>
                    if (colon =? 58)%N then
                      match parse_value fuel' r2 with
                      | Some (v, r3) =>
                          match skip_ws r3 with
                          | c :: r4 =>
                              if (c =? 44)%N then
                                match parse_members fuel' r4 with
                                | Some (ms, rest) => Some ((key, v) :: ms, rest)
                                | None => None
                                end
                              else if (c =? 125)%N then Some ([(key, v)], r4)
                              else None
                          | [] => None
                          end
                      | None => None
                      end
                    else None
                | [] => None
                end
            | None => None
            end
          else None
      | [] => None
      end
  end.

(** [JSON.parse(text)]: one value, with nothing but white space after it;
    [None] stands for the SyntaxError it throws otherwise. *)
Definition JSON_parse (s : jsstring) : option json :=
  match parse_value (2 * List.length s + 2) s with
  | Some (v, rest) =>
      match skip_ws rest with
      | [] => Some v
      | _ :: _ => None
      end
  | None => None
  end.

(** An own property of an object; of members with one key the last counts. *)
Fixpoint lookup (k : jsstring) (ms : list (jsstring * json)) : option json :=
  match ms with
  | [] => None
  | (k', v) :: rest =>
      match lookup k rest with
      | Some v' => Some v'
      | None => if JsString.eqb k k' then Some v else None
      end
  end.

(** What the binary64 reading of number literals decides. *)
Record numerics := {
  number_is_zero : jsstring -> bool;       (* the literal denotes +0 or -0 *)
  NumberToString : jsstring -> jsstring    (* String(x) of the number it denotes *)
}.

(** [Boolean(v)]. *)
Definition truthy (nm : numerics) (v : json) : bool :=
  match v with
  | JNull => false
  | JBool b => b
  | JNum lit => negb (number_is_zero nm lit)
  | JStr s => nonempty s
  | JArr _ | JObj _ => true
  end.

Fixpoint all_some (A : Type) (l : list (option A)) : option (list A) :=
  match l with
  | [] => Some []
  | Some x :: l' =>
      match all_some l' with
      | Some xs => Some (x :: xs)
      | None => None
      end
  | None :: _ => None
  end.

(** [String(v)], as a template literal applies it; [None] is its
    TypeError.  An object is converted by its method [toString]: the one of
    [Object.prototype] gives [[object Object]]; an own member [toString]
    hides it, and as no value read from JSON is a function and [valueOf]
    gives the object back, the conversion then throws.  An array is
    converted by [Array.prototype.join], which converts the elements. *)
Fixpoint ToString (nm : numerics) (v : json) : option jsstring :=
  match v with
  | JNull => Some (utf16 "null")
  | JBool true => Some (utf16 "true")
  | JBool false => Some (utf16 "false")
  | JNum lit => Some (NumberToString nm lit)
  | JStr s => Some s
  | JArr items =>
      (* Array.prototype.join: null prints as the empty string *)
      option_map (join (utf16 ","))
        (all_some (map (fun x => match x with JNull => Some [] | _ => ToString nm x end) items))
  | JObj ms =>
      match lookup (utf16 "toString") ms with
      | Some _ => None
      | None => Some (utf16 "[object Object]")
      end
  end.

End Json.

(* ===================================================================== *)
(** ** The data model ([types.ts]) *)
(* ===================================================================== *)

Module Types.

Inductive InteractionType := single | multi | truefalse | open.

(** The string a value of [InteractionType] is. *)
Definition type_name (t : InteractionType) : jsstring :=
  match t with
  | single => utf16 "single"
  | multi => utf16 "multi"
  | truefalse => utf16 "truefalse"
  | open => utf16 "open"
  end.

Definition InteractionType_eqb (a b : InteractionType) : bool :=
  match a, b with
  | single, single | multi, multi | truefalse, truefalse | open, open => true
  | _, _ => false
  end.

Record GenerationRequest := {
  topic : jsstring;
  audience : jsstring;
  objectives : option (list jsstring);
  interactionTypes : option (list InteractionType);
  tone : option jsstring;
  imageStyle : option jsstring;
  constraints : option (list jsstring)
}.

(** [T] is the type of the text fields: [jsstring] where the declared types
    hold (the request of [generateCourseware]), [Json.json] for an outline
    built from the provider's reply, whose cast to the declared type nothing
    checks. *)
Record OutlineSection (T : Type) := {
  os_id : jsstring;
  os_title : T;
  os_summary : T;
  os_interactionHint : option T;
  os_assetsHint : option T
}.

Record CourseOutline (T : Type) := {
  co_id : jsstring;
  co_title : T;
  co_sections : list (OutlineSection T)
}.

Record InteractionOption := {
  opt_id : jsstring;
  opt_label : jsstring
}.

Record Scoring := {
  points : nat;
  analyticsKey : jsstring
}.

Record InteractionBlock := {
  ib_id : jsstring;
  ib_type : InteractionType;
  question : jsstring;
  options : list InteractionOption;
  answers : list jsstring;
  explanation : jsstring;
  scoring : Scoring
}.

Record Image := {
  img_prompt : jsstring;
  img_url : jsstring;
  img_alt : jsstring
}.

Record CoursewareSection := {
  cs_id : jsstring;
  cs_title : jsstring;
  cs_body : jsstring;
  cs_image : Image;
  cs_interaction : option InteractionBlock
}.

Record Metadata := {
  md_topic : jsstring;
  md_audience : jsstring;
  md_objectives : list jsstring;
  md_generatedAt : jsstring
}.

Record Courseware := {
  cw_id : jsstring;
  cw_title : jsstring;
  cw_metadata : Metadata;
  cw_sections : list CoursewareSection
}.

Record CoursewareBuildRequest := {
  outline : CourseOutline jsstring;
  request : GenerationRequest
}.

Record CoursewareArtifact := {
  courseware : Courseware;
  html : jsstring
}.

End Types.
Import Types.

(* ===================================================================== *)
(** ** The renderer ([courseware-html.ts]) *)
(* ===================================================================== *)

Module Html.
Import Regex.

(** [value.replace(/c/g, by)] for a one-character pattern. *)
Definition replace_unit (c : code_unit) (by_ : jsstring) (value : jsstring) : jsstring :=
  flat_map (fun x => if (x =? c)%N then by_ else [x]) value.

Definition escapeHtml (value : jsstring) : jsstring :=
  replace_unit 39%N (utf16 "&#39;")
    (replace_unit 34%N (utf16 "&quot;")
      (replace_unit 62%N (utf16 "&gt;")
        (replace_unit 60%N (utf16 "&lt;")
          (replace_unit 38%N (utf16 "&amp;") value)))).

(** The characters [escapeRegExp] puts a backslash before: [.*+?^${}()|[]\]. *)
Definition regexp_special : list code_unit :=
  [46; 42; 43; 63; 94; 36; 123; 125; 40; 41; 124; 91; 93; 92]%N.

Definition escapeRegExp (value : jsstring) : jsstring :=
  flat_map
    (fun x => if existsb (N.eqb x) regexp_special then [92%N; x] else [x])
    value.

(** [[^>]*] and [\s*]. *)
Definition attrs : pattern := [Greedy (NoneOf (utf16 ">"))].
Definition spaces : pattern := [Greedy Space].
Definition level : pattern := [One (OneOf (utf16 "123456"))].

(** [new RegExp(`<p[^>]*>\\s*${escapeRegExp(title)}\\s*</p>`, 'gi')]: the
    escaped title, read as a pattern, is the run of the title's characters. *)
Definition titleParagraphPattern (title : jsstring) : pattern :=
  text (utf16 "<p") ++ attrs ++ text (utf16 ">") ++ spaces
    ++ text title ++ spaces ++ text (utf16 "</p>").

(** [new RegExp(`<h[1-6][^>]*>\\s*${escapeRegExp(title)}\\s*</h[1-6]>`, 'gi')] *)
Definition titleHeadingPattern (title : jsstring) : pattern :=
  text (utf16 "<h") ++ level ++ attrs ++ text (utf16 ">") ++ spaces
    ++ text title ++ spaces ++ text (utf16 "</h") ++ level ++ text (utf16 ">").

(** The label [教学对象] and its colon, [[:：]]. *)
Definition audienceLabel : pattern :=
  text (utf16 "教学对象") ++ [One (OneOf (utf16 ":："))].

(** [/<p[^>]*>\s*教学对象[:：][\s\S]*?<\/p>/gi] *)
Definition audienceParagraphPattern : pattern :=
  text (utf16 "<p") ++ attrs ++ text (utf16 ">") ++ spaces
    ++ audienceLabel ++ [Lazy AnyUnit] ++ text (utf16 "</p>").

(** [/<h[1-6][^>]*>\s*教学对象[:：][\s\S]*?<\/h[1-6]>/gi] *)
Definition audienceHeadingPattern : pattern :=
  text (utf16 "<h") ++ level ++ attrs ++ text (utf16 ">") ++ spaces
    ++ audienceLabel ++ [Lazy AnyUnit] ++ text (utf16 "</h") ++ level
    ++ text (utf16 ">").

(** [/<p[^>]*>\s*<\/p>/gi] *)
Definition emptyParagraphPattern : pattern :=
  text (utf16 "<p") ++ attrs ++ text (utf16 ">") ++ spaces ++ text (utf16 "</p>").

Definition cleanSectionBody (body title : jsstring) : jsstring :=
  if negb (nonempty body) then body
  else
    let cleaned := body in
    let cleaned :=
      if nonempty title then
        let cleaned := remove_all (titleParagraphPattern title) cleaned in
        remove_all (titleHeadingPattern title) cleaned
      else cleaned in
    let cleaned := remove_all audienceParagraphPattern cleaned in
    let cleaned := remove_all audienceHeadingPattern cleaned in
    let cleaned := remove_all emptyParagraphPattern cleaned in
    cleaned.

(** [interaction.answers.includes(option.id)] *)
Definition answers_include (ans : list jsstring) (id : jsstring) : bool :=
  existsb (JsString.eqb id) ans.

Definition renderOption (interaction : InteractionBlock) (inputType nameAttr : jsstring)
    (opt : InteractionOption) : jsstring :=
  let isCorrect := answers_include (answers interaction) (opt_id opt) in
  quoted "
        <li class='interaction__option'>
          <label class='option'>
            <input
              type='" ++ inputType ++ quoted "'
              name='" ++ nameAttr ++ quoted "'
              value='" ++ escapeHtml (opt_id opt) ++ quoted "'
              data-correct='" ++ (if isCorrect then utf16 "true" else utf16 "false") ++ quoted "'
            />
            <span>" ++ escapeHtml (opt_label opt) ++ quoted "</span>
          </label>
        </li>
      ".

Definition renderInteraction (interaction : InteractionBlock) (sectionId : jsstring) : jsstring :=
  let inputType :=
    if InteractionType_eqb (ib_type interaction) multi then utf16 "checkbox"
    else utf16 "radio" in
  let nameAttr := utf16 "q-" ++ sectionId in
  let options :=
    join (utf16 "
") (map (renderOption interaction inputType nameAttr) (options interaction)) in
  quoted "
    <div class='interaction' data-type='" ++ type_name (ib_type interaction) ++ quoted "'>
      <div class='interaction__header'>
        <h3>" ++ escapeHtml (question interaction) ++ quoted "</h3>
        <span class='interaction__points'>+" ++ decimal (points (scoring interaction)) ++ quoted " 分</span>
      </div>
      <ul class='interaction__options'>
        " ++ options ++ quoted "
      </ul>
      <div class='interaction__actions'>
        <button type='button' class='interaction__submit'>提交答案</button>
        <button type='button' class='interaction__reset'>重置</button>
      </div>
      <div class='interaction__feedback'></div>
      <details class='interaction__analysis'>
        <summary>答案与解析</summary>
        <p>" ++ escapeHtml (explanation interaction) ++ quoted "</p>
      </details>
    </div>
  ".

Definition renderSection (section : CoursewareSection) (index total : nat) : jsstring :=
  let bodyHtml := cleanSectionBody (cs_body section) (cs_title section) in
  let interactionHtml :=
    match cs_interaction section with
    | Some interaction =>
        quoted "
          <div class='slide__interaction'>
            " ++ renderInteraction interaction (cs_id section) ++ quoted "
          </div>"
    | None => []
    end in
  quoted "
    <article class='slide' data-index='" ++ decimal index ++ quoted "'>
      <div class='slide__inner'>
        <div class='slide__media'>
          <img src='" ++ img_url (cs_image section) ++ quoted "' alt='" ++ escapeHtml (img_alt (cs_image section)) ++ quoted "' />
        </div>
        <div class='slide__content'>
          <header class='slide__header'>
            <span class='slide__badge'>场景 " ++ decimal (index + 1) ++ utf16 "/" ++ decimal total ++ quoted "</span>
          </header>
          <div class='slide__body'>
            " ++ bodyHtml ++ quoted "
          </div>
        </div>
        " ++ interactionHtml ++ quoted "
      </div>
    </article>
  ".

(** [sections.map((section, index) => f(section, index))], from [index] on. *)
Fixpoint map_indexed (A B : Type) (f : A -> nat -> B) (index : nat) (l : list A) : list B :=
  match l with
  | [] => []
  | x :: l' => f x index :: map_indexed f (S index) l'
  end.

Section Document.

(** The static text of the template between [<style>] and [</style>], and
    between [<script>] and [</script>]: no part of either is computed from
    the courseware.  What the script does is the matter of [Grading]. *)
Variable stylesheet : jsstring.
Variable script : jsstring.

Definition renderCoursewareHtml (courseware : Courseware) : jsstring :=
  let total := List.length (cw_sections courseware) in
  let sectionsHtml :=
    join (utf16 "
") (map_indexed (fun section index => renderSection section index total)
        0 (cw_sections courseware)) in
  quoted "<!DOCTYPE html>
<html lang='zh-CN'>
  <head>
    <meta charset='UTF-8' />
    <meta name='viewport' content='width=device-width, initial-scale=1.0' />
    <title>" ++ escapeHtml (cw_title courseware) ++ quoted "</title>
    <style>" ++ stylesheet ++ quoted "</style>
  </head>
  <body>
    <div class='app' data-total-slides='" ++ decimal total ++ quoted "'>
      <header class='app__topbar'>
        <div class='topbar__nav'>
          <button class='nav-button' id='prevBtn'>上一场景</button>
          <div class='progress' id='progress'>场景 1 / " ++ decimal total ++ quoted "</div>
          <button class='nav-button' id='nextBtn'>下一场景</button>
        </div>
        <div class='topbar__score'>
          <span>互动完成度：</span>
          <span class='score-value' id='scoreValue'>暂无互动题</span>
        </div>
      </header>
      <main class='slides'>
        " ++ sectionsHtml ++ quoted "
      </main>
    </div>
    <script>" ++ script ++ quoted "</script>
  </body>
</html>".

End Document.

End Html.

(* ===================================================================== *)
(** ** The grading script of the rendered document *)
(* ===================================================================== *)

(** The script [renderCoursewareHtml] emits (the function between
    [<script>] and [</script>]), as a transition system over the part of
    the document it reads and writes: the classes of each [.interaction],
    its inputs, its feedback line, the counter [correctCount] and the text
    of [#scoreValue]. *)
Module Grading.

(** The classes [markOptions] puts on the label around an input. *)
Inductive mark := Unmarked | OptionCorrect | OptionWrong.

Record input := {
  value : jsstring;
  dataset_correct : bool;       (* input.dataset.correct === 'true' *)
  checked : bool;
  wrapper : mark
}.

Record interaction := {
  interaction__correct : bool;    (* classList.contains('interaction--correct') *)
  interaction__incorrect : bool;
  feedback : jsstring;
  inputs : list input
}.

Record page := {
  interactions : list interaction;
  correctCount : Z;
  scoreValue : jsstring
}.

Definition decimalZ (z : Z) : jsstring :=
  if (z <? 0)%Z then utf16 "-" ++ decimal (Z.to_nat (- z)) else decimal (Z.to_nat z).

Definition totalQuizzes (p : page) : nat := List.length (interactions p).

Definition updateScoreboard (p : page) : page :=
  if totalQuizzes p =? 0 then
    {| interactions := interactions p; correctCount := correctCount p;
       scoreValue := utf16 "暂无互动题" |}
  else
    {| interactions := interactions p; correctCount := correctCount p;
       scoreValue := decimalZ (correctCount p) ++ utf16 " / " ++ decimal (totalQuizzes p) |}.

Definition getSelectedValues (it : interaction) : list jsstring :=
  map value (filter checked (inputs it)).

Definition getCorrectValues (it : interaction) : list jsstring :=
  map value (filter dataset_correct (inputs it)).

Definition markOptions (ins : list input) : list input :=
  map (fun i =>
         {| value := value i; dataset_correct := dataset_correct i; checked := checked i;
            wrapper := if dataset_correct i then OptionCorrect
                       else if checked i then OptionWrong else Unmarked |}) ins.

Definition clearMarks (ins : list input) : list input :=
  map (fun i =>
         {| value := value i; dataset_correct := dataset_correct i; checked := checked i;
            wrapper := Unmarked |}) ins.

(** [selected.length === correct.length && selected.every((value) => correct.includes(value))] *)
Definition isCorrect (it : interaction) : bool :=
  let selected := getSelectedValues it in
  let correct := getCorrectValues it in
  (List.length selected =? List.length correct)
  && forallb (fun v => existsb (JsString.eqb v) correct) selected.

(** The click listener of [.interaction__submit]: the interaction after
    the click, and the counter. *)
Definition submit (it : interaction) (count : Z) : interaction * Z * bool :=
  let wasCorrect := interaction__correct it in
  let ok := isCorrect it in
  let cleared := clearMarks (inputs it) in
  let it' :=
    if ok then
      {| interaction__correct := true; interaction__incorrect := false;
         feedback := utf16 "回答正确！"; inputs := markOptions cleared |}
    else
      {| interaction__correct := false; interaction__incorrect := true;
         feedback := utf16 "再思考一下，正确答案已高亮显示。"; inputs := markOptions cleared |} in
  if negb wasCorrect && ok then (it', (count + 1)%Z, true)
  else if wasCorrect && negb ok then (it', Z.max 0 (count - 1), true)
  else (it', count, false).

(** The click listener of [.interaction__reset]. *)
Definition reset (it : interaction) (count : Z) : interaction * Z * bool :=
  let wasCorrect := interaction__correct it in
  let unchecked :=
    map (fun i =>
           {| value := value i; dataset_correct := dataset_correct i; checked := false;
              wrapper := wrapper i |}) (inputs it) in
  let it' :=
    {| interaction__correct := false; interaction__incorrect := false;
       feedback := []; inputs := clearMarks unchecked |} in
  if wasCorrect then (it', Z.max 0 (count - 1), true) else (it', count, false).

(** The reader ticks or unticks inputs of an interaction (the browser's
    doing, no listener of the script runs): the inputs take the marks of
    [ticks], in order. *)
Fixpoint tick (ins : list input) (ticks : list bool) : list input :=
  match ins, ticks with
  | i :: ins', b :: ticks' =>
      {| value := value i; dataset_correct := dataset_correct i; checked := b;
         wrapper := wrapper i |} :: tick ins' ticks'
  | _, _ => ins
  end.

Fixpoint update_nth (A : Type) (n : nat) (f : A -> A) (l : list A) : list A :=
  match l, n with
  | [], _ => []
  | x :: l', O => f x :: l'
  | x :: l', S n' => x :: update_nth n' f l'
  end.

Inductive event :=
| ClickSubmit (k : nat)                  (* the submit button of the k-th interaction *)
| ClickReset (k : nat)
| Tick (k : nat) (ticks : list bool).

(** A handler of the k-th interaction runs on the page. *)
Definition handle (h : interaction -> Z -> interaction * Z * bool) (k : nat) (p : page) : page :=
  match nth_error (interactions p) k with
  | None => p
  | Some it =>
      let '(it', count', changed) := h it (correctCount p) in
      let p' := {| interactions := update_nth k (fun _ => it') (interactions p);
                   correctCount := count'; scoreValue := scoreValue p |} in
      if changed then updateScoreboard p' else p'
  end.

Definition step (p : page) (e : event) : page :=
  match e with
  | ClickSubmit k => handle submit k p
  | ClickReset k => handle reset k p
  | Tick k ticks =>
      {| interactions :=
           update_nth k
             (fun it => {| interaction__correct := interaction__correct it;
                           interaction__incorrect := interaction__incorrect it;
                           feedback := feedback it; inputs := tick (inputs it) ticks |})
             (interactions p);
         correctCount := correctCount p; scoreValue := scoreValue p |}
  end.

Definition run (p : page) (es : list event) : page := fold_left step es p.

(** The document as the browser has it when the script has run once: one
    [.interaction] for each section that has one, one input for each of
    its options, [let correctCount = 0], and [updateScoreboard()].  This is
    the document of a courseware whose section bodies, which the template
    embeds as they are, bring no element of class [interaction] of their
    own; the script takes every such element of the document. *)
Definition load_interaction (b : InteractionBlock) : interaction :=
  {| interaction__correct := false; interaction__incorrect := false; feedback := [];
     inputs := map (fun o => {| value := opt_id o;
                                dataset_correct := Html.answers_include (answers b) (opt_id o);
                                checked := false; wrapper := Unmarked |}) (options b) |}.

Definition load (c : Courseware) : page :=
  updateScoreboard
    {| interactions :=
         flat_map (fun s => match cs_interaction s with
                            | Some b => [load_interaction b]
                            | None => []
                            end) (cw_sections c);
       correctCount := 0; scoreValue := utf16 "暂无互动题" |}.

(** The interactions that carry the class [interaction--correct]. *)
Definition correct_now (p : page) : Z :=
  Z.of_nat (List.length (filter interaction__correct (interactions p))).

Definition nth_correct (p : page) (k : nat) : bool :=
  match nth_error (interactions p) k with
  | Some it => interaction__correct it
  | None => false
  end.

(** The pages a reader can bring about. *)
Inductive reachable (c : Courseware) : page -> Prop :=
| reach_load : reachable c (load c)
| reach_step : forall p e, reachable c p -> reachable c (step p e).

End Grading.

(* ===================================================================== *)
(** ** The service ([services/gemini.ts]) *)
(* ===================================================================== *)

Module Gemini.
Import Json.

Definition PLACEHOLDER_IMAGE_BASE : jsstring := utf16 "https://placehold.co/800x600".
Definition MAX_RETRY : nat := 2.

(** *** What the service runs in *)

(** The outcome of one [textModel.generateContent] and of reading
    [result.response?.text?.()]. *)
Inductive text_reply :=
| TextThrows                   (* the request, or text(), throws *)
| TextMissing                  (* no response, or no text *)
| TextIs (t : jsstring).

(** The outcome of one [imageModel.generateContent] and of reading
    [candidates?.[0]?.content?.parts?.find(...)?.inlineData?.data]. *)
Inductive image_reply :=
| ImageThrows
| ImageMissing                 (* some link of the chain is absent *)
| ImageData (base64 : jsstring).

Record world := {
  apiKey : option jsstring;                       (* apiKey ?? process.env.GEMINI_API_KEY *)
  text_provider : nat -> jsstring -> text_reply;  (* the reply to the k-th request, by its prompt *)
  image_provider : nat -> jsstring -> image_reply;
  uuid_source : nat -> jsstring;                  (* the k-th value of randomUUID() *)
  clock : jsstring;                               (* new Date().toISOString() *)
  numbers : numerics
}.

(** [Boolean(this.apiKey)]; [this.client] is non-null exactly then. *)
Definition isConfigured (w : world) : bool :=
  match apiKey w with
  | Some k => nonempty k
  | None => false
  end.

Inductive event :=
| TextRequest (prompt : jsstring)
| TextSettled
| ImageRequest (prompt : jsstring)
| ImageSettled
| Delay (ms : nat).

Record state := {
  trace : list event;            (* what happened so far, the latest first *)
  text_calls : nat;
  image_calls : nat;
  uuids : nat;
  textModel : bool;              (* this.textModel is set *)
  imageModel : bool
}.

Definition start : state :=
  {| trace := []; text_calls := 0; image_calls := 0; uuids := 0;
     textModel := false; imageModel := false |}.

Inductive exn :=
| ProviderError
| TypeError.

Inductive outcome (A : Type) :=
| Returns (a : A)
| Throws (e : exn).
Arguments Throws {A} e.

(** A computation of the service: it reads and writes the state, and
    returns or throws.  Console output is left out. *)
Definition M (A : Type) := state -> outcome A * state.

Definition ret (A : Type) (a : A) : M A := fun st => (Returns a, st).

Definition bind (A B : Type) (m : M A) (k : A -> M B) : M B :=
  fun st =>
    match m st with
    | (Returns a, st') => k a st'
    | (Throws e, st') => (Throws e, st')
    end.

Definition throw (A : Type) (e : exn) : M A := fun st => (Throws e, st).
Arguments throw {A} e.

(** [try { m } catch (error) { handler }] *)
Definition try_catch (A : Type) (m : M A) (handler : exn -> M A) : M A :=
  fun st =>
    match m st with
    | (Returns a, st') => (Returns a, st')
    | (Throws e, st') => handler e st'
    end.

Declare Scope service_scope.
Delimit Scope service_scope with service.
Notation "x <- m ;; k" := (bind m (fun x => k))
  (at level 61, m at next level, right associativity) : service_scope.
Notation "m ;;; k" := (bind m (fun _ => k))
  (at level 61, right associativity) : service_scope.
Local Open Scope service_scope.

Definition emit (e : event) : M unit :=
  fun st =>
    (Returns tt,
     {| trace := e :: trace st; text_calls := text_calls st; image_calls := image_calls st;
        uuids := uuids st; textModel := textModel st; imageModel := imageModel st |}).

Definition randomUUID (w : world) : M jsstring :=
  fun st =>
    (Returns (uuid_source w (uuids st)),
     {| trace := trace st; text_calls := text_calls st; image_calls := image_calls st;
        uuids := S (uuids st); textModel := textModel st; imageModel := imageModel st |}).

(** [if (!this.textModel) this.textModel = this.client.getGenerativeModel(...)] *)
Definition ensureTextModel : M unit :=
  fun st =>
    (Returns tt,
     {| trace := trace st; text_calls := text_calls st; image_calls := image_calls st;
        uuids := uuids st; textModel := true; imageModel := imageModel st |}).

Definition ensureImageModel : M unit :=
  fun st =>
    (Returns tt,
     {| trace := trace st; text_calls := text_calls st; image_calls := image_calls st;
        uuids := uuids st; textModel := textModel st; imageModel := true |}).

(** [await this.textModel.generateContent(...)] and [result.response?.text?.()]. *)
Definition requestText (w : world) (prompt : jsstring) : M (option jsstring) :=
  fun st =>
    let st' :=
      {| trace := TextSettled :: TextRequest prompt :: trace st;
         text_calls := S (text_calls st); image_calls := image_calls st;
         uuids := uuids st; textModel := textModel st; imageModel := imageModel st |} in
    match text_provider w (text_calls st) prompt with
    | TextThrows => (Throws ProviderError, st')
    | TextMissing => (Returns None, st')
    | TextIs t => (Returns (Some t), st')
    end.

Definition requestImage (w : world) (prompt : jsstring) : M (option jsstring) :=
  fun st =>
    let st' :=
      {| trace := ImageSettled :: ImageRequest prompt :: trace st;
         text_calls := text_calls st; image_calls := S (image_calls st);
         uuids := uuids st; textModel := textModel st; imageModel := imageModel st |} in
    match image_provider w (image_calls st) prompt with
    | ImageThrows => (Throws ProviderError, st')
    | ImageMissing => (Returns None, st')
    | ImageData d => (Returns (Some d), st')
    end.

(** *** Outline generation *)

Definition numbered (items : list jsstring) : list jsstring :=
  Html.map_indexed (fun item index => decimal (index + 1) ++ utf16 ". " ++ item) 0 items.

Definition buildOutlinePrompt (request : GenerationRequest) : jsstring :=
  let objectivesText :=
    match objectives request with
    | Some (o :: os) => join (utf16 "
") (numbered (o :: os))
    | _ => utf16 "无明确教学目标，可按照经验进行设置，但至少要有 4 个章节。"
    end in
  let constraintsText :=
    match constraints request with
    | Some (c :: cs) => join (utf16 "
") (map (fun item => utf16 "- " ++ item) (c :: cs))
    | _ => utf16 "无"
    end in
  let interactionTypesText :=
    match interactionTypes request with
    | Some (t :: ts) => join (utf16 "、") (map type_name (t :: ts))
    | _ => utf16 "无需互动题"
    end in
  join (utf16 "
")
    [ utf16 "你是一名拥有 15 年教学经验的资深课件设计师，精通 ADDIE 模型、视觉层级与认知负荷理论，请根据以下需求生成课程大纲，后续可以用来生成教学课件，不要添加额外文本或解释，确保返回可解析的 JSON。";
      [];
      utf16 "课程主题：" ++ topic request;
      utf16 "教学对象：" ++ audience request;
      utf16 "文案语气：" ++ match tone request with Some t => t | None => utf16 "未指定，保持专业友好" end;
      utf16 "图片风格：" ++ match imageStyle request with Some t => t | None => utf16 "未指定，可给出建议" end;
      utf16 "互动题需求：" ++ interactionTypesText;
      utf16 "约束条件：";
      constraintsText;
      [];
      utf16 "教学目标/章节参考：";
      objectivesText;
      [];
      utf16 "转换规则（必须遵守）：";
      utf16 "认知负荷：每页信息量 ≤ 5 条，文字 ≤ 100 字，使用“标题-内容-图”黄金三角";
      utf16 "语言风格：口语化、亲切，杜绝长难句";
      utf16 "重点要求：assetsHint中的图片提示词中要求生成的图片上不要包含任何文字，只要图像元素，这点要在生成的图片提示词中提示词中明确说明，而且这段图片提示词要尽可能精细。这部分需要体现的是图片生成的内容，后续这段提示词会直接发送给图像生成大模型进行图片生成。";
      utf16 "请严格输出 JSON，结构如下：";
      utf16 "{";
      quoted "  'title': '课程标题',";
      quoted "  'sections': [";
      utf16 "    {";
      quoted "      'title': '分页标题',";
      quoted "      'summary': '该分页的教学内容，可以分点展开',";
      quoted "      'interactionHint': '建议的互动题型，可选值 single | multi | truefalse，可省略',";
      quoted "      'assetsHint': '建议的配套图片提示词,重点要求是生成的图片上不要包含任何文字，只要图像元素，这点要在生成的图片提示词中提示词中明确说明。而且这部分的图片提示词要与section.title和section.summary相关，不要偏离主题。'";
      utf16 "    }";
      utf16 "  ]";
      utf16 "}";
      [];
      utf16 "不要添加额外文本或解释，确保返回可解析的 JSON。至少生成 3 个章节。" ].

Definition generateTextWithGemini (w : world) (prompt : jsstring) : M (option jsstring) :=
  if negb (isConfigured w) then ret None
  else
    try_catch
      (ensureTextModel ;;;
       text <- requestText w prompt ;;
       match text with
       | Some t => ret (if nonempty t then Some (trim t) else None)
       | None => ret None
       end)
      (fun _ => ret None).

(** [/```json\s*([\s\S]*?)```/i] *)
Definition jsonFence : Regex.pattern :=
  (Regex.text (utf16 "```json") ++ [Regex.Greedy Regex.Space; Regex.Captured Regex.AnyUnit]
     ++ Regex.text (utf16 "```"))%list.

Definition extractJson (input : jsstring) : option json :=
  if negb (nonempty input) then None
  else
    let jsonFenceMatch := Regex.first_match jsonFence input in
    let candidate := match jsonFenceMatch with Some g => g | None => input end in
    match indexOf 123%N candidate, lastIndexOf 125%N candidate with
    | Some firstBraceIndex, Some lastBraceIndex =>
        let jsonString := slice firstBraceIndex (lastBraceIndex + 1) candidate in
        (* a SyntaxError of JSON.parse is caught: null *)
        JSON_parse jsonString
    | _, _ => None
    end.

Definition pickInteractionHint (interactionTypes : list InteractionType) (index : nat)
    : option InteractionType :=
  match interactionTypes with
  | [] => None
  | _ :: _ => nth_error interactionTypes (index mod List.length interactionTypes)
  end.

(** [value.name]: a TypeError on [null], the own property of an object,
    [undefined] on the other values (none of the names read here is a
    property of a string, a number, a boolean or an array). *)
Definition property (value : json) (name : jsstring) : M (option json) :=
  match value with
  | JNull => throw TypeError
  | JObj ms => ret (lookup name ms)
  | _ => ret None
  end.

(** [v || fallback] *)
Definition or_else (nm : numerics) (v : option json) (fallback : json) : json :=
  match v with
  | Some x => if truthy nm x then x else fallback
  | None => fallback
  end.

(** [v ?? fallback]: [undefined] and [null] give way. *)
Definition nullish (v : option json) : option json :=
  match v with
  | Some JNull | None => None
  | Some x => Some x
  end.

Definition defaultTitle (request : GenerationRequest) : jsstring :=
  topic request ++ utf16 " 互动课件".

(** The callback of [parsed.sections.map]. *)
Definition outlineSection (w : world) (request : GenerationRequest) (section : json)
    (index : nat) : M (OutlineSection json) :=
  let nm := numbers w in
  let interactionTypes := match interactionTypes request with Some l => l | None => [] end in
  id <- randomUUID w ;;
  title <- property section (utf16 "title") ;;
  summary <- property section (utf16 "summary") ;;
  interactionHint <- property section (utf16 "interactionHint") ;;
  assetsHint <- property section (utf16 "assetsHint") ;;
  assets <-
    match nullish assetsHint with
    | Some v => ret v
    | None =>
        match ToString nm (or_else nm title (JStr (topic request))) with
        | Some name => ret (JStr (utf16 "请准备与「" ++ name ++ utf16 "」相关的插图。"))
        | None => throw TypeError
        end
    end ;;
  ret {| os_id := id;
         os_title := or_else nm title (JStr (utf16 "第 " ++ decimal (index + 1) ++ utf16 " 节"));
         os_summary := or_else nm summary (JStr (utf16 "请补充该节课程摘要。"));
         os_interactionHint :=
           match nullish interactionHint with
           | Some v => Some v
           | None => option_map (fun t => JStr (type_name t))
                       (pickInteractionHint interactionTypes index)
           end;
         os_assetsHint := Some assets |}.

Fixpoint mapM_indexed (A B : Type) (f : A -> nat -> M B) (index : nat) (l : list A)
    : M (list B) :=
  match l with
  | [] => ret []
  | x :: l' =>
      y <- f x index ;;
      ys <- mapM_indexed f (S index) l' ;;
      ret (y :: ys)
  end.

(** What [!parsed?.sections || parsed.sections.length === 0] and the call
    of [parsed.sections.map] make of the value read. *)
Inductive sections_reading :=
| NoSections                      (* the test holds: continue *)
| NotAnArray                      (* the test fails and .map is no function *)
| Sections (items : list json).

Definition read_sections (nm : numerics) (parsed : option json) : sections_reading :=
  match parsed with
  | Some (JObj ms) =>
      match lookup (utf16 "sections") ms with
      | None => NoSections
      | Some s =>
          if negb (truthy nm s) then NoSections
          else
            match s with
            | JArr [] => NoSections
            | JArr items => Sections items
            | JObj fields =>
                match lookup (utf16 "length") fields with
                | Some (JNum lit) => if number_is_zero nm lit then NoSections else NotAnArray
                | _ => NotAnArray
                end
            | _ => NotAnArray
            end
      end
  | _ => NoSections
  end.

(** One turn of the loop: [None] is [continue], or the end of the [try]
    block reached through [catch]. *)
Definition outlineAttempt (w : world) (request : GenerationRequest) (prompt : jsstring)
    : M (option (CourseOutline json)) :=
  try_catch
    (rawText <- generateTextWithGemini w prompt ;;
     match rawText with
     | None => ret None
     | Some rawText =>
         if negb (nonempty rawText) then ret None
         else
           let parsed := extractJson rawText in
           match read_sections (numbers w) parsed with
           | NoSections => ret None
           | NotAnArray =>
               (* [id: randomUUID()] comes before the call of [.map] *)
               randomUUID w ;;; throw TypeError
           | Sections items =>
               id <- randomUUID w ;;
               sections <- mapM_indexed (outlineSection w request) 0 items ;;
               ret (Some {| co_id := id;
                            co_title :=
                              match parsed with
                              | Some (JObj ms) =>
                                  match nullish (lookup (utf16 "title") ms) with
                                  | Some v => v
                                  | None => JStr (defaultTitle request)
                                  end
                              | _ => JStr (defaultTitle request)
                              end;
                            co_sections := sections |})
           end
     end)
    (fun _ => ret None).

(** [for (let attempt = 0; attempt <= MAX_RETRY; attempt += 1)], with
    [remaining] turns to go. *)
Fixpoint outlineAttempts (w : world) (request : GenerationRequest) (prompt : jsstring)
    (remaining : nat) : M (option (CourseOutline json)) :=
  match remaining with
  | O => ret None
  | S remaining' =>
      r <- outlineAttempt w request prompt ;;
      match r with
      | Some outline => ret (Some outline)
      | None => outlineAttempts w request prompt remaining'
      end
  end.

Definition generateOutlineWithGemini (w : world) (request : GenerationRequest)
    : M (option (CourseOutline json)) :=
  if negb (isConfigured w) then ret None
  else
    let prompt := buildOutlinePrompt request in
    outlineAttempts w request prompt (S MAX_RETRY).

Definition buildDefaultOutlineSections (topic : jsstring)
    : list (jsstring * jsstring * jsstring) :=     (* title, summary, assetsHint *)
  let safeTopic := if nonempty topic then topic else utf16 "本课" in
  [ (utf16 "第一节：主题导入",
     utf16 "围绕“" ++ safeTopic ++ utf16 "”的背景与重要性进行导入，激发学习兴趣。",
     utf16 "展示与“" ++ safeTopic ++ utf16 "”相关的引导性图片。");
    (utf16 "第二节：核心内容讲解",
     utf16 "详细阐述“" ++ safeTopic ++ utf16 "”的关键知识点，并结合示例说明。",
     utf16 "准备能体现核心概念的图示或案例插画。");
    (utf16 "第三节：总结与拓展",
     utf16 "对“" ++ safeTopic ++ utf16 "”进行总结，提出拓展思考或实践建议。",
     utf16 "使用概念图或思维导图形式的图片强化记忆。") ].

Definition generateOutline (w : world) (request : GenerationRequest)
    : M (CourseOutline json) :=
  outline <- generateOutlineWithGemini w request ;;
  match outline with
  | Some outline => ret outline
  | None =>
      (* fallback *)
      let interactionTypes := match interactionTypes request with Some l => l | None => [] end in
      sections <-
        mapM_indexed
          (fun (section : jsstring * jsstring * jsstring) index =>
             let '(title, summary, assetsHint) := section in
             id <- randomUUID w ;;
             ret {| os_id := id; os_title := JStr title; os_summary := JStr summary;
                    os_interactionHint :=
                      option_map (fun t => JStr (type_name t))
                        (pickInteractionHint interactionTypes index);
                    os_assetsHint := Some (JStr assetsHint) |})
          0 (buildDefaultOutlineSections (topic request)) ;;
      id <- randomUUID w ;;
      ret {| co_id := id; co_title := JStr (defaultTitle request); co_sections := sections |}
  end.

(** *** Courseware generation *)

Definition waitForNextImage : M unit := emit (Delay 1000).

Definition placeholder (index : nat) : jsstring :=
  PLACEHOLDER_IMAGE_BASE ++ utf16 "?text=Slide+" ++ decimal (index + 1).

Definition generateImageWithGemini (w : world) (prompt : jsstring) : M (option jsstring) :=
  if negb (isConfigured w) then ret None
  else
    try_catch
      (ensureImageModel ;;;
       base64 <- requestImage w prompt ;;
       match base64 with
       | Some d => ret (if nonempty d then Some (utf16 "data:image/png;base64," ++ d) else None)
       | None => ret None
       end)
      (fun _ => ret None).

Definition generateImage (w : world) (prompt : jsstring) (index : nat) : M jsstring :=
  if negb (isConfigured w) then ret (placeholder index)
  else
    image <- generateImageWithGemini w prompt ;;
    match image with
    | Some i => if nonempty i then ret i else ret (placeholder index)
    | None => ret (placeholder index)
    end.

Definition buildSectionBody (section : OutlineSection jsstring) (request : GenerationRequest)
    : jsstring :=
  join (utf16 "
")
    (filter nonempty
       [ utf16 "<h2>" ++ os_title section ++ utf16 "</h2>";
         utf16 "<p>" ++ os_summary section ++ utf16 "</p>";
         utf16 "<p>教学对象：" ++ audience request ++ utf16 "</p>";
         match tone request with
         | Some t => if nonempty t then utf16 "<p>语气：" ++ t ++ utf16 "</p>" else []
         | None => []
         end ]).

Definition buildImagePrompt (request : GenerationRequest) (section : OutlineSection jsstring)
    : jsstring :=
  join (utf16 " | ")
    [ match os_assetsHint section with Some h => h | None => [] end;
      match imageStyle request with
      | Some s => s
      | None => utf16 "flat illustration, bright colors"
      end ].

Definition buildInteraction (w : world) (section : OutlineSection jsstring) (index : nat)
    (interactionTypes : list InteractionType) : M (option InteractionBlock) :=
  if List.length interactionTypes =? 0 then ret None
  else
    let optionId := randomUUID w in
    let interactionType :=
      match nth_error interactionTypes (index mod List.length interactionTypes) with
      | Some t => t
      | None => single
      end in
    if InteractionType_eqb interactionType truefalse then
      trueId <- optionId ;;
      falseId <- optionId ;;
      id <- randomUUID w ;;
      ret (Some
        {| ib_id := id;
           ib_type := truefalse;
           question := os_title section ++ utf16 " 的陈述是否正确？";
           options := [ {| opt_id := trueId; opt_label := utf16 "正确" |};
                        {| opt_id := falseId; opt_label := utf16 "不正确" |} ];
           answers := [trueId];
           explanation := utf16 "本节重点为：" ++ os_summary section;
           scoring := {| points := 5;
                         analyticsKey := utf16 "section-" ++ decimal (index + 1) |} |})
    else if InteractionType_eqb interactionType multi then
      optionA <- optionId ;;
      optionB <- optionId ;;
      optionC <- optionId ;;
      id <- randomUUID w ;;
      ret (Some
        {| ib_id := id;
           ib_type := multi;
           question := utf16 "关于“" ++ os_title section ++ utf16 "”，以下哪些描述是正确的？";
           options := [ {| opt_id := optionA; opt_label := os_summary section |};
                        {| opt_id := optionB; opt_label := utf16 "结合课堂活动的应用场景" |};
                        {| opt_id := optionC; opt_label := utf16 "与主题无关的拓展知识" |} ];
           answers := [optionA; optionB];
           explanation := utf16 "正确选项涵盖了本节所需掌握的核心与实践内容。";
           scoring := {| points := 15;
                         analyticsKey := utf16 "section-" ++ decimal (index + 1) |} |})
    else
      correctOptionId <- optionId ;;
      id <- randomUUID w ;;
      second <- optionId ;;
      third <- optionId ;;
      ret (Some
        {| ib_id := id;
           ib_type := single;
           question := os_title section ++ utf16 " 的核心要点是什么？";
           options := [ {| opt_id := correctOptionId; opt_label := os_summary section |};
                        {| opt_id := second;
                           opt_label := utf16 "与 " ++ os_title section ++ utf16 " 相关的拓展知识" |};
                        {| opt_id := third; opt_label := utf16 "课堂活动安排" |} ];
           answers := [correctOptionId];
           explanation := utf16 "正确答案突出“" ++ os_summary section ++ utf16 "”。";
           scoring := {| points := 10;
                         analyticsKey := utf16 "section-" ++ decimal (index + 1) |} |}).

(** The body of the loop of [generateCourseware] for the section at
    [index]. *)
Definition coursewareSection (w : world) (payload : CoursewareBuildRequest)
    (section : OutlineSection jsstring) (index : nat) : M CoursewareSection :=
  (if 0 <? index then waitForNextImage else ret tt) ;;;
  let imagePrompt := buildImagePrompt (request payload) section in
  imageUrl <- generateImage w imagePrompt index ;;
  interaction <-
    buildInteraction w section index
      (match interactionTypes (request payload) with Some l => l | None => [] end) ;;
  ret {| cs_id := os_id section;
         cs_title := os_title section;
         cs_body := buildSectionBody section (request payload);
         cs_image := {| img_prompt := imagePrompt; img_url := imageUrl;
                        img_alt := os_title section ++ utf16 " 插图" |};
         cs_interaction := interaction |}.

(** [for (let index = 0; index < payload.outline.sections.length; index += 1)] *)
Definition coursewareSections (w : world) (payload : CoursewareBuildRequest)
    : M (list CoursewareSection) :=
  mapM_indexed (coursewareSection w payload) 0 (co_sections (outline payload)).

Definition buildCourseware (w : world) (payload : CoursewareBuildRequest) : M Courseware :=
  let generatedAt := clock w in
  sections <- coursewareSections w payload ;;
  id <- randomUUID w ;;
  ret {| cw_id := id;
         cw_title := co_title (outline payload);
         cw_metadata :=
           {| md_topic := topic (request payload);
              md_audience := audience (request payload);
              md_objectives := match objectives (request payload) with Some l => l | None => [] end;
              md_generatedAt := generatedAt |};
         cw_sections := sections |}.

Section Artifact.

(** The static style and script text of the document template. *)
Variable stylesheet : jsstring.
Variable script : jsstring.

Definition generateCourseware (w : world) (payload : CoursewareBuildRequest)
    : M CoursewareArtifact :=
  courseware <- buildCourseware w payload ;;
  let html := Html.renderCoursewareHtml stylesheet script courseware in
  ret {| courseware := courseware; html := html |}.

End Artifact.

(** *** Reading a run *)

Definition delays (st : state) : nat :=
  List.length (filter (fun e => match e with Delay _ => true | _ => false end) (trace st)).

(** The events in the order they happened. *)
Definition history (st : state) : list event := rev (trace st).

End Gemini.

(* ===================================================================== *)
(** * Properties *)
(* ===================================================================== *)

Import Json Gemini.
Local Open Scope service_scope.

Arguments utf16 s%_string : simpl never.
Arguments quoted s%_string : simpl never.
Arguments decimal n : simpl never.

(** ** Computations of the service *)

Ltac service_unfold :=
  unfold bind, ret, throw, try_catch, randomUUID, emit, ensureTextModel,
    ensureImageModel, requestText, requestImage, waitForNextImage in *.

Lemma bind_returns (A B : Type) (m : M A) (k : A -> M B) st a st' :
  m st = (Returns a, st') -> bind m k st = k a st'.
Proof. intros H. unfold bind. now rewrite H. Qed.

Lemma bind_throws (A B : Type) (m : M A) (k : A -> M B) st e st' :
  m st = (Throws e, st') -> bind m k st = (Throws e, st').
Proof. intros H. unfold bind. now rewrite H. Qed.

Lemma bind_ext (A B : Type) (m m' : M A) (k k' : A -> M B) st :
  m st = m' st -> (forall a st1, k a st1 = k' a st1) -> bind m k st = bind m' k' st.
Proof.
  intros Hm Hk. unfold bind. rewrite Hm. destruct (m' st) as [[a|e] st1]; auto.
Qed.

(** A computation that returns whatever the state. *)
Definition total (A : Type) (m : M A) : Prop :=
  forall st, exists a st', m st = (Returns a, st').

Lemma total_ret (A : Type) (a : A) : total (ret a).
Proof. intros st. now exists a, st. Qed.

Lemma total_bind (A B : Type) (m : M A) (k : A -> M B) :
  total m -> (forall a, total (k a)) -> total (bind m k).
Proof.
  intros Hm Hk st. destruct (Hm st) as (a & st1 & E).
  destruct (Hk a st1) as (b & st2 & E2).
  exists b, st2. unfold bind. now rewrite E.
Qed.

Lemma total_try_catch (A : Type) (m : M A) (h : exn -> M A) :
  (forall e, total (h e)) -> total (try_catch m h).
Proof.
  intros Hh st. unfold try_catch. destruct (m st) as [[a|e] st1].
  - now exists a, st1.
  - apply Hh.
Qed.

Lemma total_randomUUID w : total (randomUUID w).
Proof. intros st. unfold randomUUID. eauto. Qed.

Lemma mapM_indexed_total (A B : Type) (f : A -> nat -> M B) l :
  (forall x i, total (f x i)) -> forall i, total (mapM_indexed f i l).
Proof.
  intros Hf. induction l as [|x l IH]; intros i; simpl.
  - apply total_ret.
  - apply total_bind; [apply Hf|]. intros y.
    apply total_bind; [apply IH|]. intros ys. apply total_ret.
Qed.

Lemma mapM_indexed_length (A B : Type) (f : A -> nat -> M B) l :
  forall i st ys st', mapM_indexed f i l st = (Returns ys, st') ->
    List.length ys = List.length l.
Proof.
  induction l as [|x l IH]; intros i st ys st' H; simpl in H.
  - unfold ret in H. now inversion H.
  - unfold bind at 1 in H. destruct (f x i st) as [[y|e] st1]; [|discriminate].
    unfold bind at 1 in H.
    destruct (mapM_indexed f (S i) l st1) as [[zs|e] st2] eqn:E; [|discriminate].
    unfold ret in H. inversion H; subst. simpl. f_equal. eapply IH; eauto.
Qed.

(** ** The interaction synthesizer *)

(** The type a section gets: [requestedTypes[index mod length]], and
    [single] where that is absent. *)
Definition effective_type (types : list InteractionType) (index : nat) : InteractionType :=
  match nth_error types (index mod List.length types) with
  | Some t => t
  | None => single
  end.

(** The i-th identifier drawn from [st] on. *)
Definition drawn (w : world) (st : state) (i : nat) : jsstring :=
  uuid_source w (i + uuids st).

Definition after_draws (st : state) (n : nat) : state :=
  {| trace := trace st; text_calls := text_calls st; image_calls := image_calls st;
     uuids := n + uuids st; textModel := textModel st; imageModel := imageModel st |}.

Definition key_of (index : nat) : jsstring := utf16 "section-" ++ decimal (index + 1).

Definition truefalse_block (w : world) (st : state) (s : OutlineSection jsstring) (index : nat) :=
  {| ib_id := drawn w st 2; ib_type := truefalse;
     question := os_title s ++ utf16 " 的陈述是否正确？";
     options := [ {| opt_id := drawn w st 0; opt_label := utf16 "正确" |};
                  {| opt_id := drawn w st 1; opt_label := utf16 "不正确" |} ];
     answers := [drawn w st 0];
     explanation := utf16 "本节重点为：" ++ os_summary s;
     scoring := {| points := 5; analyticsKey := key_of index |} |}.

Definition multi_block (w : world) (st : state) (s : OutlineSection jsstring) (index : nat) :=
  {| ib_id := drawn w st 3; ib_type := multi;
     question := utf16 "关于“" ++ os_title s ++ utf16 "”，以下哪些描述是正确的？";
     options := [ {| opt_id := drawn w st 0; opt_label := os_summary s |};
                  {| opt_id := drawn w st 1; opt_label := utf16 "结合课堂活动的应用场景" |};
                  {| opt_id := drawn w st 2; opt_label := utf16 "与主题无关的拓展知识" |} ];
     answers := [drawn w st 0; drawn w st 1];
     explanation := utf16 "正确选项涵盖了本节所需掌握的核心与实践内容。";
     scoring := {| points := 15; analyticsKey := key_of index |} |}.

Definition single_block (w : world) (st : state) (s : OutlineSection jsstring) (index : nat) :=
  {| ib_id := drawn w st 1; ib_type := single;
     question := os_title s ++ utf16 " 的核心要点是什么？";
     options := [ {| opt_id := drawn w st 0; opt_label := os_summary s |};
                  {| opt_id := drawn w st 2;
                     opt_label := utf16 "与 " ++ os_title s ++ utf16 " 相关的拓展知识" |};
                  {| opt_id := drawn w st 3; opt_label := utf16 "课堂活动安排" |} ];
     answers := [drawn w st 0];
     explanation := utf16 "正确答案突出“" ++ os_summary s ++ utf16 "”。";
     scoring := {| points := 10; analyticsKey := key_of index |} |}.

(** What [buildInteraction] returns, and the state it leaves. *)
Definition interaction_of (w : world) (st : state) (s : OutlineSection jsstring)
    (index : nat) (types : list InteractionType) : option InteractionBlock * state :=
  match types with
  | [] => (None, st)
  | _ :: _ =>
      match effective_type types index with
      | truefalse => (Some (truefalse_block w st s index), after_draws st 3)
      | multi => (Some (multi_block w st s index), after_draws st 4)
      | single | open => (Some (single_block w st s index), after_draws st 4)
      end
  end.

Lemma buildInteraction_returns w s index types st :
  buildInteraction w s index types st =
    (Returns (fst (interaction_of w st s index types)), snd (interaction_of w st s index types)).
Proof.
  unfold buildInteraction, interaction_of, effective_type.
  destruct types as [|t ts]; [reflexivity|].
  cbn [List.length Nat.eqb].
  destruct (nth_error (t :: ts) (index mod S (List.length ts))) as [[]|];
    cbn [InteractionType_eqb]; service_unfold; cbn [fst snd uuids trace text_calls
      image_calls textModel imageModel];
    unfold truefalse_block, multi_block, single_block, drawn, after_draws, key_of;
    reflexivity.
Qed.

(** The invariant of an interaction block. *)
Definition block_invariant (b : InteractionBlock) : Prop :=
  (forall a, In a (answers b) -> In a (map opt_id (options b)))
  /\ ib_type b <> open
  /\ (ib_type b = truefalse ->
        List.length (options b) = 2 /\ List.length (answers b) = 1)
  /\ (ib_type b = single ->
        exists first others, options b = first :: others /\ answers b = [opt_id first])
  /\ (ib_type b = multi ->
        exists a1 a2, answers b = [a1; a2]
          /\ In a1 (map opt_id (options b)) /\ In a2 (map opt_id (options b))).

Lemma truefalse_block_invariant w st s i : block_invariant (truefalse_block w st s i).
Proof.
  unfold block_invariant; cbn. repeat split; try discriminate.
  intros a [<-|[]]. now left.
Qed.

Lemma multi_block_invariant w st s i : block_invariant (multi_block w st s i).
Proof.
  unfold block_invariant; cbn. repeat split; try discriminate.
  - intros a [<-|[<-|[]]]; auto.
  - intros _. exists (drawn w st 0), (drawn w st 1). auto.
Qed.

Lemma single_block_invariant w st s i : block_invariant (single_block w st s i).
Proof.
  unfold block_invariant; cbn. repeat split; try discriminate.
  - intros a [<-|[]]. now left.
  - intros _. eexists _, _. split; reflexivity.
Qed.

(** C5. Every block [buildInteraction] produces is self-consistent: each
    answer is the id of one of its options; a [truefalse] block has two
    options and one answer; a [single] block has one answer, the id of its
    first option; a [multi] block has two answers, both ids of options.
    The synthesizer always returns: nothing for an empty list of requested
    types, a block otherwise. *)
Theorem interaction_blocks_are_consistent :
  forall w section index types st,
    exists r st',
      buildInteraction w section index types st = (Returns r, st')
      /\ (types = [] -> r = None)
      /\ (types <> [] -> exists b, r = Some b)
      /\ (forall b, r = Some b -> block_invariant b).
Proof.
  intros w s i types st. eexists _, _. split; [apply buildInteraction_returns|].
  unfold interaction_of. destruct types as [|t ts]; cbn [fst].
  - split; [reflexivity|]. split; [congruence|]. discriminate.
  - split; [discriminate|].
    destruct (effective_type (t :: ts) i); cbn [fst];
      (split; [intros _; eexists; reflexivity|]); intros b E; injection E as <-;
      auto using truefalse_block_invariant, multi_block_invariant, single_block_invariant.
Qed.

(** C10. When the type selected for a section is [open], the synthesizer
    returns a [single] block: three options, one answer (the id of the
    first option), 10 points. *)
Theorem open_is_built_as_single :
  forall w section index types st,
    nth_error types (index mod List.length types) = Some open ->
    exists b st',
      buildInteraction w section index types st = (Returns (Some b), st')
      /\ ib_type b = single
      /\ List.length (options b) = 3
      /\ (exists first others, options b = first :: others /\ answers b = [opt_id first])
      /\ points (scoring b) = 10.
Proof.
  intros w s i types st H.
  rewrite buildInteraction_returns. unfold interaction_of, effective_type.
  destruct types as [|t ts].
  - cbn in H. destruct i; discriminate.
  - rewrite H. cbn [fst snd]. eexists _, _. split; [reflexivity|].
    cbn. repeat split. eexists _, _. split; reflexivity.
Qed.

(** ** The image orchestrator *)

Lemma nonempty_app_cons (a : jsstring) c d : nonempty (a ++ c :: d) = true.
Proof. destruct a; reflexivity. Qed.

Definition after_image (prompt : jsstring) (st : state) : state :=
  {| trace := ImageSettled :: ImageRequest prompt :: trace st;
     text_calls := text_calls st; image_calls := S (image_calls st);
     uuids := uuids st; textModel := textModel st; imageModel := true |}.

(** The url [generateImage] settles on, by the provider's reply. *)
Definition image_url_of (w : world) (st : state) (prompt : jsstring) (index : nat) : jsstring :=
  if isConfigured w then
    match image_provider w (image_calls st) prompt with
    | ImageData d =>
        if nonempty d then utf16 "data:image/png;base64," ++ d else placeholder index
    | ImageThrows | ImageMissing => placeholder index
    end
  else placeholder index.

Lemma generateImage_returns w prompt index st :
  generateImage w prompt index st =
    (Returns (image_url_of w st prompt index),
     if isConfigured w then after_image prompt st else st).
Proof.
  unfold generateImage, generateImageWithGemini, image_url_of.
  destruct (isConfigured w); cbn [negb]; [|reflexivity].
  unfold bind at 1. unfold try_catch. unfold bind at 1. unfold ensureImageModel at 1.
  unfold bind at 1. unfold requestImage. cbn [image_calls].
  destruct (image_provider w (image_calls st) prompt) as [| |d].
  - reflexivity.
  - reflexivity.
  - unfold ret at 1. destruct d as [|c d]; cbn [nonempty].
    + reflexivity.
    + rewrite (nonempty_app_cons (utf16 "data:image/png;base64,") c d). reflexivity.
Qed.

Definition after_delay (st : state) : state :=
  {| trace := Delay 1000 :: trace st; text_calls := text_calls st;
     image_calls := image_calls st; uuids := uuids st;
     textModel := textModel st; imageModel := imageModel st |}.

(** The state in which the image of the section at [index] is asked for. *)
Definition paced (index : nat) (st : state) : state :=
  if 0 <? index then after_delay st else st.

Definition types_of (payload : CoursewareBuildRequest) : list InteractionType :=
  match interactionTypes (request payload) with Some l => l | None => [] end.

Lemma coursewareSection_returns w payload section index st :
  let prompt := buildImagePrompt (request payload) section in
  let st1 := paced index st in
  let st2 := if isConfigured w then after_image prompt st1 else st1 in
  coursewareSection w payload section index st =
    (Returns
       {| cs_id := os_id section;
          cs_title := os_title section;
          cs_body := buildSectionBody section (request payload);
          cs_image := {| img_prompt := prompt;
                         img_url := image_url_of w st1 prompt index;
                         img_alt := os_title section ++ utf16 " 插图" |};
          cs_interaction := fst (interaction_of w st2 section index (types_of payload)) |},
     snd (interaction_of w st2 section index (types_of payload))).
Proof.
  intros prompt st1 st2. unfold coursewareSection.
  assert (E : (if 0 <? index then waitForNextImage else ret tt) st = (Returns tt, st1)).
  { unfold st1, paced. destruct (0 <? index); reflexivity. }
  unfold bind at 1. rewrite E.
  unfold bind at 1. fold prompt. rewrite generateImage_returns. fold st2.
  unfold bind at 1. fold (types_of payload). rewrite buildInteraction_returns.
  reflexivity.
Qed.

(** C7. The image url of the section at [index]: the placeholder for slide
    [index + 1] when the service has no credential, when the provider's call
    fails and when the reply carries no image data; the data URI of the
    payload when the reply carries one.  The section is returned in every
    case: nothing is thrown. *)
Theorem image_url_is_placeholder_or_data_uri :
  forall w payload section index st,
    let prompt := buildImagePrompt (request payload) section in
    let reply := image_provider w (image_calls st) prompt in
    let slide :=
      utf16 "https://placehold.co/800x600" ++ utf16 "?text=Slide+" ++ decimal (index + 1) in
    exists cs st',
      coursewareSection w payload section index st = (Returns cs, st')
      /\ (isConfigured w = false -> img_url (cs_image cs) = slide)
      /\ (reply = ImageThrows \/ reply = ImageMissing \/ reply = ImageData [] ->
          img_url (cs_image cs) = slide)
      /\ (forall d, isConfigured w = true -> reply = ImageData d -> d <> [] ->
          img_url (cs_image cs) = utf16 "data:image/png;base64," ++ d).
Proof.
  intros w payload section index st prompt reply slide.
  eexists _, _. split; [apply coursewareSection_returns|].
  cbn [cs_image img_url]. fold prompt.
  assert (Hcalls : image_calls (paced index st) = image_calls st).
  { unfold paced. destruct (0 <? index); reflexivity. }
  unfold image_url_of. rewrite Hcalls. fold reply.
  split; [|split].
  - intros ->. reflexivity.
  - intros H. destruct (isConfigured w); [|reflexivity].
    destruct H as [-> | [-> | ->]]; reflexivity.
  - intros d -> -> Hd. destruct d; [congruence | reflexivity].
Qed.

(** ** Pacing *)

(** What the loop does for the section at [index]: the delay, except at
    index 0, then the image request and its settling (when the service has a
    credential; the placeholder needs no request). *)
Definition section_events (w : world) (payload : CoursewareBuildRequest)
    (section : OutlineSection jsstring) (index : nat) : list event :=
  (if 0 <? index then [Delay 1000] else [])
    ++ (if isConfigured w
        then [ImageRequest (buildImagePrompt (request payload) section); ImageSettled]
        else []).

Fixpoint pacing (w : world) (payload : CoursewareBuildRequest) (index : nat)
    (sections : list (OutlineSection jsstring)) : list event :=
  match sections with
  | [] => []
  | s :: rest => section_events w payload s index ++ pacing w payload (S index) rest
  end.

Definition count_delays (es : list event) : nat :=
  List.length (filter (fun e => match e with Delay _ => true | _ => false end) es).

Lemma interaction_of_trace w st s i types :
  trace (snd (interaction_of w st s i types)) = trace st.
Proof.
  unfold interaction_of. destruct types; [reflexivity|].
  destruct (effective_type _ _); reflexivity.
Qed.

Lemma coursewareSection_history w payload section index st cs st' :
  coursewareSection w payload section index st = (Returns cs, st') ->
  history st' = history st ++ section_events w payload section index.
Proof.
  rewrite coursewareSection_returns. intros [= _ <-].
  unfold history. rewrite interaction_of_trace.
  unfold section_events, paced. destruct (0 <? index), (isConfigured w); cbn;
    rewrite <- ?app_assoc; try reflexivity.
  now rewrite app_nil_r.
Qed.

Lemma coursewareSections_history w payload sections :
  forall index st, exists cs st',
    mapM_indexed (coursewareSection w payload) index sections st = (Returns cs, st')
    /\ history st' = history st ++ pacing w payload index sections.
Proof.
  induction sections as [|s rest IH]; intros index st; cbn [mapM_indexed pacing].
  - exists [], st. split; [reflexivity|]. now rewrite app_nil_r.
  - destruct (coursewareSection w payload s index st) as [[c|e] st1] eqn:E.
    2:{ rewrite coursewareSection_returns in E. discriminate. }
    destruct (IH (S index) st1) as (cs & st2 & E2 & H2).
    exists (c :: cs), st2. split.
    + unfold bind at 1. rewrite E. unfold bind at 1. rewrite E2. reflexivity.
    + rewrite H2, (coursewareSection_history _ _ _ _ _ E). now rewrite app_assoc.
Qed.

Lemma count_delays_app a b : count_delays (a ++ b) = count_delays a + count_delays b.
Proof. unfold count_delays. now rewrite filter_app, length_app. Qed.

Lemma count_delays_pacing w payload sections :
  forall index,
    count_delays (pacing w payload index sections)
    = if 0 <? index then List.length sections else List.length sections - 1.
Proof.
  induction sections as [|s rest IH]; intros index; cbn [pacing].
  - now destruct (0 <? index).
  - rewrite count_delays_app, IH. cbn [Nat.ltb Nat.leb List.length].
    unfold section_events.
    destruct index; cbn [Nat.ltb Nat.leb]; destruct (isConfigured w); cbn; lia.
Qed.

(** C6. One call of [generateCourseware] over an outline of n sections
    always returns, and what it does is exactly [pacing]: for each section in
    turn, a delay of 1000 ms (not for the first section), then that section's
    image request, settled before anything of the next section starts.  The
    delay is run n - 1 times (not at all for an empty outline). *)
Theorem delay_before_every_image_but_the_first :
  forall stylesheet script w payload st,
    exists artifact st',
      generateCourseware stylesheet script w payload st = (Returns artifact, st')
      /\ history st' = history st ++ pacing w payload 0 (co_sections (outline payload))
      /\ delays st' = delays st + (List.length (co_sections (outline payload)) - 1).
Proof.
  intros ss sc w payload st.
  destruct (coursewareSections_history w payload (co_sections (outline payload)) 0 st)
    as (cs & st1 & E & H).
  unfold generateCourseware, buildCourseware, coursewareSections.
  eexists _, _. split.
  - unfold bind at 1. unfold bind at 1. rewrite E. service_unfold. reflexivity.
  - cbn [trace history]. unfold history in *. cbn [trace]. split; [exact H|].
    unfold delays. cbn [trace].
    fold (count_delays (trace st1)). fold (count_delays (trace st)).
    assert (Hr : forall es, count_delays (rev es) = count_delays es).
    { intros es. unfold count_delays.
      induction es as [|e es IHes]; [reflexivity|]. cbn [rev].
      rewrite filter_app, length_app, IHes. cbn [filter]. destruct e; cbn; lia. }
    rewrite <- (Hr (trace st1)), H, count_delays_app, Hr, count_delays_pacing.
    reflexivity.
Qed.

(** ** The interaction hints are not read *)

Definition forget_hint (s : OutlineSection jsstring) : OutlineSection jsstring :=
  {| os_id := os_id s; os_title := os_title s; os_summary := os_summary s;
     os_interactionHint := None; os_assetsHint := os_assetsHint s |}.

(** The outline with the [interactionHint] of every section taken out. *)
Definition forget_hints (o : CourseOutline jsstring) : CourseOutline jsstring :=
  {| co_id := co_id o; co_title := co_title o;
     co_sections := map forget_hint (co_sections o) |}.

Definition without_hints (p : CoursewareBuildRequest) : CoursewareBuildRequest :=
  {| outline := forget_hints (outline p); request := request p |}.

Lemma mapM_indexed_map (A A' B : Type) (h : A -> A') (f : A' -> nat -> M B)
    (g : A -> nat -> M B) (l : list A) :
  (forall x i st, f (h x) i st = g x i st) ->
  forall i st, mapM_indexed f i (map h l) st = mapM_indexed g i l st.
Proof.
  intros Hfg. induction l as [|x l IH]; intros i st; cbn [map mapM_indexed].
  - reflexivity.
  - unfold bind at 1 3. rewrite Hfg. destruct (g x i st) as [[y|e] st1]; [|reflexivity].
    unfold bind at 1 2. rewrite IH. reflexivity.
Qed.

(** The block of a section is a function of the requested types, the index,
    the section's title and summary (and of the identifiers drawn). *)
Lemma interaction_reads_title_and_summary w s s' index types :
  os_title s = os_title s' -> os_summary s = os_summary s' ->
  forall st, buildInteraction w s index types st = buildInteraction w s' index types st.
Proof.
  intros Ht Hs st. rewrite !buildInteraction_returns.
  unfold interaction_of, truefalse_block, multi_block, single_block.
  now rewrite Ht, Hs.
Qed.

Lemma coursewareSections_without_hints w p st :
  coursewareSections w (without_hints p) st = coursewareSections w p st.
Proof.
  unfold coursewareSections.
  change (co_sections (outline (without_hints p)))
    with (map forget_hint (co_sections (outline p))).
  apply mapM_indexed_map. intros x i st0. reflexivity.
Qed.

Lemma generateCourseware_without_hints stylesheet script w p st :
  generateCourseware stylesheet script w p st
  = generateCourseware stylesheet script w (without_hints p) st.
Proof.
  unfold generateCourseware, buildCourseware.
  apply bind_ext; [|reflexivity].
  apply bind_ext; [|reflexivity].
  symmetry. apply coursewareSections_without_hints.
Qed.

(** C9. Two requests whose outlines differ only in the [interactionHint] of
    their sections give the same result, under the same provider replies and
    the same identifiers drawn: the same courseware (and so, for every
    section, the same interaction block: type, question, options, answers,
    explanation, scoring) and the same document. *)
Theorem interaction_hints_have_no_influence :
  forall stylesheet script w p1 p2 st,
    request p1 = request p2 ->
    forget_hints (outline p1) = forget_hints (outline p2) ->
    generateCourseware stylesheet script w p1 st
    = generateCourseware stylesheet script w p2 st.
Proof.
  intros ss sc w p1 p2 st Hr Ho.
  rewrite (generateCourseware_without_hints ss sc w p1),
          (generateCourseware_without_hints ss sc w p2).
  unfold without_hints. now rewrite Hr, Ho.
Qed.

(** ** The outline synthesizer *)

Definition after_text (prompt : jsstring) (st : state) : state :=
  {| trace := TextSettled :: TextRequest prompt :: trace st;
     text_calls := S (text_calls st); image_calls := image_calls st;
     uuids := uuids st; textModel := true; imageModel := imageModel st |}.

(** What [generateTextWithGemini] makes of a reply. *)
Definition raw_text (reply : text_reply) : option jsstring :=
  match reply with
  | TextIs t => if nonempty t then Some (trim t) else None
  | TextThrows | TextMissing => None
  end.

Lemma generateTextWithGemini_returns w prompt st :
  isConfigured w = true ->
  generateTextWithGemini w prompt st
  = (Returns (raw_text (text_provider w (text_calls st) prompt)), after_text prompt st).
Proof.
  intros Hc. unfold generateTextWithGemini. rewrite Hc. cbn [negb].
  service_unfold. cbn [text_calls].
  destruct (text_provider w (text_calls st) prompt) as [| |t]; reflexivity.
Qed.

(** The sections an attempt reads in a reply. *)
Definition reply_reading (w : world) (reply : text_reply) : sections_reading :=
  match raw_text reply with
  | Some rawText =>
      if nonempty rawText then read_sections (numbers w) (extractJson rawText)
      else NoSections
  | None => NoSections
  end.

(** The elements [parsed.sections.map] gets through.  [null] throws at the
    first property read.  An element without an assets hint (none, or
    [null]) has its title, when that is truthy, written into one: the
    callback throws when that title cannot be converted to a string. *)
Definition mapped (nm : numerics) (section : json) : bool :=
  match section with
  | JNull => false
  | JObj ms =>
      match nullish (lookup (utf16 "assetsHint") ms), lookup (utf16 "title") ms with
      | None, Some title =>
          negb (truthy nm title)
          || match ToString nm title with Some _ => true | None => false end
      | _, _ => true
      end
  | _ => true
  end.

(** The sections of a reply the attempt accepts: a non-empty array every
    element of which the callback gets through. *)
Definition accepted_items (w : world) (reply : text_reply) : option (list json) :=
  match reply_reading w reply with
  | Sections items => if forallb (mapped (numbers w)) items then Some items else None
  | NoSections | NotAnArray => None
  end.

(** The title of the outline made of a reply: [parsed.title ?? ...]. *)
Definition reply_title (request : GenerationRequest) (reply : text_reply) : json :=
  match raw_text reply with
  | Some rawText =>
      match extractJson rawText with
      | Some (JObj ms) =>
          match lookup (utf16 "title") ms with
          | Some JNull | None => JStr (defaultTitle request)
          | Some title => title
          end
      | _ => JStr (defaultTitle request)
      end
  | None => JStr (defaultTitle request)
  end.

Lemma text_calls_after_draws st n : text_calls (after_draws st n) = text_calls st.
Proof. reflexivity. Qed.

Lemma outlineSection_of_null w request index st :
  outlineSection w request JNull index st = (Throws TypeError, after_draws st 1).
Proof. reflexivity. Qed.

Lemma outlineSection_of_object w request ms index st :
  outlineSection w request (JObj ms) index st
  = match
      match nullish (lookup (utf16 "assetsHint") ms) with
      | Some v => Some v
      | None =>
          match ToString (numbers w)
                  (or_else (numbers w) (lookup (utf16 "title") ms) (JStr (topic request))) with
          | Some name => Some (JStr (utf16 "请准备与「" ++ name ++ utf16 "」相关的插图。"))
          | None => None
          end
      end
    with
    | Some assets =>
        (Returns
           {| os_id := uuid_source w (uuids st);
              os_title := or_else (numbers w) (lookup (utf16 "title") ms)
                            (JStr (utf16 "第 " ++ decimal (index + 1) ++ utf16 " 节"));
              os_summary := or_else (numbers w) (lookup (utf16 "summary") ms)
                              (JStr (utf16 "请补充该节课程摘要。"));
              os_interactionHint :=
                match nullish (lookup (utf16 "interactionHint") ms) with
                | Some v => Some v
                | None => option_map (fun t => JStr (type_name t))
                            (pickInteractionHint
                               match interactionTypes request with Some l => l | None => [] end
                               index)
                end;
              os_assetsHint := Some assets |}, after_draws st 1)
    | None => (Throws TypeError, after_draws st 1)
    end.
Proof.
  unfold outlineSection. cbv zeta. cbn [property].
  unfold bind at 1. unfold randomUUID at 1.
  unfold bind at 1. unfold ret at 1.
  unfold bind at 1. unfold ret at 1.
  unfold bind at 1. unfold ret at 1.
  unfold bind at 1. unfold ret at 1.
  unfold bind at 1.
  destruct (nullish (lookup (utf16 "assetsHint") ms)) as [v|]; [reflexivity|].
  destruct (ToString (numbers w) _) as [name|]; reflexivity.
Qed.

Lemma outlineSection_mapped w request section index st :
  if mapped (numbers w) section
  then exists s, outlineSection w request section index st = (Returns s, after_draws st 1)
  else outlineSection w request section index st = (Throws TypeError, after_draws st 1).
Proof.
  destruct section as [| b | lit | t | items | ms]; cbn [mapped];
    [reflexivity | eexists; reflexivity .. | ].
  rewrite outlineSection_of_object.
  destruct (nullish (lookup (utf16 "assetsHint") ms)) as [v|]; [eexists; reflexivity|].
  unfold or_else.
  destruct (lookup (utf16 "title") ms) as [title|]; [|eexists; reflexivity].
  destruct (truthy (numbers w) title); cbn [negb orb]; [|eexists; reflexivity].
  destruct (ToString (numbers w) title); [eexists; reflexivity|reflexivity].
Qed.

Lemma outline_sections_mapped w request items :
  forall index st,
    exists st', text_calls st' = text_calls st /\
      if forallb (mapped (numbers w)) items
      then exists ys, mapM_indexed (outlineSection w request) index items st = (Returns ys, st')
                      /\ List.length ys = List.length items
      else mapM_indexed (outlineSection w request) index items st = (Throws TypeError, st').
Proof.
  induction items as [|x items IH]; intros index st; cbn [forallb mapM_indexed].
  - exists st. split; [reflexivity|]. exists []. split; reflexivity.
  - pose proof (outlineSection_mapped w request x index st) as Hx.
    destruct (mapped (numbers w) x); cbn [andb].
    + destruct Hx as (s & Es).
      destruct (IH (S index) (after_draws st 1)) as (st' & Hc & H).
      exists st'. split; [now rewrite Hc|].
      erewrite bind_returns; [|exact Es].
      destruct (forallb (mapped (numbers w)) items).
      * destruct H as (ys & E & Hl). exists (s :: ys). split.
        -- erewrite bind_returns; [reflexivity|exact E].
        -- cbn. now rewrite Hl.
      * erewrite bind_throws; [reflexivity|exact H].
    + exists (after_draws st 1). split; [reflexivity|].
      erewrite bind_throws; [reflexivity|exact Hx].
Qed.

Lemma accepted_items_nonempty w reply items :
  accepted_items w reply = Some items -> 1 <= List.length items.
Proof.
  unfold accepted_items. intros Ea.
  destruct (reply_reading w reply) as [| |its] eqn:Er; try discriminate.
  destruct (forallb (mapped (numbers w)) its); [|discriminate]. injection Ea as <-.
  unfold reply_reading in Er.
  destruct (raw_text reply) as [t|]; [|discriminate].
  destruct (nonempty t); [|discriminate].
  unfold read_sections in Er.
  destruct (extractJson t) as [[]|]; try discriminate.
  destruct (lookup _ _) as [s|]; [|discriminate].
  destruct (negb (truthy (numbers w) s)); [discriminate|].
  destruct s as [| | | | [|x xs] | fields]; try discriminate.
  - injection Er as <-. cbn. lia.
  - destruct (lookup _ fields) as [[]|]; try discriminate.
    destruct (number_is_zero _ _); discriminate.
Qed.

(** One attempt with a credential: it never throws, it makes one request,
    and it returns an outline exactly when the reply has accepted sections:
    the outline then has as many, under the title of the reply. *)
Lemma outlineAttempt_returns w request prompt st :
  isConfigured w = true ->
  exists r st',
    outlineAttempt w request prompt st = (Returns r, st')
    /\ text_calls st' = S (text_calls st)
    /\ match accepted_items w (text_provider w (text_calls st) prompt) with
       | Some items =>
           exists o, r = Some o /\ List.length (co_sections o) = List.length items
                     /\ co_title o
                        = reply_title request (text_provider w (text_calls st) prompt)
       | None => r = None
       end.
Proof.
  intros Hc. unfold outlineAttempt, try_catch. unfold bind at 1.
  rewrite (generateTextWithGemini_returns _ _ _ Hc).
  unfold accepted_items, reply_reading, reply_title.
  destruct (raw_text (text_provider w (text_calls st) prompt)) as [rawText|].
  2:{ eexists _, _. split; [reflexivity|]. split; reflexivity. }
  destruct (nonempty rawText); cbn [negb].
  2:{ eexists _, _. split; [reflexivity|]. split; reflexivity. }
  destruct (read_sections (numbers w) (extractJson rawText)) as [| |items].
  1,2: eexists _, _; split; [reflexivity|]; split; reflexivity.
  destruct (outline_sections_mapped w request items 0 (after_draws (after_text prompt st) 1))
    as (st' & Hcalls & H).
  erewrite bind_returns; [|reflexivity].
  destruct (forallb (mapped (numbers w)) items).
  - destruct H as (ys & E & Hl). erewrite bind_returns; [|exact E].
    eexists _, _. split; [reflexivity|].
    split; [rewrite Hcalls; reflexivity|]. eexists. split; [reflexivity|].
    split; [exact Hl|]. cbn [co_title].
    destruct (extractJson rawText) as [[| | | | |ms]|]; try reflexivity.
    destruct (lookup (utf16 "title") ms) as [[]|]; reflexivity.
  - erewrite bind_throws; [|exact H]. eexists _, _. split; [reflexivity|].
    split; [|reflexivity]. rewrite Hcalls. reflexivity.
Qed.

(** The loop: it never throws, makes at most [remaining] requests, and an
    outline it returns has a section. *)
Lemma outlineAttempts_returns w request prompt remaining :
  isConfigured w = true ->
  forall st, exists r st',
    outlineAttempts w request prompt remaining st = (Returns r, st')
    /\ text_calls st' <= text_calls st + remaining
    /\ (forall o, r = Some o -> 1 <= List.length (co_sections o)).
Proof.
  intros Hc. induction remaining as [|k IH]; intros st; cbn [outlineAttempts].
  - exists None, st. split; [reflexivity|]. split; [lia|discriminate].
  - destruct (outlineAttempt_returns w request prompt st Hc) as (r & st1 & E & Hcalls & Hr).
    unfold bind at 1. rewrite E. destruct r as [o|].
    + exists (Some o), st1. split; [reflexivity|]. split; [lia|].
      intros o' [= <-].
      destruct (accepted_items w (text_provider w (text_calls st) prompt)) as [items|] eqn:Ea;
        [|discriminate].
      destruct Hr as (o' & [= <-] & Hl & _). rewrite Hl.
      eapply accepted_items_nonempty; eauto.
    + destruct (IH st1) as (r & st2 & E2 & Hc2 & Hr2).
      exists r, st2. split; [exact E2|]. split; [lia|exact Hr2].
Qed.

(** The loop, turn by turn: the first reply that is accepted makes the
    outline; when none of the [remaining] replies is, nothing is returned. *)
Lemma outlineAttempts_first_accepted w request prompt remaining :
  isConfigured w = true ->
  forall st, exists r st',
    outlineAttempts w request prompt remaining st = (Returns r, st')
    /\ ((forall k, k < remaining ->
           accepted_items w (text_provider w (text_calls st + k) prompt) = None) ->
        r = None)
    /\ (forall turn items,
          turn < remaining ->
          (forall k, k < turn ->
             accepted_items w (text_provider w (text_calls st + k) prompt) = None) ->
          accepted_items w (text_provider w (text_calls st + turn) prompt) = Some items ->
          exists o, r = Some o /\ List.length (co_sections o) = List.length items
                    /\ co_title o
                       = reply_title request (text_provider w (text_calls st + turn) prompt)).
Proof.
  intros Hc. induction remaining as [|n IH]; intros st; cbn [outlineAttempts].
  - exists None, st. split; [reflexivity|]. split; [reflexivity|]. intros turn items H. lia.
  - destruct (outlineAttempt_returns w request prompt st Hc) as (r & st1 & E & Hcalls & Hr).
    unfold bind at 1. rewrite E.
    destruct (accepted_items w (text_provider w (text_calls st) prompt)) as [its|] eqn:Ea.
    + destruct Hr as (o & -> & Hl & Ht).
      exists (Some o), st1. split; [reflexivity|]. split.
      * intros Hall. specialize (Hall 0 ltac:(lia)). rewrite Nat.add_0_r in Hall. congruence.
      * intros turn items Hlt Hbefore Hacc. destruct turn as [|turn].
        -- rewrite Nat.add_0_r in Hacc |- *. exists o. split; [reflexivity|].
           split; [congruence|exact Ht].
        -- specialize (Hbefore 0 ltac:(lia)). rewrite Nat.add_0_r in Hbefore. congruence.
    + subst r. destruct (IH st1) as (r & st2 & E2 & Hnone & Hsome).
      exists r, st2. split; [exact E2|]. rewrite Hcalls in Hnone, Hsome. split.
      * intros Hall. apply Hnone. intros k Hk.
        replace (S (text_calls st) + k) with (text_calls st + S k) by lia.
        apply Hall. lia.
      * intros turn items Hlt Hbefore Hacc. destruct turn as [|turn].
        -- rewrite Nat.add_0_r in Hacc. congruence.
        -- replace (text_calls st + S turn) with (S (text_calls st) + turn) in * by lia.
           apply Hsome; [lia| |exact Hacc].
           intros k Hk. replace (S (text_calls st) + k) with (text_calls st + S k) by lia.
           apply Hbefore. lia.
Qed.

(** The loop when no reply is accepted: every turn is taken, and nothing
    is returned. *)
Lemma outlineAttempts_exhausted w request prompt remaining :
  isConfigured w = true ->
  (forall k, accepted_items w (text_provider w k prompt) = None) ->
  forall st, exists st',
    outlineAttempts w request prompt remaining st = (Returns None, st')
    /\ text_calls st' = text_calls st + remaining.
Proof.
  intros Hc Hno. induction remaining as [|k IH]; intros st; cbn [outlineAttempts].
  - exists st. split; [reflexivity|lia].
  - destruct (outlineAttempt_returns w request prompt st Hc) as (r & st1 & E & Hcalls & Hr).
    rewrite Hno in Hr. subst r. unfold bind at 1. rewrite E.
    destruct (IH st1) as (st2 & E2 & Hc2). exists st2. split; [exact E2|lia].
Qed.

Definition fallback_titles : list json :=
  [ JStr (utf16 "第一节：主题导入");
    JStr (utf16 "第二节：核心内容讲解");
    JStr (utf16 "第三节：总结与拓展") ].

(** The fallback skeleton: the three fixed sections under the title made of
    the topic. *)
Definition is_fallback (request : GenerationRequest) (o : CourseOutline json) : Prop :=
  co_title o = JStr (topic request ++ utf16 " 互动课件")
  /\ map (@os_title json) (co_sections o) = fallback_titles.

Lemma fallback_returned w request st :
  forall st0, generateOutlineWithGemini w request st = (Returns None, st0) ->
  exists o st', generateOutline w request st = (Returns o, st')
    /\ is_fallback request o /\ text_calls st' = text_calls st0.
Proof.
  intros st0 E. unfold generateOutline. unfold bind at 1. rewrite E.
  eexists _, _. split; [reflexivity|]. split; [split; reflexivity|reflexivity].
Qed.

Lemma fallback_is_well_formed request o :
  is_fallback request o ->
  List.length (co_sections o) = 3
  /\ exists t, co_title o = JStr t /\ t <> [].
Proof.
  intros [Ht Hs]. split.
  - rewrite <- (length_map (@os_title json)), Hs. reflexivity.
  - eexists. split; [exact Ht|]. intros H. apply app_eq_nil in H. destruct H as [_ H].
    discriminate H.
Qed.

(** What the specification asks of an outline. *)
Definition three_sections_and_a_title (o : CourseOutline json) : Prop :=
  3 <= List.length (co_sections o)
  /\ exists t, co_title o = JStr t /\ t <> [].

Lemma generateOutlineWithGemini_unconfigured w request st :
  isConfigured w = false -> generateOutlineWithGemini w request st = (Returns None, st).
Proof. intros H. unfold generateOutlineWithGemini. now rewrite H. Qed.

Lemma generateOutlineWithGemini_configured w request st :
  isConfigured w = true ->
  generateOutlineWithGemini w request st
  = outlineAttempts w request (buildOutlinePrompt request) 3 st.
Proof. intros H. unfold generateOutlineWithGemini. now rewrite H. Qed.

Lemma generateOutline_of_outline w request st o st1 :
  generateOutlineWithGemini w request st = (Returns (Some o), st1) ->
  generateOutline w request st = (Returns o, st1).
Proof. intros E. unfold generateOutline, bind. now rewrite E. Qed.

(** The replies the specification calls unusable: the provider's call
    fails; no JSON object is extracted; the object has an empty array of
    sections. *)
Definition unusable (reply : text_reply) : Prop :=
  reply = TextThrows
  \/ (exists t, reply = TextIs t /\ extractJson (trim t) = None)
  \/ (exists t ms, reply = TextIs t /\ extractJson (trim t) = Some (JObj ms)
                   /\ lookup (utf16 "sections") ms = Some (JArr [])).

Lemma unusable_not_accepted w reply : unusable reply -> accepted_items w reply = None.
Proof.
  unfold accepted_items, reply_reading.
  intros [-> | [(t & -> & E) | (t & ms & -> & E & Hs)]]; cbn [raw_text]; try reflexivity.
  - destruct (nonempty t); [|reflexivity]. rewrite E. now destruct (nonempty (trim t)).
  - destruct (nonempty t); [|reflexivity]. rewrite E. cbn [read_sections]. rewrite Hs.
    now destruct (nonempty (trim t)).
Qed.

(** C3. One call of [generateOutline] never throws and asks the text
    provider at most 3 times (not at all without a credential, exactly 3
    times when no reply is accepted).  A turn of the loop whose reply is
    unusable, a failure of the provider's call included, makes one request
    and leaves the rest of the loop to the turns that remain. *)
Theorem at_most_three_text_requests :
  forall w request st,
    let prompt := buildOutlinePrompt request in
    (exists o st',
       generateOutline w request st = (Returns o, st')
       /\ text_calls st' <= text_calls st + 3
       /\ (isConfigured w = false -> text_calls st' = text_calls st)
       /\ (isConfigured w = true ->
           (forall k, unusable (text_provider w k prompt)) ->
           text_calls st' = text_calls st + 3))
    /\ (forall remaining st0,
          isConfigured w = true ->
          unusable (text_provider w (text_calls st0) prompt) ->
          exists st1,
            text_calls st1 = S (text_calls st0)
            /\ outlineAttempts w request prompt (S remaining) st0
               = outlineAttempts w request prompt remaining st1).
Proof.
  intros w request st prompt. subst prompt. set (prompt := buildOutlinePrompt request).
  pose proof (generateOutlineWithGemini_configured w request st) as Hloop. fold prompt in Hloop.
  split.
  - destruct (isConfigured w) eqn:Hc.
    + destruct (outlineAttempts_returns w request prompt 3 Hc st) as (r & st1 & E & Hb & _).
      rewrite <- (Hloop eq_refl) in E.
      destruct r as [o|].
      * exists o, st1. split; [now apply generateOutline_of_outline|].
        split; [exact Hb|]. split; [discriminate|]. intros _ Hall.
        destruct (outlineAttempts_exhausted w request prompt 3 Hc
                    (fun k => unusable_not_accepted w (Hall k)) st) as (st2 & E2 & _).
        rewrite <- (Hloop eq_refl) in E2.
        congruence.
      * destruct (fallback_returned w request st E) as (o & st' & Eo & _ & Hcalls).
        exists o, st'. split; [exact Eo|]. rewrite Hcalls.
        split; [exact Hb|]. split; [discriminate|]. intros _ Hall.
        destruct (outlineAttempts_exhausted w request prompt 3 Hc
                    (fun k => unusable_not_accepted w (Hall k)) st) as (st2 & E2 & H2).
        rewrite <- (Hloop eq_refl) in E2.
        congruence.
    + pose proof (generateOutlineWithGemini_unconfigured w request st Hc) as E.
      destruct (fallback_returned w request st E) as (o & st' & Eo & _ & Hcalls).
      exists o, st'. split; [exact Eo|]. rewrite Hcalls.
      split; [lia|]. split; [reflexivity|discriminate].
  - intros remaining st0 Hc Hu.
    destruct (outlineAttempt_returns w request prompt st0 Hc) as (r & st1 & E & Hcalls & Hr).
    rewrite (unusable_not_accepted w Hu) in Hr. subst r.
    exists st1. split; [exact Hcalls|].
    cbn [outlineAttempts]. unfold bind at 1. now rewrite E.
Qed.

(** C2, as the code has it.  [generateOutline] always returns an outline
    with at least one section.  Without a credential, and when none of the
    three replies is accepted, it is the fallback skeleton: exactly three
    sections under the title made of the topic, which is not empty.
    Otherwise the first reply that is accepted makes the outline: it has as
    many sections as the reply lists, and its title is the title of the
    reply when that is present and not [null] (be it empty, or no string),
    the title made of the topic when it is not. *)
Theorem outline_has_a_section :
  forall w request st,
    let prompt := buildOutlinePrompt request in
    let reply := fun k => text_provider w (text_calls st + k) prompt in
    exists o st',
      generateOutline w request st = (Returns o, st')
      /\ 1 <= List.length (co_sections o)
      /\ (isConfigured w = false -> is_fallback request o)
      /\ ((forall k, k < 3 -> accepted_items w (reply k) = None) -> is_fallback request o)
      /\ (is_fallback request o ->
          List.length (co_sections o) = 3 /\ three_sections_and_a_title o)
      /\ (forall turn items,
            isConfigured w = true ->
            turn < 3 ->
            (forall k, k < turn -> accepted_items w (reply k) = None) ->
            accepted_items w (reply turn) = Some items ->
            List.length (co_sections o) = List.length items
            /\ co_title o = reply_title request (reply turn)).
Proof.
  intros w request st prompt reply. subst prompt reply.
  set (prompt := buildOutlinePrompt request).
  pose proof (generateOutlineWithGemini_configured w request st) as Hloop. fold prompt in Hloop.
  assert (Hwf : forall o, is_fallback request o ->
                  List.length (co_sections o) = 3 /\ three_sections_and_a_title o).
  { intros o Ho. destruct (fallback_is_well_formed Ho) as [Hl Ht].
    split; [exact Hl|]. split; [rewrite Hl; lia | exact Ht]. }
  assert (Hlen : forall o, is_fallback request o -> 1 <= List.length (co_sections o)).
  { intros o Ho. destruct (fallback_is_well_formed Ho) as [Hl _]. rewrite Hl. lia. }
  destruct (isConfigured w) eqn:Hc.
  - destruct (outlineAttempts_first_accepted w request prompt 3 Hc st)
      as (r & st1 & E & Hnone & Hsome).
    rewrite <- (Hloop eq_refl) in E.
    destruct r as [o|].
    + exists o, st1. split; [now apply generateOutline_of_outline|].
      destruct (outlineAttempts_returns w request prompt 3 Hc st) as (r' & st1' & E' & _ & Hr).
      rewrite <- (Hloop eq_refl) in E'. rewrite E in E'. injection E' as <- <-.
      split; [now apply Hr|]. split; [discriminate|]. split; [|split; [apply Hwf|]].
      * intros Hall. specialize (Hnone Hall). discriminate Hnone.
      * intros turn items _ Hlt Hbefore Hacc.
        destruct (Hsome turn items Hlt Hbefore Hacc) as (o' & [= <-] & Hl & Ht).
        split; [exact Hl|exact Ht].
    + destruct (fallback_returned w request st E) as (o & st' & Eo & Hf & _).
      exists o, st'. split; [exact Eo|]. split; [now apply Hlen|].
      split; [discriminate|]. split; [intros _; exact Hf|]. split; [apply Hwf|].
      intros turn items _ Hlt Hbefore Hacc.
      destruct (Hsome turn items Hlt Hbefore Hacc) as (o' & Ho' & _). discriminate Ho'.
  - pose proof (generateOutlineWithGemini_unconfigured w request st Hc) as E.
    destruct (fallback_returned w request st E) as (o & st' & Eo & Hf & _).
    exists o, st'. split; [exact Eo|]. split; [now apply Hlen|].
    split; [intros _; exact Hf|]. split; [intros _; exact Hf|]. split; [apply Hwf|].
    discriminate.
Qed.

(** ** Worlds and requests of the examples *)

(** A reading of number literals for the examples (none of which holds a
    number): a literal is zero when every digit of its mantissa is 0, and it
    prints as it is written. *)
Definition mantissa_is_zero (lit : jsstring) : bool :=
  (fix go (s : jsstring) : bool :=
     match s with
     | [] => true
     | c :: s' =>
         if ((c =? 101) || (c =? 69))%N then true
         else (negb (is_digit c) || (c =? 48)%N) && go s'
     end) lit.

Definition canonical_literals : numerics :=
  {| number_is_zero := mantissa_is_zero; NumberToString := fun lit => lit |}.

Definition numbered_ids (k : nat) : jsstring := utf16 "id-" ++ decimal k.

Definition photosynthesis : GenerationRequest :=
  {| topic := utf16 "Photosynthesis"; audience := utf16 "Grade 5"; objectives := None;
     interactionTypes := Some [single]; tone := None; imageStyle := None;
     constraints := None |}.

(** No credential. *)
Definition no_credential : world :=
  {| apiKey := None;
     text_provider := fun _ _ => TextThrows;
     image_provider := fun _ _ => ImageThrows;
     uuid_source := numbered_ids;
     clock := utf16 "2024-01-01T00:00:00.000Z";
     numbers := canonical_literals |}.

(** A credential, and a provider every call of which fails. *)
Definition failing_provider : world :=
  {| apiKey := Some (utf16 "key");
     text_provider := fun _ _ => TextThrows;
     image_provider := fun _ _ => ImageThrows;
     uuid_source := numbered_ids;
     clock := utf16 "2024-01-01T00:00:00.000Z";
     numbers := canonical_literals |}.

Definition one_section_reply : jsstring :=
  quoted "{'title':'','sections':[{'title':'a','summary':'b'}]}".

(** A provider that answers with one section and an empty title, and that
    returns the image data [QUJD]. *)
Definition terse_provider : world :=
  {| apiKey := Some (utf16 "key");
     text_provider := fun _ _ => TextIs one_section_reply;
     image_provider := fun _ _ => ImageData (utf16 "QUJD");
     uuid_source := numbered_ids;
     clock := utf16 "2024-01-01T00:00:00.000Z";
     numbers := canonical_literals |}.

(** C2 fails as the specification states it: the outline made of a reply
    that lists one section, under an empty title, has one section and an
    empty title. *)
Lemma one_section_outline_is_returned :
  exists o st',
    generateOutline terse_provider photosynthesis start = (Returns o, st')
    /\ List.length (co_sections o) = 1
    /\ co_title o = JStr []
    /\ ~ three_sections_and_a_title o.
Proof.
  eexists _, _. split; [vm_compute; reflexivity|].
  split; [reflexivity|]. split; [reflexivity|].
  intros [H _]. cbn in H. lia.
Qed.

Lemma outline_has_a_section_witness :
  exists o st',
    generateOutline no_credential photosynthesis start = (Returns o, st')
    /\ three_sections_and_a_title o.
Proof.
  destruct (outline_has_a_section no_credential photosynthesis start)
    as (o & st' & E & _ & Hf & _ & Hwf & _).
  exists o, st'. split; [exact E|]. apply (proj2 (Hwf (Hf eq_refl))).
Defined.

Definition unconvertible_reply : jsstring :=
  quoted "{'title':'Leaves','sections':[{'title':{'toString':1},'summary':'b'}]}".

(** A provider whose reply lists a section with a title that cannot be
    converted to a string. *)
Definition stubborn_provider : world :=
  {| apiKey := Some (utf16 "key");
     text_provider := fun _ _ => TextIs unconvertible_reply;
     image_provider := fun _ _ => ImageThrows;
     uuid_source := numbered_ids;
     clock := utf16 "2024-01-01T00:00:00.000Z";
     numbers := canonical_literals |}.

(** Such a reply is not accepted: the template literal of the assets hint
    throws in each of the three turns, and the fallback is returned. *)
Lemma unconvertible_title_gives_the_fallback :
  accepted_items stubborn_provider (TextIs unconvertible_reply) = None
  /\ exists o st',
       generateOutline stubborn_provider photosynthesis start = (Returns o, st')
       /\ is_fallback photosynthesis o
       /\ text_calls st' = 3.
Proof.
  split; [vm_compute; reflexivity|].
  eexists _, _. split; [vm_compute; reflexivity|].
  split; [split; vm_compute; reflexivity|reflexivity].
Qed.

Lemma at_most_three_text_requests_witness :
  exists o st',
    generateOutline failing_provider photosynthesis start = (Returns o, st')
    /\ text_calls st' = 3.
Proof.
  destruct (at_most_three_text_requests failing_provider photosynthesis start)
    as [(o & st' & E & _ & _ & Hall) _].
  exists o, st'. split; [exact E|].
  apply Hall; [reflexivity|]. intros k. left. reflexivity.
Defined.

Definition leaf_section : OutlineSection jsstring :=
  {| os_id := utf16 "s-1"; os_title := utf16 "Leaves"; os_summary := utf16 "Leaves make sugar.";
     os_interactionHint := Some (utf16 "multi"); os_assetsHint := Some (utf16 "a green leaf") |}.

Definition leaf_outline (hint : option jsstring) : CourseOutline jsstring :=
  {| co_id := utf16 "o-1"; co_title := utf16 "Photosynthesis";
     co_sections :=
       [ {| os_id := utf16 "s-1"; os_title := utf16 "Leaves";
            os_summary := utf16 "Leaves make sugar."; os_interactionHint := hint;
            os_assetsHint := Some (utf16 "a green leaf") |} ] |}.

Lemma interaction_blocks_are_consistent_witness :
  exists b st',
    buildInteraction no_credential leaf_section 1 [single; multi; truefalse] start
    = (Returns (Some b), st')
    /\ block_invariant b.
Proof.
  destruct (interaction_blocks_are_consistent no_credential leaf_section 1
              [single; multi; truefalse] start) as (r & st' & E & _ & Hsome & Hinv).
  destruct (Hsome ltac:(discriminate)) as (b & ->).
  exists b, st'. split; [exact E|]. apply Hinv. reflexivity.
Defined.

Lemma open_is_built_as_single_witness :
  exists b st',
    buildInteraction no_credential leaf_section 3 [single; open] start
    = (Returns (Some b), st')
    /\ ib_type b = single /\ points (scoring b) = 10.
Proof.
  destruct (open_is_built_as_single no_credential leaf_section 3 [single; open] start
              eq_refl) as (b & st' & E & Ht & _ & _ & Hp).
  exists b, st'. split; [exact E|]. split; [exact Ht|exact Hp].
Defined.

Definition leaf_payload (hint : option jsstring) : CoursewareBuildRequest :=
  {| outline := leaf_outline hint; request := photosynthesis |}.

Lemma image_url_witness :
  exists cs st',
    coursewareSection terse_provider (leaf_payload None) leaf_section 0 start
    = (Returns cs, st')
    /\ img_url (cs_image cs) = utf16 "data:image/png;base64," ++ utf16 "QUJD".
Proof.
  destruct (image_url_is_placeholder_or_data_uri terse_provider (leaf_payload None)
              leaf_section 0 start) as (cs & st' & E & _ & _ & Hdata).
  exists cs, st'. split; [exact E|].
  apply Hdata; [reflexivity | reflexivity | discriminate].
Defined.

Lemma interaction_hints_witness :
  generateCourseware [] [] no_credential (leaf_payload (Some (utf16 "multi"))) start
  = generateCourseware [] [] no_credential (leaf_payload (Some (utf16 "truefalse"))) start.
Proof.
  apply (interaction_hints_have_no_influence [] [] no_credential
           (leaf_payload (Some (utf16 "multi"))) (leaf_payload (Some (utf16 "truefalse")))
           start); reflexivity.
Defined.

(** ** The JSON extractor *)

(** The algorithm in the specification's words.  A fenced block labeled as
    JSON opens with three backquotes and the label (in either case); its
    contents start after the white space that follows the label and run to
    the next three backquotes. *)
Definition fence : jsstring := utf16 "```".

Fixpoint until_fence (s : jsstring) : option (jsstring * jsstring) :=
  if starts_with fence s then Some ([], skipn 3 s)
  else
    match s with
    | [] => None
    | c :: s' =>
        match until_fence s' with
        | Some (body, rest) => Some (c :: body, rest)
        | None => None
        end
    end.

(** [s] starts with [t], letters compared in either case. *)
Fixpoint starts_with_ci (t s : jsstring) : bool :=
  match t, s with
  | [], _ => true
  | x :: t', y :: s' => Regex.same_letter x y && starts_with_ci t' s'
  | _ :: _, [] => false
  end.

Definition block_at (s : jsstring) : option (jsstring * jsstring) :=
  if starts_with_ci (utf16 "```json") s then until_fence (trimStart (skipn 7 s))
  else None.

(** The contents of the first fenced block labeled as JSON. *)
Fixpoint fenced_block (s : jsstring) : option jsstring :=
  match block_at s with
  | Some (body, _) => Some body
  | None =>
      match s with
      | [] => None
      | _ :: s' => fenced_block s'
      end
  end.

Definition search_window (input : jsstring) : jsstring :=
  match fenced_block input with
  | Some contents => contents
  | None => input
  end.

Lemma match_text t p s :
  Regex.match_here (Regex.text t ++ p) s
  = if starts_with_ci t s then Regex.match_here p (skipn (List.length t) s) else None.
Proof.
  revert s. induction t as [|x t IH]; intros s; [reflexivity|].
  cbn [Regex.text map app Regex.match_here starts_with_ci List.length skipn].
  destruct s as [|y s]; [reflexivity|]. cbn [Regex.accepts skipn].
  destruct (Regex.same_letter x y); [apply IH|reflexivity].
Qed.

Lemma same_letter_backquote y : Regex.same_letter 96%N y = (96 =? y)%N.
Proof.
  unfold Regex.same_letter, Regex.canonicalize.
  change ((97 <=? 96)%N && (96 <=? 122)%N) with false. cbv iota.
  destruct ((97 <=? y)%N && (y <=? 122)%N) eqn:E.
  - apply andb_prop in E. destruct E as [E1 E2].
    apply N.leb_le in E1, E2.
    transitivity false; [apply N.eqb_neq; lia | symmetry; apply N.eqb_neq; lia].
  - reflexivity.
Qed.

Lemma fence_units : fence = [96; 96; 96]%N.
Proof. vm_compute. reflexivity. Qed.

Lemma starts_with_ci_fence s : starts_with_ci fence s = starts_with fence s.
Proof.
  rewrite fence_units.
  destruct s as [|a [|b [|c s]]]; cbn [starts_with_ci starts_with];
    rewrite ?same_letter_backquote; reflexivity.
Qed.

(** The closing fence, as the matcher reads it. *)
Definition closing (s : jsstring) : option Regex.result :=
  Regex.match_here (Regex.text fence) s.

Lemma closing_spec s :
  closing s = if starts_with fence s then Some ([], skipn 3 s) else None.
Proof.
  unfold closing. rewrite <- (app_nil_r (Regex.text fence)), match_text.
  rewrite starts_with_ci_fence, fence_units. reflexivity.
Qed.

Lemma lazy_capture_until_fence s :
  Regex.lazy_star true Regex.AnyUnit closing s = until_fence s.
Proof.
  induction s as [|c s IH]; cbn [Regex.lazy_star until_fence]; rewrite closing_spec.
  - destruct (starts_with fence []); reflexivity.
  - destruct (starts_with fence (c :: s)); [reflexivity|].
    cbn [Regex.accepts]. rewrite IH. destruct (until_fence s) as [[body rest]|]; reflexivity.
Qed.

Lemma whitespace_is_no_backquote c : is_whitespace c = true -> (96 =? c)%N = false.
Proof.
  intros H. apply N.eqb_neq. intros <-. vm_compute in H. discriminate.
Qed.

Lemma until_fence_after_space c s :
  is_whitespace c = true -> until_fence s = None -> until_fence (c :: s) = None.
Proof.
  intros Hc Hs. cbn [until_fence]. rewrite Hs, fence_units.
  cbn [starts_with]. rewrite (whitespace_is_no_backquote _ Hc). reflexivity.
Qed.

Lemma until_fence_trimStart s : until_fence (trimStart s) = None -> until_fence s = None.
Proof.
  induction s as [|c s IH]; cbn [trimStart]; [auto|].
  destruct (is_whitespace c) eqn:Hc; [|auto].
  intros H. apply until_fence_after_space; auto.
Qed.

(** [\s*] before the group: the group starts after all the white space. *)
Lemma greedy_space_then_capture s :
  Regex.greedy_star Regex.Space until_fence s = until_fence (trimStart s).
Proof.
  induction s as [|c s IH]; cbn [Regex.greedy_star trimStart Regex.accepts]; [reflexivity|].
  destruct (is_whitespace c) eqn:Hc; [|reflexivity].
  rewrite IH. destruct (until_fence (trimStart s)) eqn:E; [reflexivity|].
  apply until_fence_after_space; [exact Hc|]. now apply until_fence_trimStart.
Qed.

Lemma greedy_star_ext k f g s :
  (forall x, f x = g x) -> Regex.greedy_star k f s = Regex.greedy_star k g s.
Proof.
  intros H. induction s as [|c s IH]; cbn [Regex.greedy_star]; [apply H|].
  rewrite IH, H. reflexivity.
Qed.

Lemma lazy_star_ext b k f g s :
  (forall x, f x = g x) -> Regex.lazy_star b k f s = Regex.lazy_star b k g s.
Proof.
  intros H. induction s as [|c s IH]; cbn [Regex.lazy_star]; rewrite H; [reflexivity|].
  rewrite IH. reflexivity.
Qed.

Lemma jsonFence_here s : Regex.match_here jsonFence s = block_at s.
Proof.
  unfold jsonFence, block_at. rewrite match_text.
  change (List.length (utf16 "```json")) with 7.
  destruct (starts_with_ci (utf16 "```json") s); [|reflexivity].
  cbn [app Regex.match_here].
  rewrite <- greedy_space_then_capture. apply greedy_star_ext. intros x.
  rewrite <- lazy_capture_until_fence. apply lazy_star_ext. intros y. reflexivity.
Qed.

(** The pattern of the source finds the block the specification describes. *)
Lemma first_match_jsonFence s : Regex.first_match jsonFence s = fenced_block s.
Proof.
  induction s as [|c s IH]; cbn [Regex.first_match fenced_block]; rewrite jsonFence_here.
  - destruct (block_at []) as [[g r]|]; reflexivity.
  - destruct (block_at (c :: s)) as [[g r]|]; [reflexivity|exact IH].
Qed.

Lemma indexOf_none c s : indexOf c s = None <-> ~ In c s.
Proof.
  induction s as [|x s IH]; cbn [indexOf In]; [tauto|].
  destruct (N.eqb_spec x c) as [->|Hne].
  - split; [discriminate|]. intros H. exfalso. apply H. now left.
  - destruct (indexOf c s) as [n|]; cbn [option_map].
    + split; [discriminate|]. intros H.
      assert (E : Some n = None) by (apply IH; intros Hin; apply H; now right).
      discriminate E.
    + split; [|reflexivity]. intros _ [E|Hin]; [congruence|]. now apply IH.
Qed.

Lemma indexOf_first c a rest : ~ In c a -> indexOf c (a ++ c :: rest) = Some (List.length a).
Proof.
  induction a as [|x a IH]; intros H; cbn [app indexOf List.length].
  - now rewrite N.eqb_refl.
  - destruct (N.eqb_spec x c) as [->|_]; [exfalso; apply H; now left|].
    rewrite IH; [reflexivity|]. intros Hin. apply H. now right.
Qed.

Lemma indexOf_skipn c s i : indexOf c s = Some i -> exists rest, skipn i s = c :: rest.
Proof.
  revert i. induction s as [|x s IH]; intros i H; [discriminate|]. cbn [indexOf] in H.
  destruct (N.eqb_spec x c) as [->|_].
  - injection H as <-. cbn. eauto.
  - destruct (indexOf c s) as [i'|]; [|discriminate]. injection H as <-.
    cbn [skipn]. now apply IH.
Qed.

Lemma lastIndexOf_none c s : lastIndexOf c s = None <-> ~ In c s.
Proof.
  induction s as [|x s IH]; cbn [lastIndexOf In]; [tauto|].
  destruct (lastIndexOf c s) as [n|].
  - split; [discriminate|]. intros H.
    assert (E : Some n = None) by (apply IH; intros Hin; apply H; now right).
    discriminate E.
  - destruct (N.eqb_spec x c) as [->|Hne].
    + split; [discriminate|]. intros H. exfalso. apply H. now left.
    + split; [|reflexivity]. intros _ [E|Hin]; [congruence|]. now apply IH.
Qed.

Lemma lastIndexOf_last c a rest :
  ~ In c rest -> lastIndexOf c (a ++ c :: rest) = Some (List.length a).
Proof.
  intros H. induction a as [|x a IH]; cbn [app lastIndexOf List.length].
  - apply lastIndexOf_none in H. now rewrite H, N.eqb_refl.
  - now rewrite IH.
Qed.

Lemma slice_middle (a m b : jsstring) :
  slice (List.length a) (List.length a + List.length m) (a ++ m ++ b) = m.
Proof.
  unfold slice. rewrite skipn_app, skipn_all, Nat.sub_diag. cbn [app skipn].
  replace (List.length a + List.length m - List.length a) with (List.length m) by lia.
  rewrite firstn_app, firstn_all, Nat.sub_diag. cbn [firstn]. apply app_nil_r.
Qed.

Lemma first_to_last (a m b : jsstring) :
  ~ In 123%N a -> ~ In 125%N b ->
  exists i j,
    indexOf 123%N (a ++ 123%N :: m ++ 125%N :: b) = Some i
    /\ lastIndexOf 125%N (a ++ 123%N :: m ++ 125%N :: b) = Some j
    /\ slice i (j + 1) (a ++ 123%N :: m ++ 125%N :: b) = 123%N :: m ++ [125%N].
Proof.
  intros Ha Hb. exists (List.length a), (List.length (a ++ 123%N :: m)).
  split; [|split].
  - now apply indexOf_first.
  - change (a ++ 123%N :: m ++ 125%N :: b) with (a ++ (123%N :: m) ++ 125%N :: b).
    rewrite app_assoc. now apply lastIndexOf_last.
  - replace (List.length (a ++ 123%N :: m) + 1)
      with (List.length a + List.length (123%N :: m ++ [125%N]))
      by (rewrite !length_app; cbn [List.length]; rewrite length_app; cbn [List.length]; lia).
    replace (a ++ 123%N :: m ++ 125%N :: b) with (a ++ (123%N :: m ++ [125%N]) ++ b).
    + apply slice_middle.
    + cbn [app]. now rewrite <- app_assoc.
Qed.

Lemma parse_value_of_brace fuel s v rest :
  parse_value fuel (123%N :: s) = Some (v, rest) -> exists ms, v = JObj ms.
Proof.
  destruct fuel as [|fuel]; [discriminate|].
  cbn [parse_value].
  change (skip_ws (123%N :: s)) with (123%N :: s). cbv iota.
  rewrite N.eqb_refl.
  destruct (skip_ws s) as [|c' r']; [discriminate|].
  destruct (c' =? 125)%N.
  - intros [= <- _]. eauto.
  - destruct (parse_members fuel s) as [[ms r]|]; [|discriminate].
    intros [= <- _]. eauto.
Qed.

Lemma JSON_parse_of_brace s v : JSON_parse (123%N :: s) = Some v -> exists ms, v = JObj ms.
Proof.
  unfold JSON_parse.
  destruct (parse_value _ (123%N :: s)) as [[v0 rest]|] eqn:E; [|discriminate].
  destruct (skip_ws rest); [|discriminate]. intros [= <-].
  eapply parse_value_of_brace; eauto.
Qed.

Lemma extractJson_window input :
  extractJson input
  = match indexOf 123%N (search_window input), lastIndexOf 125%N (search_window input) with
    | Some i, Some j => JSON_parse (slice i (j + 1) (search_window input))
    | _, _ => None
    end.
Proof.
  unfold extractJson, search_window. rewrite first_match_jsonFence.
  destruct input as [|c input]; reflexivity.
Qed.

(** C4. [extractJson] searches the contents of the first fenced block
    labeled as JSON when the text has one, the whole text otherwise.  It
    returns nothing when that window lacks an opening or a closing brace;
    when the first opening brace comes before the last closing brace, it
    returns what [JSON.parse] makes of the text from the one to the other,
    both included (nothing when the parse fails); it returns nothing when
    every opening brace comes after the last closing one.  What it returns
    is an object. *)
Theorem extractJson_follows_the_algorithm :
  forall input,
    let window := search_window input in
    (~ In 123%N window \/ ~ In 125%N window -> extractJson input = None)
    /\ (forall before middle after : jsstring,
          window = before ++ [123%N] ++ middle ++ [125%N] ++ after ->
          ~ In 123%N before -> ~ In 125%N after ->
          extractJson input = JSON_parse ([123%N] ++ middle ++ [125%N]))
    /\ (forall before after : jsstring,
          window = before ++ [125%N] ++ after ->
          ~ In 123%N before -> ~ In 125%N after ->
          extractJson input = None)
    /\ (forall v, extractJson input = Some v -> exists members, v = JObj members).
Proof.
  intros input window. rewrite extractJson_window. fold window.
  split; [|split; [|split]].
  - intros [H|H].
    + apply indexOf_none in H. now rewrite H.
    + apply lastIndexOf_none in H. rewrite H. now destruct (indexOf _ _).
  - intros a m b E Ha Hb. rewrite E. cbn [app].
    destruct (@first_to_last a m b Ha Hb) as (i & j & -> & -> & ->). reflexivity.
  - intros a b E Ha Hb. rewrite E. cbn [app]. rewrite lastIndexOf_last by exact Hb.
    destruct (indexOf 123%N (a ++ 125%N :: b)) as [i|] eqn:Ei; [|reflexivity].
    assert (Hi : List.length a < i).
    { clear - Ei Ha. revert i Ei. induction a as [|x a IH]; intros i Ei; cbn in Ei.
      - destruct (indexOf 123%N b); [|discriminate]. injection Ei as <-. cbn. lia.
      - destruct (N.eqb_spec x 123%N) as [->|_]; [exfalso; apply Ha; now left|].
        destruct (indexOf 123%N (a ++ 125%N :: b)) as [i'|] eqn:E'; [|discriminate].
        injection Ei as <-. cbn. apply -> Nat.succ_lt_mono. apply IH; [|reflexivity].
        intros Hin. apply Ha. now right. }
    unfold slice. replace (List.length a + 1 - i) with 0 by lia. reflexivity.
  - destruct (indexOf 123%N window) as [i|] eqn:Ei; [|discriminate].
    destruct (lastIndexOf 125%N window) as [j|]; [|discriminate].
    intros v Hv.
    assert (Hs : slice i (j + 1) window = [] \/ exists s, slice i (j + 1) window = 123%N :: s).
    { destruct (indexOf_skipn _ _ Ei) as (s & Es). unfold slice. rewrite Es.
      destruct (j + 1 - i); cbn [firstn]; eauto. }
    destruct Hs as [Hs|(s & Hs)]; rewrite Hs in Hv.
    + discriminate Hv.
    + now apply JSON_parse_of_brace in Hv.
Qed.

Lemma extractJson_witness :
  extractJson (quoted "noise ```json
{'a':1}
``` noise") = Some (JObj [(utf16 "a", JNum (utf16 "1"))]).
Proof.
  destruct (extractJson_follows_the_algorithm (quoted "noise ```json
{'a':1}
``` noise")) as (_ & H & _).
  rewrite (H [] (quoted "'a':1") [10%N]).
  - vm_compute. reflexivity.
  - vm_compute. reflexivity.
  - intros [].
  - intros [E|[]]. discriminate E.
Defined.

(** ** The scoreboard *)

Import Grading.
Unset Implicit Arguments.

Definition count_correct (l : list interaction) : Z :=
  Z.of_nat (List.length (filter interaction__correct l)).

Definition flag (b : bool) : Z := if b then 1%Z else 0%Z.

Lemma count_correct_cons it l :
  count_correct (it :: l) = (flag (interaction__correct it) + count_correct l)%Z.
Proof.
  unfold count_correct, flag. cbn [filter].
  destruct (interaction__correct it); cbn [List.length]; lia.
Qed.

Lemma count_correct_nonneg l : (0 <= count_correct l)%Z.
Proof. unfold count_correct. lia. Qed.

Lemma count_correct_update k f l it :
  nth_error l k = Some it ->
  count_correct (update_nth k f l)
  = (count_correct l - flag (interaction__correct it) + flag (interaction__correct (f it)))%Z.
Proof.
  revert k. induction l as [|x l IH]; intros k H; [destruct k; discriminate|].
  destruct k as [|k]; cbn [nth_error update_nth] in *.
  - injection H as ->. rewrite !count_correct_cons. lia.
  - rewrite !count_correct_cons, (IH _ H). lia.
Qed.

Lemma count_correct_at_least k l it :
  nth_error l k = Some it -> interaction__correct it = true -> (1 <= count_correct l)%Z.
Proof.
  revert k. induction l as [|x l IH]; intros k H Hc; [destruct k; discriminate|].
  rewrite count_correct_cons. pose proof (count_correct_nonneg l).
  destruct k as [|k]; cbn [nth_error] in H.
  - injection H as ->. rewrite Hc. cbn [flag]. lia.
  - specialize (IH _ H Hc). unfold flag. destruct (interaction__correct x); lia.
Qed.

Lemma nth_error_update k (f : interaction -> interaction) l it :
  nth_error l k = Some it -> nth_error (update_nth k f l) k = Some (f it).
Proof.
  revert k. induction l as [|x l IH]; intros k H; [destruct k; discriminate|].
  destruct k as [|k]; cbn [nth_error update_nth] in *; [now injection H as ->|auto].
Qed.

Lemma update_nth_none k (f : interaction -> interaction) l :
  nth_error l k = None -> update_nth k f l = l.
Proof.
  revert k. induction l as [|x l IH]; intros k H; [now destruct k|].
  destruct k as [|k]; cbn [nth_error update_nth] in *; [discriminate|]. now rewrite IH.
Qed.

Lemma updateScoreboard_keeps p :
  interactions (updateScoreboard p) = interactions p
  /\ correctCount (updateScoreboard p) = correctCount p.
Proof. unfold updateScoreboard. destruct (totalQuizzes p =? 0); split; reflexivity. Qed.

(** The page after a listener of the k-th interaction, read field by field. *)
Lemma handle_reads h k p it :
  nth_error (interactions p) k = Some it ->
  interactions (handle h k p)
    = update_nth k (fun _ => fst (fst (h it (correctCount p)))) (interactions p)
  /\ correctCount (handle h k p) = snd (fst (h it (correctCount p))).
Proof.
  intros H. unfold handle. rewrite H.
  destruct (h it (correctCount p)) as [[it' count'] changed]. cbn [fst snd].
  destruct changed; [|split; reflexivity].
  destruct (updateScoreboard_keeps
              {| interactions := update_nth k (fun _ => it') (interactions p);
                 correctCount := count'; scoreValue := scoreValue p |}) as [-> ->].
  split; reflexivity.
Qed.

Lemma handle_out_of_range h k p :
  nth_error (interactions p) k = None -> handle h k p = p.
Proof. intros H. unfold handle. now rewrite H. Qed.

Lemma submit_reads it count :
  interaction__correct (fst (fst (submit it count))) = isCorrect it
  /\ snd (fst (submit it count))
     = if negb (interaction__correct it) && isCorrect it then (count + 1)%Z
       else if interaction__correct it && negb (isCorrect it) then Z.max 0 (count - 1)
       else count.
Proof.
  unfold submit. destruct (interaction__correct it), (isCorrect it); split; reflexivity.
Qed.

Lemma reset_reads it count :
  interaction__correct (fst (fst (reset it count))) = false
  /\ snd (fst (reset it count))
     = if interaction__correct it then Z.max 0 (count - 1) else count.
Proof. unfold reset. destruct (interaction__correct it); split; reflexivity. Qed.

(** The counter is the number of interactions marked correct. *)
Definition counted (p : page) : Prop := correctCount p = count_correct (interactions p).

Lemma counted_load c : counted (load c).
Proof.
  unfold counted, load.
  destruct (updateScoreboard_keeps
    {| interactions :=
         flat_map (fun s => match cs_interaction s with
                            | Some b => [load_interaction b]
                            | None => []
                            end) (cw_sections c);
       correctCount := 0; scoreValue := utf16 "暂无互动题" |}) as [-> ->].
  cbn [interactions correctCount]. unfold count_correct.
  induction (cw_sections c) as [|s l IH]; [reflexivity|].
  cbn [flat_map]. rewrite filter_app, length_app.
  destruct (cs_interaction s); cbn [filter load_interaction interaction__correct List.length];
    exact IH.
Qed.

Lemma counted_handle_submit k p : counted p -> counted (handle submit k p).
Proof.
  unfold counted. intros H.
  destruct (nth_error (interactions p) k) as [it|] eqn:E;
    [|now rewrite handle_out_of_range].
  destruct (handle_reads submit k p it E) as [-> ->].
  rewrite (count_correct_update _ _ _ _ E).
  destruct (submit_reads it (correctCount p)) as [-> ->].
  pose proof (count_correct_at_least _ _ _ E) as Hpos. rewrite <- H in *.
  destruct (interaction__correct it), (isCorrect it); cbn [negb andb flag]; lia.
Qed.

Lemma counted_handle_reset k p : counted p -> counted (handle reset k p).
Proof.
  unfold counted. intros H.
  destruct (nth_error (interactions p) k) as [it|] eqn:E;
    [|now rewrite handle_out_of_range].
  destruct (handle_reads reset k p it E) as [-> ->].
  rewrite (count_correct_update _ _ _ _ E).
  destruct (reset_reads it (correctCount p)) as [-> ->].
  pose proof (count_correct_at_least _ _ _ E) as Hpos. rewrite <- H in *.
  destruct (interaction__correct it); cbn [flag]; lia.
Qed.

Lemma counted_step p e : counted p -> counted (step p e).
Proof.
  destruct e as [k|k|k ticks]; cbn [step].
  - apply counted_handle_submit.
  - apply counted_handle_reset.
  - unfold counted. cbn [interactions correctCount]. intros ->.
    destruct (nth_error (interactions p) k) as [it|] eqn:E.
    + rewrite (count_correct_update _ _ _ _ E). cbn [interaction__correct]. lia.
    + now rewrite update_nth_none.
Qed.

Lemma reachable_counted c p : reachable c p -> counted p.
Proof. induction 1; [apply counted_load|now apply counted_step]. Qed.

Lemma values_of_filter_map (P : input -> bool) (g : input -> input) ins :
  (forall i, P (g i) = P i) -> (forall i, value (g i) = value i) ->
  map value (filter P (map g ins)) = map value (filter P ins).
Proof.
  intros HP Hv. induction ins as [|i ins IH]; [reflexivity|].
  cbn [map filter]. rewrite HP. destruct (P i); cbn [map]; now rewrite ?Hv, IH.
Qed.

Lemma selected_after_marks ins :
  map value (filter checked (markOptions (clearMarks ins))) = map value (filter checked ins)
  /\ map value (filter dataset_correct (markOptions (clearMarks ins)))
     = map value (filter dataset_correct ins).
Proof.
  unfold markOptions, clearMarks. rewrite map_map.
  split; apply values_of_filter_map; reflexivity.
Qed.

(** A submission leaves the ticks as they are: the answer is judged the
    same when it is submitted again. *)
Lemma isCorrect_after_submit it count :
  isCorrect (fst (fst (submit it count))) = isCorrect it.
Proof.
  assert (H : inputs (fst (fst (submit it count))) = markOptions (clearMarks (inputs it))).
  { unfold submit. destruct (isCorrect it), (interaction__correct it); reflexivity. }
  unfold isCorrect, getSelectedValues, getCorrectValues. rewrite H.
  destruct (selected_after_marks (inputs it)) as [-> ->]. reflexivity.
Qed.

Lemma nth_correct_handle h k p it :
  nth_error (interactions p) k = Some it ->
  nth_correct (handle h k p) k = interaction__correct (fst (fst (h it (correctCount p)))).
Proof.
  intros E. unfold nth_correct. destruct (handle_reads h k p it E) as [-> _].
  now rewrite (nth_error_update k (fun _ => fst (fst (h it (correctCount p))))
                 (interactions p) it E).
Qed.


Definition quiz_block (a b : jsstring) : InteractionBlock :=
  {| ib_id := utf16 "q"; ib_type := single; question := utf16 "Which one?";
     options := [ {| opt_id := a; opt_label := utf16 "first" |};
                  {| opt_id := b; opt_label := utf16 "second" |} ];
     answers := [a]; explanation := utf16 "The first.";
     scoring := {| points := 10; analyticsKey := utf16 "section-1" |} |}.

Definition quiz_section (id a b : jsstring) : CoursewareSection :=
  {| cs_id := id; cs_title := utf16 "Slide"; cs_body := utf16 "<p>text</p>";
     cs_image := {| img_prompt := []; img_url := utf16 "https://placehold.co/800x600?text=Slide+1";
                    img_alt := utf16 "Slide 插图" |};
     cs_interaction := Some (quiz_block a b) |}.

(** A courseware of two sections, each with a question. *)
Definition quiz : Courseware :=
  {| cw_id := utf16 "c"; cw_title := utf16 "Quiz";
     cw_metadata := {| md_topic := utf16 "t"; md_audience := utf16 "a"; md_objectives := [];
                       md_generatedAt := utf16 "2024-01-01T00:00:00.000Z" |};
     cw_sections := [ quiz_section (utf16 "s1") (utf16 "a1") (utf16 "b1");
                      quiz_section (utf16 "s2") (utf16 "a2") (utf16 "b2") ] |}.


(** ** Escaping *)

Lemma starts_with_app p a b : starts_with p a = true -> starts_with p (a ++ b) = true.
Proof.
  revert a. induction p as [|x p IH]; intros a H; [reflexivity|].
  destruct a as [|y a]; [discriminate|]. cbn [starts_with app] in *.
  apply andb_prop in H. destruct H as [-> H]. cbn [andb]. now apply IH.
Qed.

Lemma includes_app_l p a b : includes p a = true -> includes p (a ++ b) = true.
Proof.
  induction a as [|y a IH]; intros H.
  - cbn [includes] in H. rewrite orb_false_r in H.
    destruct p; [|discriminate]. destruct b; reflexivity.
  - cbn [includes app] in *. apply orb_prop in H. destruct H as [H|H].
    + change (y :: a ++ b) with ((y :: a) ++ b). now rewrite starts_with_app.
    + rewrite (IH H). apply orb_true_r.
Qed.

Lemma includes_app_r p a b : includes p b = true -> includes p (a ++ b) = true.
Proof.
  intros H. induction a as [|y a IH]; [exact H|].
  cbn [includes app]. rewrite IH. apply orb_true_r.
Qed.

Definition script_title : jsstring := utf16 "<script>alert(1)</script>".

(** An outline of one section whose title holds a script element and whose
    summary repeats it. *)
Definition script_payload : CoursewareBuildRequest :=
  {| outline :=
       {| co_id := utf16 "o-1"; co_title := utf16 "Course";
          co_sections :=
            [ {| os_id := utf16 "s-1"; os_title := script_title;
                 os_summary := script_title ++ utf16 " demo";
                 os_interactionHint := None; os_assetsHint := None |} ] |};
     request := photosynthesis |}.

(** C1, at an input on which it fails.  [buildSectionBody] puts the title
    and the summary into the body as they are, and [renderSection] embeds
    the body (the heading that repeats the title taken out) without escaping
    it: the document holds the script element of the summary, and with it
    the title, as markup. *)
Theorem script_reaches_the_document :
  forall stylesheet script,
    exists artifact st',
      generateCourseware stylesheet script no_credential script_payload start
      = (Returns artifact, st')
      /\ map cs_title (cw_sections (courseware artifact)) = [script_title]
      /\ includes (utf16 "<p><script>alert(1)</script> demo</p>") (html artifact) = true
      /\ includes script_title (html artifact) = true.
Proof.
  intros ss sc. unfold generateCourseware.
  eexists _, _. split.
  - unfold bind at 1.
    replace (buildCourseware no_credential script_payload start)
      with (Returns
              (match buildCourseware no_credential script_payload start with
               | (Returns c, _) => c
               | (Throws _, _) =>
                   {| cw_id := []; cw_title := [];
                      cw_metadata := {| md_topic := []; md_audience := []; md_objectives := [];
                                        md_generatedAt := [] |};
                      cw_sections := [] |}
               end),
            snd (buildCourseware no_credential script_payload start))
      by (vm_compute; reflexivity).
    reflexivity.
  - cbn [courseware html]. split; [vm_compute; reflexivity|].
    unfold Html.renderCoursewareHtml. cbv zeta.
    split; do 9 apply includes_app_r; apply includes_app_l; vm_compute; reflexivity.
Qed.

(* ===================================================================== *)
(** * Further properties of the renderer *)
(* ===================================================================== *)

Import Html.

(** The characters that open or close a tag or an attribute value. *)
Definition is_markup (c : code_unit) : bool :=
  ((c =? 60) || (c =? 62) || (c =? 34) || (c =? 39))%N.

(** The five characters [escapeHtml] replaces. *)
Definition is_special (c : code_unit) : bool := (c =? 38)%N || is_markup c.

(** The markup characters of a text, in order. *)
Definition markup_units (s : jsstring) : jsstring := filter is_markup s.

(** What [escapeHtml] writes for one character. *)
Definition escape_unit (x : code_unit) : jsstring :=
  if (x =? 38)%N then utf16 "&amp;"
  else if (x =? 60)%N then utf16 "&lt;"
  else if (x =? 62)%N then utf16 "&gt;"
  else if (x =? 34)%N then utf16 "&quot;"
  else if (x =? 39)%N then utf16 "&#39;"
  else [x].

Lemma entity_units :
  utf16 "&amp;" = [38; 97; 109; 112; 59]%N
  /\ utf16 "&lt;" = [38; 108; 116; 59]%N
  /\ utf16 "&gt;" = [38; 103; 116; 59]%N
  /\ utf16 "&quot;" = [38; 113; 117; 111; 116; 59]%N
  /\ utf16 "&#39;" = [38; 35; 51; 57; 59]%N.
Proof. repeat split; vm_compute; reflexivity. Qed.

Lemma replace_unit_app c r a b :
  replace_unit c r (a ++ b) = replace_unit c r a ++ replace_unit c r b.
Proof. unfold replace_unit. apply flat_map_app. Qed.

Lemma escapeHtml_app a b : escapeHtml (a ++ b) = escapeHtml a ++ escapeHtml b.
Proof. unfold escapeHtml. now rewrite !replace_unit_app. Qed.

Lemma replace_unit_other c r x : x <> c -> replace_unit c r [x] = [x].
Proof.
  intros H. unfold replace_unit. cbn [flat_map].
  destruct (N.eqb_spec x c); [contradiction|]. reflexivity.
Qed.

Lemma escapeHtml_unit x : escapeHtml [x] = escape_unit x.
Proof.
  unfold escape_unit.
  destruct (N.eqb_spec x 38) as [->|H1]; [vm_compute; reflexivity|].
  destruct (N.eqb_spec x 60) as [->|H2]; [vm_compute; reflexivity|].
  destruct (N.eqb_spec x 62) as [->|H3]; [vm_compute; reflexivity|].
  destruct (N.eqb_spec x 34) as [->|H4]; [vm_compute; reflexivity|].
  destruct (N.eqb_spec x 39) as [->|H5]; [vm_compute; reflexivity|].
  unfold escapeHtml. now rewrite !replace_unit_other.
Qed.

(** The five replacements of [escapeHtml], one after the other, come to one
    pass over the text. *)
Lemma escapeHtml_one_pass s : escapeHtml s = flat_map escape_unit s.
Proof.
  induction s as [|x s IH]; [reflexivity|].
  change (x :: s) with ([x] ++ s). rewrite escapeHtml_app, escapeHtml_unit, IH.
  reflexivity.
Qed.

Lemma escape_unit_cases x :
  (x = 38%N /\ escape_unit x = [38; 97; 109; 112; 59]%N)
  \/ (x = 60%N /\ escape_unit x = [38; 108; 116; 59]%N)
  \/ (x = 62%N /\ escape_unit x = [38; 103; 116; 59]%N)
  \/ (x = 34%N /\ escape_unit x = [38; 113; 117; 111; 116; 59]%N)
  \/ (x = 39%N /\ escape_unit x = [38; 35; 51; 57; 59]%N)
  \/ (is_special x = false /\ escape_unit x = [x]).
Proof.
  destruct entity_units as (E1 & E2 & E3 & E4 & E5).
  unfold escape_unit, is_special, is_markup.
  destruct (N.eqb_spec x 38) as [->|H1]; [now left|]. right.
  destruct (N.eqb_spec x 60) as [->|H2]; [now left|]. right.
  destruct (N.eqb_spec x 62) as [->|H3]; [now left|]. right.
  destruct (N.eqb_spec x 34) as [->|H4]; [now left|]. right.
  destruct (N.eqb_spec x 39) as [->|H5]; [now left|]. right.
  split; reflexivity.
Qed.

Lemma markup_units_app a b : markup_units (a ++ b) = markup_units a ++ markup_units b.
Proof. apply filter_app. Qed.

Lemma markup_units_escape_unit x : markup_units (escape_unit x) = [].
Proof.
  destruct (escape_unit_cases x)
    as [[_ ->]|[[_ ->]|[[_ ->]|[[_ ->]|[[_ ->]|[H ->]]]]]]; try reflexivity.
  unfold markup_units. cbn [filter]. unfold is_special in H.
  apply orb_false_elim in H. destruct H as [_ ->]. reflexivity.
Qed.

Lemma markup_units_escapeHtml s : markup_units (escapeHtml s) = [].
Proof.
  rewrite escapeHtml_one_pass. induction s as [|x s IH]; [reflexivity|].
  cbn [flat_map]. now rewrite markup_units_app, markup_units_escape_unit, IH.
Qed.

(** X1. Escaped text holds no [<], no [>], no double quote and no
    apostrophe, whatever the text. *)
Theorem escapeHtml_leaves_no_markup :
  forall s c, In c (escapeHtml s) -> c <> 60%N /\ c <> 62%N /\ c <> 34%N /\ c <> 39%N.
Proof.
  intros s c H.
  assert (Hm : is_markup c = false).
  { destruct (is_markup c) eqn:E; [|reflexivity].
    assert (Hin : In c (markup_units (escapeHtml s))) by (apply filter_In; auto).
    rewrite markup_units_escapeHtml in Hin. destruct Hin. }
  unfold is_markup in Hm.
  repeat (apply orb_false_elim in Hm; destruct Hm as [Hm ?]).
  repeat split; intros ->; discriminate.
Qed.

Lemma escapeHtml_leaves_no_markup_witness :
  In 38%N (escapeHtml (utf16 "<b>"))
  /\ 38%N <> 60%N /\ 38%N <> 62%N /\ 38%N <> 34%N /\ 38%N <> 39%N.
Proof.
  assert (H : In 38%N (escapeHtml (utf16 "<b>"))) by (vm_compute; tauto).
  split; [exact H|]. exact (escapeHtml_leaves_no_markup (utf16 "<b>") 38%N H).
Defined.

Lemma escape_unit_length x :
  (is_special x = false -> escape_unit x = [x])
  /\ (is_special x = true -> 4 <= List.length (escape_unit x)).
Proof.
  destruct (escape_unit_cases x)
    as [[-> ->]|[[-> ->]|[[-> ->]|[[-> ->]|[[-> ->]|[H ->]]]]]];
    (split; [try discriminate; auto | intros H'; try (cbn; lia); congruence]).
Qed.

Lemma escapeHtml_length s : List.length s <= List.length (escapeHtml s).
Proof.
  rewrite escapeHtml_one_pass. induction s as [|x s IH]; [reflexivity|].
  cbn [flat_map]. rewrite length_app. cbn [List.length].
  destruct (is_special x) eqn:E.
  - pose proof (proj2 (escape_unit_length x) E). lia.
  - rewrite (proj1 (escape_unit_length x) E). cbn. lia.
Qed.

(** X2. [escapeHtml] returns a text as it is exactly when the text holds
    none of the five characters it replaces; it never makes a text
    shorter. *)
Theorem escapeHtml_fixes_plain_text :
  forall s,
    (escapeHtml s = s <-> forall c, In c s -> is_special c = false)
    /\ List.length s <= List.length (escapeHtml s).
Proof.
  intros s. split; [|apply escapeHtml_length].
  rewrite escapeHtml_one_pass. induction s as [|x s IH]; [split; [intros _ c []|reflexivity]|].
  cbn [flat_map]. split.
  - intros H. destruct (is_special x) eqn:E.
    + exfalso. apply (f_equal (@List.length _)) in H. rewrite length_app in H.
      pose proof (proj2 (escape_unit_length x) E).
      pose proof (escapeHtml_length s) as Hl. rewrite escapeHtml_one_pass in Hl.
      cbn [List.length] in H. lia.
    + rewrite (proj1 (escape_unit_length x) E) in H. injection H as H.
      intros c [<-|Hin]; [exact E|]. now apply IH.
  - intros H. rewrite (proj1 (escape_unit_length x)) by (apply H; now left).
    cbn [app]. f_equal. apply IH. intros c Hin. apply H. now right.
Qed.

(** What is written for one character is no start of what is written for
    another. *)
Lemma escape_unit_prefix_free x y a b :
  escape_unit x ++ a = escape_unit y ++ b -> x = y /\ a = b.
Proof.
  assert (Hsp : forall z, is_special z = false ->
                  z <> 38%N /\ z <> 60%N /\ z <> 62%N /\ z <> 34%N /\ z <> 39%N).
  { intros z Hz. unfold is_special, is_markup in Hz.
    repeat (apply orb_false_elim in Hz; destruct Hz as [Hz ?]).
    repeat split; intros ->; discriminate. }
  destruct (escape_unit_cases x)
    as [[-> ->]|[[-> ->]|[[-> ->]|[[-> ->]|[[-> ->]|[Hx ->]]]]]];
  destruct (escape_unit_cases y)
    as [[-> ->]|[[-> ->]|[[-> ->]|[[-> ->]|[[-> ->]|[Hy ->]]]]]];
  cbn [app]; intros H; try discriminate H;
    try (injection H as H; split; [reflexivity|congruence]);
    try (injection H as H1 H2; apply Hsp in Hy; exfalso; intuition congruence);
    try (injection H as H1 H2; apply Hsp in Hx; exfalso; intuition congruence).
  injection H as -> ->. split; reflexivity.
Qed.

(** X3. [escapeHtml] is one to one: two texts with the same escaped form are
    the same text. *)
Theorem escapeHtml_is_injective :
  forall s t, escapeHtml s = escapeHtml t -> s = t.
Proof.
  intros s t. rewrite !escapeHtml_one_pass. revert t.
  induction s as [|x s IH]; intros t H.
  - destruct t as [|y t]; [reflexivity|]. cbn [flat_map] in H.
    destruct (escape_unit_cases y)
      as [[_ E]|[[_ E]|[[_ E]|[[_ E]|[[_ E]|[_ E]]]]]]; rewrite E in H; discriminate H.
  - destruct t as [|y t]; cbn [flat_map] in H.
    + destruct (escape_unit_cases x)
        as [[_ E]|[[_ E]|[[_ E]|[[_ E]|[[_ E]|[_ E]]]]]]; rewrite E in H; discriminate H.
    + apply escape_unit_prefix_free in H. destruct H as [-> H]. f_equal. now apply IH.
Qed.

Lemma escapeHtml_is_injective_witness :
  escapeHtml (utf16 "a<b") = escapeHtml [97%N; 60%N; 98%N]
  /\ utf16 "a<b" = [97%N; 60%N; 98%N].
Proof.
  assert (H : escapeHtml (utf16 "a<b") = escapeHtml [97%N; 60%N; 98%N])
    by (vm_compute; reflexivity).
  split; [exact H|]. exact (escapeHtml_is_injective _ _ H).
Defined.

(** ** The cleanup of a section body *)

(** [b] with some of its units taken out. *)
Inductive subsequence : jsstring -> jsstring -> Prop :=
| sub_nil : subsequence [] []
| sub_keep : forall c a b, subsequence a b -> subsequence (c :: a) (c :: b)
| sub_drop : forall c a b, subsequence a b -> subsequence a (c :: b).

Lemma subsequence_refl s : subsequence s s.
Proof. induction s; constructor; assumption. Qed.

Lemma subsequence_trans a b c : subsequence a b -> subsequence b c -> subsequence a c.
Proof.
  intros Hab Hbc. revert a Hab. induction Hbc as [|x b c _ IH|x b c _ IH]; intros a Hab.
  - exact Hab.
  - inversion Hab; subst; constructor; auto.
  - constructor. auto.
Qed.

Lemma subsequence_length a b : subsequence a b -> List.length a <= List.length b.
Proof. induction 1; cbn [List.length]; lia. Qed.

Lemma remove_from_subsequence p s : forall skip, subsequence (Regex.remove_from p s skip) s.
Proof.
  induction s as [|c s IH]; intros skip; cbn [Regex.remove_from]; [constructor|].
  destruct skip as [|n]; [|constructor; apply IH].
  destruct (Regex.match_here p (c :: s)) as [[g rest]|]; [|constructor; apply IH].
  destruct (List.length (c :: s) <=? List.length rest); constructor; apply IH.
Qed.

Lemma remove_all_subsequence p s : subsequence (Regex.remove_all p s) s.
Proof. apply remove_from_subsequence. Qed.

(** X4. The cleanup of a section body only takes text out: what it returns
    is the body with some of its units deleted, the others in their order;
    it is never longer than the body. *)
Theorem cleanSectionBody_only_deletes :
  forall body title,
    subsequence (cleanSectionBody body title) body
    /\ List.length (cleanSectionBody body title) <= List.length body.
Proof.
  intros body title.
  assert (H : subsequence (cleanSectionBody body title) body).
  { unfold cleanSectionBody. destruct (negb (nonempty body)); [apply subsequence_refl|].
    cbv zeta.
    eapply subsequence_trans; [apply remove_all_subsequence|].
    eapply subsequence_trans; [apply remove_all_subsequence|].
    eapply subsequence_trans; [apply remove_all_subsequence|].
    destruct (nonempty title); [|apply subsequence_refl].
    eapply subsequence_trans; apply remove_all_subsequence. }
  split; [exact H|now apply subsequence_length].
Qed.

Lemma same_letter_lt y : Regex.same_letter 60%N y = (60 =? y)%N.
Proof.
  unfold Regex.same_letter, Regex.canonicalize.
  change ((97 <=? 60)%N && (60 <=? 122)%N) with false. cbv iota.
  destruct ((97 <=? y)%N && (y <=? 122)%N) eqn:E.
  - apply andb_prop in E. destruct E as [E1 E2].
    apply N.leb_le in E1, E2.
    transitivity false; [apply N.eqb_neq; lia | symmetry; apply N.eqb_neq; lia].
  - reflexivity.
Qed.

(** A pattern that starts with [<] matches nowhere in a text without [<]. *)
Lemma remove_all_without_lt p s :
  ~ In 60%N s ->
  Regex.remove_all (Regex.One (Regex.Exactly 60%N) :: p) s = s.
Proof.
  unfold Regex.remove_all. induction s as [|c s IH]; intros H; [reflexivity|].
  cbn [Regex.remove_from Regex.match_here Regex.accepts]. rewrite same_letter_lt.
  destruct (N.eqb_spec 60 c) as [<-|_]; [exfalso; apply H; now left|].
  f_equal. apply IH. intros Hin. apply H. now right.
Qed.

Lemma text_lt_p : Regex.text (utf16 "<p")
                  = [Regex.One (Regex.Exactly 60%N); Regex.One (Regex.Exactly 112%N)].
Proof. vm_compute. reflexivity. Qed.

Lemma text_lt_h : Regex.text (utf16 "<h")
                  = [Regex.One (Regex.Exactly 60%N); Regex.One (Regex.Exactly 104%N)].
Proof. vm_compute. reflexivity. Qed.

(** X5. A body without [<] holds no tag for the cleanup to take out: it is
    returned as it is, whatever the title. *)
Theorem cleanSectionBody_keeps_text_without_tags :
  forall body title, ~ In 60%N body -> cleanSectionBody body title = body.
Proof.
  intros body title H. unfold cleanSectionBody.
  destruct (negb (nonempty body)); [reflexivity|]. cbv zeta.
  unfold titleParagraphPattern, titleHeadingPattern, audienceParagraphPattern,
    audienceHeadingPattern, emptyParagraphPattern.
  rewrite text_lt_p, text_lt_h. cbn [app].
  destruct (nonempty title);
    repeat rewrite (remove_all_without_lt _ body H); reflexivity.
Qed.

Lemma cleanSectionBody_keeps_text_witness :
  cleanSectionBody (utf16 "a > b") (utf16 "Leaves") = utf16 "a > b".
Proof.
  apply cleanSectionBody_keeps_text_without_tags.
  vm_compute. intuition discriminate.
Defined.

(** ** The markup of an interaction *)

Lemma utf16_ascii a s :
  (N_of_ascii a <? 128)%N = true ->
  utf16 (String a s) = N_of_ascii a :: utf16 s.
Proof. intros H. unfold utf16, byte_values. cbn [list_ascii_of_string map utf8_units]. now rewrite H. Qed.

Lemma markup_units_digits d : markup_units (utf16 (NilEmpty.string_of_uint d)) = [].
Proof.
  induction d; cbn [NilEmpty.string_of_uint]; [reflexivity| ..];
    (rewrite utf16_ascii by reflexivity; unfold markup_units in *; cbn [filter];
     match goal with |- context [is_markup ?c] => change (is_markup c) with false end;
     cbv iota; assumption).
Qed.

Lemma markup_units_decimal n : markup_units (decimal n) = [].
Proof. unfold decimal. apply markup_units_digits. Qed.

Lemma markup_units_type_name t : markup_units (type_name t) = [].
Proof. destruct t; vm_compute; reflexivity. Qed.

Lemma markup_units_flag (b : bool) :
  markup_units (if b then utf16 "true" else utf16 "false") = [].
Proof. destruct b; vm_compute; reflexivity. Qed.

Lemma markup_units_input_type t :
  markup_units (if InteractionType_eqb t multi then utf16 "checkbox" else utf16 "radio") = [].
Proof. destruct (InteractionType_eqb t multi); vm_compute; reflexivity. Qed.

Lemma markup_units_renderOption b b' it it' nameAttr opt opt' :
  markup_units it = [] -> markup_units it' = [] ->
  markup_units (renderOption b it nameAttr opt)
  = markup_units (renderOption b' it' nameAttr opt').
Proof.
  intros Hit Hit'. unfold renderOption. cbv zeta.
  rewrite !markup_units_app, !markup_units_escapeHtml, !markup_units_flag, Hit, Hit'.
  reflexivity.
Qed.

Lemma markup_units_join sep (f g : InteractionOption -> jsstring) l l' :
  (forall o o', markup_units (f o) = markup_units (g o')) ->
  List.length l = List.length l' ->
  markup_units (join sep (map f l)) = markup_units (join sep (map g l')).
Proof.
  intros Hfg. revert l'. induction l as [|o l IH]; intros [|o' l'] Hl; try discriminate.
  - reflexivity.
  - injection Hl as Hl. specialize (IH _ Hl). cbn [map join].
    destruct l as [|o2 l], l' as [|o2' l']; try discriminate.
    + cbn [map]. apply Hfg.
    + cbn [map] in *. rewrite !markup_units_app, (Hfg o o'), IH. reflexivity.
Qed.

(** X6. The texts of an interaction cannot change the markup around them:
    the [<], [>], double quotes and apostrophes of what [renderInteraction]
    writes are the same, in number and order, for any two blocks with
    equally many options, whatever their questions, option ids, labels,
    answers, explanations, types and points. *)
Theorem interaction_texts_add_no_markup :
  forall b b' sectionId,
    List.length (options b) = List.length (options b') ->
    markup_units (renderInteraction b sectionId)
    = markup_units (renderInteraction b' sectionId).
Proof.
  intros b b' sid Hl. unfold renderInteraction. cbv zeta.
  rewrite !markup_units_app, !markup_units_escapeHtml, !markup_units_decimal,
    !markup_units_type_name.
  rewrite (markup_units_join (utf16 "
")
             (renderOption b (if InteractionType_eqb (ib_type b) multi
                              then utf16 "checkbox" else utf16 "radio") (utf16 "q-" ++ sid))
             (renderOption b' (if InteractionType_eqb (ib_type b') multi
                               then utf16 "checkbox" else utf16 "radio") (utf16 "q-" ++ sid))
             (options b) (options b')).
  - reflexivity.
  - intros o o'. apply markup_units_renderOption; apply markup_units_input_type.
  - exact Hl.
Qed.

Lemma interaction_texts_witness :
  markup_units (renderInteraction (quiz_block (utf16 "<a>") (utf16 "b")) (utf16 "section-1"))
  = markup_units (renderInteraction (quiz_block (utf16 "c") (utf16 "d")) (utf16 "section-1")).
Proof.
  apply interaction_texts_add_no_markup. reflexivity.
Defined.

(* ===================================================================== *)
(** * Further properties of the grading script *)
(* ===================================================================== *)

Lemma jsstring_eqb_eq a b : JsString.eqb a b = true <-> a = b.
Proof.
  revert b. induction a as [|x a IH]; intros [|y b]; cbn [JsString.eqb];
    try (split; [discriminate|discriminate]); [tauto|].
  rewrite andb_true_iff, N.eqb_eq, IH. split; [intros [-> ->]; reflexivity|].
  intros [= -> ->]. split; reflexivity.
Qed.

Lemma existsb_eqb_In v l : existsb (JsString.eqb v) l = true <-> In v l.
Proof.
  rewrite existsb_exists. split.
  - intros (x & Hin & E). apply jsstring_eqb_eq in E. now subst.
  - intros H. exists v. split; [exact H|]. now apply jsstring_eqb_eq.
Qed.

Lemma value_determines_input ins :
  NoDup (map value ins) ->
  forall i j, In i ins -> In j ins -> value i = value j -> i = j.
Proof.
  induction ins as [|x ins IH]; intros Hnd i j Hi Hj E; [destruct Hi|].
  cbn [map] in Hnd. inversion Hnd as [|? ? Hx Hnd']; subst.
  destruct Hi as [<-|Hi], Hj as [<-|Hj]; auto.
  - exfalso. apply Hx. rewrite E. now apply in_map.
  - exfalso. apply Hx. rewrite <- E. now apply in_map.
Qed.

Lemma NoDup_values_filter (P : input -> bool) ins :
  NoDup (map value ins) -> NoDup (map value (filter P ins)).
Proof.
  induction ins as [|x ins IH]; intros H; [constructor|].
  cbn [map] in H. inversion H as [|? ? Hx Hnd]; subst. cbn [filter].
  destruct (P x); [|auto]. cbn [map]. constructor; [|auto].
  intros Hin. apply Hx. apply in_map_iff in Hin. destruct Hin as (y & E & Hy).
  apply filter_In in Hy. rewrite <- E. apply in_map. tauto.
Qed.

(** X7. The judgement of a submission.  When the inputs of an interaction
    have distinct values, an answer is judged correct exactly when the inputs
    ticked are the inputs flagged correct, no more and no fewer.  Ticking
    exactly the flagged inputs is judged correct whatever the values. *)
Theorem answer_is_correct_when_ticks_are_the_flags :
  forall it,
    ((forall i, In i (inputs it) -> checked i = dataset_correct i) -> isCorrect it = true)
    /\ (NoDup (map value (inputs it)) ->
        isCorrect it = true ->
        forall i, In i (inputs it) -> checked i = dataset_correct i).
Proof.
  intros it. unfold isCorrect, getSelectedValues, getCorrectValues. cbv zeta. split.
  - intros H.
    rewrite (filter_ext_in checked dataset_correct (inputs it) H).
    rewrite Nat.eqb_refl. cbn [andb]. apply forallb_forall.
    intros v Hv. now apply existsb_eqb_In.
  - intros Hnd H. apply andb_prop in H. destruct H as [Hlen Hall].
    apply Nat.eqb_eq in Hlen.
    set (sel := map value (filter checked (inputs it))) in *.
    set (cor := map value (filter dataset_correct (inputs it))) in *.
    assert (Hsc : incl sel cor).
    { intros v Hv. apply existsb_eqb_In. rewrite forallb_forall in Hall. now apply Hall. }
    assert (Hcs : incl cor sel).
    { apply NoDup_length_incl; [now apply NoDup_values_filter | lia | exact Hsc]. }
    assert (Hmove : forall (P Q : input -> bool) i,
              incl (map value (filter P (inputs it))) (map value (filter Q (inputs it))) ->
              In i (inputs it) -> P i = true -> Q i = true).
    { intros P Q i Hincl Hi HP.
      assert (Hv : In (value i) (map value (filter Q (inputs it)))).
      { apply Hincl. apply in_map. apply filter_In. tauto. }
      apply in_map_iff in Hv. destruct Hv as (j & E & Hj). apply filter_In in Hj.
      destruct Hj as [Hj HQ].
      now rewrite <- (value_determines_input (inputs it) Hnd j i Hj Hi E). }
    intros i Hi.
    destruct (checked i) eqn:Ec, (dataset_correct i) eqn:Ed; try reflexivity.
    + rewrite <- Ed. symmetry. now apply (Hmove checked dataset_correct i Hsc Hi).
    + rewrite <- Ec. now apply (Hmove dataset_correct checked i Hcs Hi).
Qed.

Definition two_radios (first second : bool) : interaction :=
  {| interaction__correct := false; interaction__incorrect := false; feedback := [];
     inputs := [ {| value := utf16 "a1"; dataset_correct := true; checked := first;
                    wrapper := Unmarked |};
                 {| value := utf16 "b1"; dataset_correct := false; checked := second;
                    wrapper := Unmarked |} ] |}.

Lemma answer_is_correct_witness : isCorrect (two_radios true false) = true.
Proof.
  apply (proj1 (answer_is_correct_when_ticks_are_the_flags (two_radios true false))).
  intros i [<-|[<-|[]]]; reflexivity.
Defined.

Lemma update_nth_length (A : Type) k (f : A -> A) l :
  List.length (update_nth k f l) = List.length l.
Proof.
  revert k. induction l as [|x l IH]; intros [|k]; cbn [update_nth List.length]; auto.
Qed.

(** The text of the scoreboard for a counter and a number of questions. *)
Definition score_text (count : Z) (total : nat) : jsstring :=
  if total =? 0 then utf16 "暂无互动题"
  else decimalZ count ++ utf16 " / " ++ decimal total.

Definition shown (p : page) : Prop := scoreValue p = score_text (correctCount p) (totalQuizzes p).

Lemma shown_updateScoreboard p : shown (updateScoreboard p).
Proof.
  unfold shown, updateScoreboard, score_text, totalQuizzes.
  destruct (List.length (interactions p) =? 0) eqn:E; cbn [interactions correctCount scoreValue];
    now rewrite E.
Qed.

Lemma handle_shown h k p :
  (forall it count, snd (h it count) = false -> snd (fst (h it count)) = count) ->
  shown p -> shown (handle h k p).
Proof.
  intros Hh Hp. unfold handle.
  destruct (nth_error (interactions p) k) as [it|]; [|exact Hp].
  specialize (Hh it (correctCount p)).
  destruct (h it (correctCount p)) as [[it' count'] changed]. cbn [fst snd] in Hh.
  destruct changed; [apply shown_updateScoreboard|].
  rewrite (Hh eq_refl). unfold shown, totalQuizzes in *. cbn [interactions correctCount scoreValue].
  now rewrite update_nth_length.
Qed.

Lemma submit_unchanged it count :
  snd (submit it count) = false -> snd (fst (submit it count)) = count.
Proof.
  unfold submit. destruct (negb (interaction__correct it) && isCorrect it);
    [discriminate|].
  destruct (interaction__correct it && negb (isCorrect it)); [discriminate|reflexivity].
Qed.

Lemma reset_unchanged it count :
  snd (reset it count) = false -> snd (fst (reset it count)) = count.
Proof. unfold reset. destruct (interaction__correct it); [discriminate|reflexivity]. Qed.

Lemma shown_step p e : shown p -> shown (step p e).
Proof.
  destruct e as [k|k|k ticks]; cbn [step].
  - apply handle_shown, submit_unchanged.
  - apply handle_shown, reset_unchanged.
  - unfold shown, totalQuizzes. cbn [interactions correctCount scoreValue].
    now rewrite update_nth_length.
Qed.

Lemma handle_length h k p :
  List.length (interactions (handle h k p)) = List.length (interactions p).
Proof.
  unfold handle. destruct (nth_error (interactions p) k) as [it|]; [|reflexivity].
  destruct (h it (correctCount p)) as [[it' count'] changed].
  destruct changed; [rewrite (proj1 (updateScoreboard_keeps _))|];
    cbn [interactions]; apply update_nth_length.
Qed.

Lemma totalQuizzes_step p e : totalQuizzes (step p e) = totalQuizzes p.
Proof.
  unfold totalQuizzes. destruct e as [k|k|k ticks]; cbn [step].
  - apply handle_length.
  - apply handle_length.
  - cbn [interactions]. apply update_nth_length.
Qed.

(** The script on a document whose elements of class [interaction], from
    wherever in the markup they come and in whatever state, are [elements]:
    [interactions] is that list, [let correctCount = 0], and the first
    [updateScoreboard()]. *)
Definition opened (elements : list interaction) : page :=
  updateScoreboard
    {| interactions := elements; correctCount := 0; scoreValue := utf16 "暂无互动题" |}.

(** The pages the script goes through on such a document. *)
Inductive visited (elements : list interaction) : page -> Prop :=
| visit_opened : visited elements (opened elements)
| visit_step : forall p e, visited elements p -> visited elements (step p e).

Lemma load_is_opened c :
  load c
  = opened (flat_map (fun s => match cs_interaction s with
                               | Some b => [load_interaction b]
                               | None => []
                               end) (cw_sections c)).
Proof. reflexivity. Qed.

(** The counter is not negative and not above the number of interactions
    marked correct. *)
Definition bounded (p : page) : Prop :=
  (0 <= correctCount p <= correct_now p)%Z.

Lemma bounded_handle_submit k p : bounded p -> bounded (handle submit k p).
Proof.
  unfold bounded, correct_now. fold (count_correct (interactions p)).
  fold (count_correct (interactions (handle submit k p))). intros H.
  destruct (nth_error (interactions p) k) as [it|] eqn:E;
    [|now rewrite handle_out_of_range].
  destruct (handle_reads submit k p it E) as [-> ->].
  rewrite (count_correct_update _ _ _ _ E).
  destruct (submit_reads it (correctCount p)) as [-> ->].
  pose proof (count_correct_at_least _ _ _ E) as Hpos.
  destruct (interaction__correct it), (isCorrect it); cbn [negb andb flag]; lia.
Qed.

Lemma bounded_handle_reset k p : bounded p -> bounded (handle reset k p).
Proof.
  unfold bounded, correct_now. fold (count_correct (interactions p)).
  fold (count_correct (interactions (handle reset k p))). intros H.
  destruct (nth_error (interactions p) k) as [it|] eqn:E;
    [|now rewrite handle_out_of_range].
  destruct (handle_reads reset k p it E) as [-> ->].
  rewrite (count_correct_update _ _ _ _ E).
  destruct (reset_reads it (correctCount p)) as [-> ->].
  pose proof (count_correct_at_least _ _ _ E) as Hpos.
  destruct (interaction__correct it); cbn [flag]; lia.
Qed.

Lemma bounded_step p e : bounded p -> bounded (step p e).
Proof.
  destruct e as [k|k|k ticks]; cbn [step].
  - apply bounded_handle_submit.
  - apply bounded_handle_reset.
  - unfold bounded, correct_now. cbn [interactions correctCount].
    fold (count_correct (interactions p)).
    fold (count_correct
            (update_nth k
               (fun it => {| interaction__correct := interaction__correct it;
                             interaction__incorrect := interaction__incorrect it;
                             feedback := feedback it; inputs := tick (inputs it) ticks |})
               (interactions p))).
    intros H.
    destruct (nth_error (interactions p) k) as [it|] eqn:E.
    + rewrite (count_correct_update _ _ _ _ E). cbn [interaction__correct]. lia.
    + now rewrite update_nth_none.
Qed.

Lemma visited_total elements p :
  visited elements p -> totalQuizzes p = List.length elements.
Proof.
  induction 1; [|now rewrite totalQuizzes_step].
  unfold totalQuizzes, opened. now rewrite (proj1 (updateScoreboard_keeps _)).
Qed.

Lemma visited_shown elements p : visited elements p -> shown p.
Proof. induction 1; [apply shown_updateScoreboard|]. now apply shown_step. Qed.

Lemma visited_bounded elements p : visited elements p -> bounded p.
Proof.
  induction 1; [|now apply bounded_step].
  unfold bounded, correct_now, opened.
  destruct (updateScoreboard_keeps
              {| interactions := elements; correctCount := 0;
                 scoreValue := utf16 "暂无互动题" |}) as [-> ->].
  cbn [correctCount interactions]. lia.
Qed.

(** X8. The scoreboard always shows the counter.  Take a document with any
    elements of class [interaction], n of them, each with inputs of its own
    and in any state.  On every page the script goes through, the text of
    [#scoreValue] is [暂无互动题] when n is 0 and [count / n] otherwise; the
    counter is not negative, not above the number of elements marked
    correct, and so not above n. *)
Theorem scoreboard_shows_the_counter :
  forall elements p, visited elements p ->
    totalQuizzes p = List.length elements
    /\ scoreValue p = score_text (correctCount p) (List.length elements)
    /\ (0 <= correctCount p)%Z
    /\ (correctCount p <= correct_now p)%Z
    /\ (correct_now p <= Z.of_nat (List.length elements))%Z.
Proof.
  intros elements p H.
  pose proof (visited_total elements p H) as Ht.
  pose proof (visited_shown elements p H) as Hs.
  pose proof (visited_bounded elements p H) as Hb.
  split; [exact Ht|]. split; [unfold shown in Hs; now rewrite Ht in Hs|].
  split; [apply Hb|]. split; [apply Hb|].
  rewrite <- Ht. unfold correct_now, totalQuizzes.
  pose proof (filter_length_le interaction__correct (interactions p)). lia.
Qed.

Lemma scoreboard_witness :
  scoreValue (step (step (opened [two_radios false false]) (Tick 0 [true; false]))
                (ClickSubmit 0))
  = score_text
      (correctCount (step (step (opened [two_radios false false]) (Tick 0 [true; false]))
                       (ClickSubmit 0))) 1.
Proof.
  exact (proj1 (proj2 (scoreboard_shows_the_counter [two_radios false false] _
           (visit_step _ _ (ClickSubmit 0)
              (visit_step _ _ (Tick 0 [true; false]) (visit_opened _)))))).
Defined.

(** ** Slide navigation *)

(** The other half of the script: [currentIndex], the class [slide--active]
    of the slides, the two buttons and the progress line. *)
Module Slides.

Record view := {
  slides : nat;                  (* slides.length *)
  currentIndex : Z;
  active : list bool;            (* slide--active, slide by slide *)
  prevDisabled : bool;
  nextDisabled : bool;
  progress : jsstring
}.

Definition updateSlides (v : view) : view :=
  {| slides := slides v;
     currentIndex := currentIndex v;
     active := map (fun index => (Z.of_nat index =? currentIndex v)%Z) (seq 0 (slides v));
     prevDisabled := (currentIndex v =? 0)%Z;
     nextDisabled := (currentIndex v =? Z.of_nat (slides v) - 1)%Z;
     progress := utf16 "场景 " ++ decimalZ (currentIndex v + 1) ++ utf16 " / "
                   ++ decimal (slides v) |}.

Definition move (v : view) (index : Z) : view :=
  {| slides := slides v; currentIndex := index; active := active v;
     prevDisabled := prevDisabled v; nextDisabled := nextDisabled v;
     progress := progress v |}.

(** The click listener of [#prevBtn]. *)
Definition prevClick (v : view) : view :=
  if (0 <? currentIndex v)%Z then updateSlides (move v (currentIndex v - 1)) else v.

(** The click listener of [#nextBtn]. *)
Definition nextClick (v : view) : view :=
  if (currentIndex v <? Z.of_nat (slides v) - 1)%Z
  then updateSlides (move v (currentIndex v + 1)) else v.

(** The document of [n] slides as rendered ([let currentIndex = 0], no
    slide active, both buttons enabled), after the [updateSlides()] that
    ends the script. *)
Definition opened (n : nat) : view :=
  updateSlides
    {| slides := n; currentIndex := 0; active := repeat false n;
       prevDisabled := false; nextDisabled := false;
       progress := utf16 "场景 1 / " ++ decimal n |}.

Inductive click := Prev | Next.

Definition press (v : view) (c : click) : view :=
  match c with Prev => prevClick v | Next => nextClick v end.

End Slides.

(** The view is the one [updateSlides] draws for its index. *)
Definition drawn_view (v : Slides.view) : Prop := Slides.updateSlides v = v.

Lemma updateSlides_drawn v : drawn_view (Slides.updateSlides v).
Proof. reflexivity. Qed.

Lemma press_keeps n clicks :
  let v := fold_left Slides.press clicks (Slides.opened n) in
  Slides.slides v = n
  /\ drawn_view v
  /\ (0 <= Slides.currentIndex v)%Z
  /\ (Slides.currentIndex v <= Z.max 0 (Z.of_nat n - 1))%Z.
Proof.
  cbv zeta. rewrite <- (rev_involutive clicks).
  induction (rev clicks) as [|c l IH]; cbn [rev].
  - cbn. repeat split; lia.
  - rewrite fold_left_app. cbn [fold_left].
    set (v := fold_left Slides.press (rev l) (Slides.opened n)) in *.
    destruct IH as (Hn & Hd & H0 & H1).
    destruct c; cbn [Slides.press]; unfold Slides.prevClick, Slides.nextClick.
    + destruct (Z.ltb_spec 0 (Slides.currentIndex v)); [|auto].
      cbn. repeat split; [exact Hn | lia | lia].
    + rewrite Hn. destruct (Z.ltb_spec (Slides.currentIndex v) (Z.of_nat n - 1)); [|auto].
      cbn. repeat split; [exact Hn | lia | lia].
Qed.

(** X9. Navigation stays within the slides.  After any sequence of clicks
    on the two buttons of a document of n slides, the index is at least 0 and
    at most n - 1 (0 when there is no slide); the slide at the index, and no
    other, is active; the previous button is disabled exactly at index 0 and
    the next button exactly at index n - 1; the progress line reads the
    index plus one and n. *)
Theorem navigation_stays_within_the_slides :
  forall n clicks,
    let v := fold_left Slides.press clicks (Slides.opened n) in
    (0 <= Slides.currentIndex v <= Z.max 0 (Z.of_nat n - 1))%Z
    /\ List.length (Slides.active v) = n
    /\ (forall i, i < n ->
          nth i (Slides.active v) false = (Z.of_nat i =? Slides.currentIndex v)%Z)
    /\ Slides.prevDisabled v = (Slides.currentIndex v =? 0)%Z
    /\ Slides.nextDisabled v = (Slides.currentIndex v =? Z.of_nat n - 1)%Z
    /\ Slides.progress v
       = utf16 "场景 " ++ decimalZ (Slides.currentIndex v + 1) ++ utf16 " / " ++ decimal n.
Proof.
  intros n clicks v. destruct (press_keeps n clicks) as (Hn & Hd & H0 & H1). fold v in Hn, Hd, H0, H1.
  split; [lia|]. rewrite <- Hd. cbn [Slides.active Slides.prevDisabled Slides.nextDisabled
    Slides.progress Slides.currentIndex Slides.updateSlides]. rewrite Hn.
  split; [now rewrite length_map, length_seq|].
  split; [|repeat split].
  intros i Hi.
  rewrite (nth_indep _ false ((fun index => (Z.of_nat index =? Slides.currentIndex v)%Z) 0))
    by (now rewrite length_map, length_seq).
  rewrite (map_nth (fun index => (Z.of_nat index =? Slides.currentIndex v)%Z)).
  rewrite seq_nth by exact Hi. reflexivity.
Qed.

(** X10. Going to the next slide and back.  Where the next button moves
    (the index is below n - 1), a click on the previous button undoes it:
    the view is the one before the two clicks, once drawn. *)
Theorem next_then_previous_returns :
  forall v,
    (0 <= Slides.currentIndex v)%Z ->
    (Slides.currentIndex v < Z.of_nat (Slides.slides v) - 1)%Z ->
    Slides.prevClick (Slides.nextClick v) = Slides.updateSlides v.
Proof.
  intros v H0 H1. unfold Slides.nextClick.
  destruct (Z.ltb_spec (Slides.currentIndex v) (Z.of_nat (Slides.slides v) - 1)); [|lia].
  unfold Slides.prevClick. cbn [Slides.currentIndex Slides.updateSlides Slides.move].
  destruct (Z.ltb_spec 0 (Slides.currentIndex v + 1)); [|lia].
  unfold Slides.updateSlides, Slides.move.
  cbn [Slides.currentIndex Slides.slides Slides.active Slides.prevDisabled
       Slides.nextDisabled Slides.progress].
  replace (Slides.currentIndex v + 1 - 1)%Z with (Slides.currentIndex v) by lia.
  reflexivity.
Qed.

Lemma next_then_previous_witness :
  Slides.prevClick (Slides.nextClick (Slides.opened 3)) = Slides.updateSlides (Slides.opened 3).
Proof.
  apply (next_then_previous_returns (Slides.opened 3)); cbn; lia.
Defined.

(* ===================================================================== *)
(** * Further properties of the service *)
(* ===================================================================== *)

Lemma interaction_of_calls w st s i types :
  text_calls (snd (interaction_of w st s i types)) = text_calls st
  /\ image_calls (snd (interaction_of w st s i types)) = image_calls st.
Proof.
  unfold interaction_of. destruct types; [split; reflexivity|].
  destruct (effective_type _ _); split; reflexivity.
Qed.

Lemma coursewareSections_shape w payload sections :
  forall index st, exists cs st',
    mapM_indexed (coursewareSection w payload) index sections st = (Returns cs, st')
    /\ map cs_id cs = map (@os_id jsstring) sections
    /\ map cs_title cs = map (@os_title jsstring) sections
    /\ map cs_body cs = map (fun s => buildSectionBody s (request payload)) sections
    /\ map (fun c => img_prompt (cs_image c)) cs
       = map (buildImagePrompt (request payload)) sections
    /\ text_calls st' = text_calls st
    /\ image_calls st'
       = image_calls st + (if isConfigured w then List.length sections else 0).
Proof.
  induction sections as [|s rest IH]; intros index st; cbn [mapM_indexed map List.length].
  - exists [], st. repeat split; try reflexivity. destruct (isConfigured w); lia.
  - pose proof (coursewareSection_returns w payload s index st) as E. cbv zeta in E.
    set (st1 := snd (interaction_of w
                       (if isConfigured w
                        then after_image (buildImagePrompt (request payload) s) (paced index st)
                        else paced index st) s index (types_of payload))) in *.
    destruct (IH (S index) st1) as (cs & st2 & E2 & Hid & Ht & Hb & Hp & Hc & Hi).
    eexists (_ :: cs), st2. split.
    + unfold bind at 1. rewrite E. unfold bind at 1. rewrite E2. reflexivity.
    + cbn [map cs_id cs_title cs_body cs_image img_prompt].
      rewrite Hid, Ht, Hb, Hp, Hc, Hi. unfold st1.
      destruct (interaction_of_calls w
                  (if isConfigured w
                   then after_image (buildImagePrompt (request payload) s) (paced index st)
                   else paced index st) s index (types_of payload)) as [-> ->].
      assert (Hpaced : text_calls (paced index st) = text_calls st
                       /\ image_calls (paced index st) = image_calls st).
      { unfold paced. destruct (0 <? index); split; reflexivity. }
      destruct Hpaced as [Hp1 Hp2].
      destruct (isConfigured w); cbn [text_calls image_calls after_image];
        rewrite ?Hp1, ?Hp2; repeat split; lia.
Qed.

(** X11. The courseware follows the outline.  [generateCourseware] returns
    one section for each section of the outline, in order, under the same
    id and title, with the body and the image prompt built from that section;
    the courseware takes the title of the outline, and topic, audience and
    objectives (none: the empty list) of the request.  It asks the image
    provider once for each section when the service has a credential, not
    at all otherwise, and never asks the text provider. *)
Theorem courseware_follows_the_outline :
  forall stylesheet script w payload st,
    exists artifact st',
      generateCourseware stylesheet script w payload st = (Returns artifact, st')
      /\ let c := courseware artifact in
         let sections := co_sections (outline payload) in
         map cs_id (cw_sections c) = map (@os_id jsstring) sections
         /\ map cs_title (cw_sections c) = map (@os_title jsstring) sections
         /\ map cs_body (cw_sections c)
            = map (fun s => buildSectionBody s (request payload)) sections
         /\ map (fun s => img_prompt (cs_image s)) (cw_sections c)
            = map (buildImagePrompt (request payload)) sections
         /\ cw_title c = co_title (outline payload)
         /\ md_topic (cw_metadata c) = topic (request payload)
         /\ md_audience (cw_metadata c) = audience (request payload)
         /\ md_objectives (cw_metadata c)
            = match objectives (request payload) with Some l => l | None => [] end
         /\ html artifact = renderCoursewareHtml stylesheet script c
         /\ text_calls st' = text_calls st
         /\ image_calls st'
            = image_calls st + (if isConfigured w then List.length sections else 0).
Proof.
  intros ss sc w payload st.
  destruct (coursewareSections_shape w payload (co_sections (outline payload)) 0 st)
    as (cs & st1 & E & Hid & Ht & Hb & Hp & Hc & Hi).
  unfold generateCourseware, buildCourseware, coursewareSections.
  eexists _, _. split.
  - unfold bind at 1. unfold bind at 1. rewrite E. unfold bind at 1.
    unfold randomUUID at 1. unfold ret. reflexivity.
  - cbn. repeat split; assumption.
Qed.

Lemma drawn_distinct w st i j :
  (forall a b, uuid_source w a = uuid_source w b -> a = b) ->
  i <> j -> drawn w st i <> drawn w st j.
Proof. intros Hinj Hij E. apply Hinj in E. lia. Qed.

(** X12. Ids within an interaction.  When the identifiers [randomUUID]
    returns are pairwise different, the id of a block and the ids of its
    options are pairwise different. *)
Theorem option_ids_are_distinct :
  forall w,
    (forall a b, uuid_source w a = uuid_source w b -> a = b) ->
    forall section index types st b st',
      buildInteraction w section index types st = (Returns (Some b), st') ->
      NoDup (ib_id b :: map opt_id (options b)).
Proof.
  intros w Hinj s index types st b st'. rewrite buildInteraction_returns.
  unfold interaction_of. destruct types as [|t ts]; [discriminate|].
  pose proof (fun i j => drawn_distinct w st i j Hinj) as Hd.
  destruct (effective_type (t :: ts) index); cbn [fst snd]; intros [= <- _]; cbn;
    repeat constructor; cbn; intuition (try (eapply Hd; [|eassumption]; lia)).
Qed.

(** Identifiers that differ in length. *)
Definition tally_ids (k : nat) : jsstring := repeat 97%N k.

Definition tally_world : world :=
  {| apiKey := None;
     text_provider := fun _ _ => TextThrows;
     image_provider := fun _ _ => ImageThrows;
     uuid_source := tally_ids;
     clock := utf16 "2024-01-01T00:00:00.000Z";
     numbers := canonical_literals |}.

Lemma tally_ids_injective a b : tally_ids a = tally_ids b -> a = b.
Proof.
  intros H. apply (f_equal (@List.length _)) in H. unfold tally_ids in H.
  now rewrite !repeat_length in H.
Qed.

Lemma option_ids_witness :
  NoDup (ib_id (multi_block tally_world start leaf_section 1)
         :: map opt_id (options (multi_block tally_world start leaf_section 1))).
Proof.
  apply (option_ids_are_distinct tally_world tally_ids_injective leaf_section 1
           [single; multi] start _ (after_draws start 4)).
  reflexivity.
Defined.

(** X13. The type of a block follows the rotation of the hints.  For a
    non-empty list of requested types, [pickInteractionHint] gives section
    [index] the type at [index mod length], one of the requested types; the
    block [buildInteraction] builds for that section has this type, [single]
    standing in for [open]. *)
Theorem block_type_follows_the_rotation :
  forall w section index types st,
    types <> [] ->
    exists t b st',
      pickInteractionHint types index = Some t
      /\ In t types
      /\ nth_error types (index mod List.length types) = Some t
      /\ buildInteraction w section index types st = (Returns (Some b), st')
      /\ ib_type b = match t with open => single | _ => t end.
Proof.
  intros w s index types st Hne. rewrite buildInteraction_returns.
  unfold interaction_of, effective_type, pickInteractionHint.
  destruct types as [|t0 ts]; [congruence|].
  assert (Hlt : index mod List.length (t0 :: ts) < List.length (t0 :: ts)).
  { apply Nat.mod_upper_bound. discriminate. }
  destruct (nth_error (t0 :: ts) (index mod List.length (t0 :: ts))) as [t|] eqn:E.
  2:{ apply nth_error_None in E. lia. }
  exists t. destruct t; cbn [fst snd]; eexists _, _;
    (split; [reflexivity|]; split; [eapply nth_error_In; exact E|];
     split; [reflexivity|]; split; reflexivity).
Qed.

Lemma block_type_witness :
  exists t b st',
    pickInteractionHint [single; open] 3 = Some t
    /\ buildInteraction no_credential leaf_section 3 [single; open] start
       = (Returns (Some b), st')
    /\ ib_type b = match t with open => single | _ => t end.
Proof.
  destruct (block_type_follows_the_rotation no_credential leaf_section 3 [single; open] start
              ltac:(discriminate)) as (t & b & st' & Hp & _ & _ & Hb & Ht).
  exists t, b, st'. repeat split; assumption.
Defined.

(** ** The sections of an outline *)

(** A section with its defaults filled in: a title and a summary that are
    not empty (nor any other falsy value), an assets hint, and an interaction
    hint whenever the request names interaction types; no field is [null]. *)
Definition filled (w : world) (request : GenerationRequest) (s : OutlineSection json) : Prop :=
  truthy (numbers w) (os_title s) = true
  /\ truthy (numbers w) (os_summary s) = true
  /\ (exists h, os_assetsHint s = Some h /\ h <> JNull)
  /\ os_interactionHint s <> Some JNull
  /\ (forall t ts, interactionTypes request = Some (t :: ts) ->
      exists h, os_interactionHint s = Some h).

Lemma nonempty_app_l (a b : jsstring) : nonempty a = true -> nonempty (a ++ b) = true.
Proof. destruct a; [discriminate|reflexivity]. Qed.

Lemma or_else_truthy nm v d : truthy nm d = true -> truthy nm (or_else nm v d) = true.
Proof.
  intros H. unfold or_else. destruct v as [x|]; [|exact H].
  destruct (truthy nm x) eqn:E; [exact E|exact H].
Qed.

Lemma nullish_not_null v x : nullish v = Some x -> x <> JNull.
Proof. destruct v as [[]|]; cbn [nullish]; intros [= <-]; discriminate. Qed.

Lemma pick_of_nonempty t ts index :
  exists p, pickInteractionHint (t :: ts) index = Some p.
Proof.
  unfold pickInteractionHint.
  destruct (nth_error (t :: ts) (index mod List.length (t :: ts))) as [p|] eqn:E; [eauto|].
  apply nth_error_None in E.
  pose proof (Nat.mod_upper_bound index (List.length (t :: ts)) ltac:(discriminate)). lia.
Qed.

Lemma filled_fields w request (title summary hint : option json) (assets : json) id index :
  assets <> JNull ->
  filled w request
    {| os_id := id;
       os_title := or_else (numbers w) title
                     (JStr (utf16 "第 " ++ decimal (index + 1) ++ utf16 " 节"));
       os_summary := or_else (numbers w) summary (JStr (utf16 "请补充该节课程摘要。"));
       os_interactionHint :=
         match nullish hint with
         | Some v => Some v
         | None => option_map (fun t => JStr (type_name t))
                     (pickInteractionHint
                        match interactionTypes request with Some l => l | None => [] end index)
         end;
       os_assetsHint := Some assets |}.
Proof.
  intros Ha. unfold filled. cbn [os_title os_summary os_interactionHint os_assetsHint].
  split; [|split; [|split; [|split]]].
  - apply or_else_truthy. cbn [truthy]. apply nonempty_app_l. vm_compute. reflexivity.
  - apply or_else_truthy. vm_compute. reflexivity.
  - exists assets. split; [reflexivity|exact Ha].
  - destruct (nullish hint) as [x|] eqn:E.
    + intros [= ->]. now apply nullish_not_null in E.
    + destruct (pickInteractionHint _ _); cbn [option_map]; discriminate.
  - intros t ts ->. destruct (nullish hint) as [x|]; [eauto|].
    destruct (pick_of_nonempty t ts index) as (p & ->). cbn [option_map]. eauto.
Qed.

Lemma outlineSection_filled w request section index st s st' :
  outlineSection w request section index st = (Returns s, st') -> filled w request s.
Proof.
  destruct section as [| b | lit | t | items | ms]; [discriminate| ..].
  1-4: intros [= <- _];
       refine (filled_fields w request None None None _ _ index _); discriminate.
  rewrite outlineSection_of_object.
  destruct (nullish (lookup (utf16 "assetsHint") ms)) as [v|] eqn:Ev.
  - intros [= <- _]. apply filled_fields. eapply nullish_not_null; eauto.
  - destruct (ToString (numbers w) _) as [name|]; [|discriminate].
    intros [= <- _]. apply filled_fields. discriminate.
Qed.

Lemma mapM_indexed_Forall (A B : Type) (f : A -> nat -> M B) (P : B -> Prop) :
  (forall x i st y st', f x i st = (Returns y, st') -> P y) ->
  forall l i st ys st', mapM_indexed f i l st = (Returns ys, st') -> Forall P ys.
Proof.
  intros Hf. induction l as [|x l IH]; intros i st ys st' H; cbn [mapM_indexed] in H.
  - unfold ret in H. injection H as <- _. constructor.
  - unfold bind at 1 in H. destruct (f x i st) as [[y|e] st1] eqn:E; [|discriminate].
    unfold bind at 1 in H.
    destruct (mapM_indexed f (S i) l st1) as [[zs|e] st2] eqn:E2; [|discriminate].
    unfold ret in H. injection H as <- _. constructor; eauto.
Qed.

Lemma outlineAttempt_filled w request prompt st o st' :
  outlineAttempt w request prompt st = (Returns (Some o), st') ->
  Forall (filled w request) (co_sections o).
Proof.
  unfold outlineAttempt, try_catch. unfold bind at 1.
  destruct (generateTextWithGemini w prompt st) as [[[rawText|]|e] st1];
    try (unfold ret; discriminate).
  destruct (negb (nonempty rawText)); [unfold ret; discriminate|].
  destruct (read_sections (numbers w) (extractJson rawText)) as [| |items];
    try (unfold ret, throw; discriminate).
  unfold bind at 1. unfold randomUUID at 1. unfold bind at 1.
  destruct (mapM_indexed (outlineSection w request) 0 items _) as [[ys|e] st2] eqn:E;
    [|unfold ret; discriminate].
  unfold ret. intros [= <- _]. cbn [co_sections].
  eapply mapM_indexed_Forall; [|exact E].
  intros x i s0 y s1. apply outlineSection_filled.
Qed.

Lemma outlineAttempts_filled w request prompt remaining :
  forall st o st',
    outlineAttempts w request prompt remaining st = (Returns (Some o), st') ->
    Forall (filled w request) (co_sections o).
Proof.
  induction remaining as [|k IH]; intros st o st'; cbn [outlineAttempts];
    [unfold ret; discriminate|].
  unfold bind at 1.
  destruct (outlineAttempt w request prompt st) as [[[o1|]|e] st1] eqn:E; try discriminate.
  - unfold ret. intros [= <- _]. eapply outlineAttempt_filled; eauto.
  - apply IH.
Qed.

Lemma fallback_filled w request st :
  forall st0, generateOutlineWithGemini w request st = (Returns None, st0) ->
  exists o st', generateOutline w request st = (Returns o, st')
    /\ Forall (filled w request) (co_sections o).
Proof.
  intros st0 E. unfold generateOutline. unfold bind at 1. rewrite E.
  eexists _, _. split; [reflexivity|].
  assert (Hhint : forall index,
            option_map (fun t => JStr (type_name t))
              (pickInteractionHint
                 match interactionTypes request with Some l => l | None => [] end index)
            <> Some JNull
            /\ (forall t ts, interactionTypes request = Some (t :: ts) ->
                exists h, option_map (fun t => JStr (type_name t))
                            (pickInteractionHint
                               match interactionTypes request with Some l => l | None => [] end
                               index) = Some h)).
  { intros index. split.
    - destruct (pickInteractionHint _ _); cbn [option_map]; discriminate.
    - intros t ts ->. destruct (pick_of_nonempty t ts index) as (p & ->).
      cbn [option_map]. eauto. }
  cbn [co_sections].
  repeat constructor; cbn [os_title os_summary os_assetsHint os_interactionHint truthy];
    try (vm_compute; reflexivity);
    try (apply nonempty_app_l; vm_compute; reflexivity);
    try (eexists; split; [reflexivity|discriminate]);
    try apply Hhint.
Qed.

(** X14. The sections of an outline come with their defaults filled in.
    Whatever the provider replies, every section of the outline
    [generateOutline] returns has a title and a summary that are not empty
    (nor [null], [false] or zero), an assets hint that is not [null], and,
    when the request names interaction types, an interaction hint. *)
Theorem outline_sections_are_filled :
  forall w request st,
    exists o st',
      generateOutline w request st = (Returns o, st')
      /\ Forall (filled w request) (co_sections o).
Proof.
  intros w request st.
  destruct (isConfigured w) eqn:Hc.
  - destruct (outlineAttempts_returns w request (buildOutlinePrompt request) 3 Hc st)
      as (r & st1 & E & _ & _).
    pose proof E as E'.
    rewrite <- (generateOutlineWithGemini_configured w request st Hc) in E.
    destruct r as [o|].
    + exists o, st1. split; [now apply generateOutline_of_outline|].
      eapply outlineAttempts_filled; eauto.
    + eapply fallback_filled; eauto.
  - eapply fallback_filled. now apply generateOutlineWithGemini_unconfigured.
Qed.

(** ** Text around a fenced block *)

Lemma block_at_needs_backquote c s : c <> 96%N -> block_at (c :: s) = None.
Proof.
  intros H. unfold block_at.
  replace (starts_with_ci (utf16 "```json") (c :: s)) with false; [reflexivity|].
  change (utf16 "```json") with (96%N :: utf16 "``json").
  cbn [starts_with_ci]. rewrite same_letter_backquote.
  destruct (N.eqb_spec 96 c); [congruence|reflexivity].
Qed.

Lemma fenced_block_without_backquote s : ~ In 96%N s -> fenced_block s = None.
Proof.
  induction s as [|c s IH]; intros H.
  - vm_compute. reflexivity.
  - cbn [fenced_block]. rewrite block_at_needs_backquote by (intros ->; apply H; now left).
    apply IH. intros Hin. apply H. now right.
Qed.

Lemma fenced_block_skips pre s : ~ In 96%N pre -> fenced_block (pre ++ s) = fenced_block s.
Proof.
  induction pre as [|c pre IH]; intros H; [reflexivity|].
  cbn [app fenced_block]. rewrite block_at_needs_backquote by (intros ->; apply H; now left).
  destruct s as [|x s].
  - rewrite app_nil_r. rewrite fenced_block_without_backquote.
    + vm_compute. reflexivity.
    + intros Hin. apply H. now right.
  - apply IH. intros Hin. apply H. now right.
Qed.

Lemma starts_with_ci_app t a b : starts_with_ci t a = true -> starts_with_ci t (a ++ b) = true.
Proof.
  revert a. induction t as [|x t IH]; intros a H; [reflexivity|].
  destruct a as [|y a]; [discriminate|]. cbn [starts_with_ci app] in *.
  apply andb_prop in H. destruct H as [-> H]. cbn [andb]. now apply IH.
Qed.

Lemma trimStart_spaces ws s :
  Forall (fun c => is_whitespace c = true) ws ->
  match s with c :: _ => is_whitespace c = false | [] => True end ->
  trimStart (ws ++ s) = s.
Proof.
  intros Hws Hs. induction Hws as [|c ws Hc _ IH]; cbn [app trimStart].
  - destruct s as [|c s]; [reflexivity|]. cbn [trimStart]. now rewrite Hs.
  - now rewrite Hc.
Qed.

Lemma until_fence_plain body post :
  ~ In 96%N body -> until_fence (body ++ fence ++ post) = Some (body, post).
Proof.
  induction body as [|c body IH]; intros H.
  - cbn [app]. rewrite fence_units. reflexivity.
  - cbn [app until_fence]. rewrite IH by (intros Hin; apply H; now right).
    rewrite fence_units. cbn [starts_with].
    destruct (N.eqb_spec 96 c) as [<-|_]; [exfalso; apply H; now left|]. reflexivity.
Qed.

(** X15. Text around a fenced block does not count.  For a text made of
    any words without a backquote, then the fence label (three backquotes and
    [json], in either case), white space, a body without a backquote, the
    closing fence and anything after it, [extractJson] returns what it
    returns for the body alone. *)
Theorem text_around_a_fenced_block_is_ignored :
  forall before label space body after : jsstring,
    ~ In 96%N before ->
    starts_with_ci (utf16 "```json") label = true -> List.length label = 7 ->
    Forall (fun c => is_whitespace c = true) space ->
    match body with c :: _ => is_whitespace c = false | [] => True end ->
    ~ In 96%N body ->
    extractJson (before ++ label ++ space ++ body ++ fence ++ after) = extractJson body.
Proof.
  intros pre label ws body post Hpre Hlabel Hlen Hws Hhead Hbody.
  rewrite !extractJson_window.
  assert (Hr : search_window body = body).
  { unfold search_window. now rewrite fenced_block_without_backquote. }
  assert (Hl : search_window (pre ++ label ++ ws ++ body ++ fence ++ post) = body).
  { unfold search_window. rewrite fenced_block_skips by exact Hpre.
    destruct label as [|l0 label]; [discriminate|].
    cbn [app fenced_block]. unfold block_at.
    change (l0 :: label ++ ws ++ body ++ fence ++ post)
      with ((l0 :: label) ++ ws ++ body ++ fence ++ post).
    rewrite (starts_with_ci_app _ _ _ Hlabel).
    rewrite <- Hlen at 1. rewrite skipn_app, skipn_all, Nat.sub_diag. cbn [app skipn].
    rewrite trimStart_spaces.
    - now rewrite until_fence_plain.
    - exact Hws.
    - destruct body as [|c body]; [|exact Hhead]. rewrite fence_units. reflexivity. }
  now rewrite Hl, Hr.
Qed.

Lemma text_around_a_fenced_block_witness :
  extractJson (utf16 "noise " ++ utf16 "```JSON" ++ [10%N] ++ quoted "{'a':1}" ++ fence
                 ++ utf16 " noise")
  = extractJson (quoted "{'a':1}").
Proof.
  apply text_around_a_fenced_block_is_ignored.
  - vm_compute. intuition discriminate.
  - vm_compute. reflexivity.
  - vm_compute. reflexivity.
  - repeat constructor.
  - vm_compute. reflexivity.
  - vm_compute. intuition discriminate.
Defined.

(* ===================================================================== *)
(** * The form of the client and the routes of the server *)
(* ===================================================================== *)

(** The pure parts of the client's [App] component. *)
Module App.

(** [text.split('\n')] *)
Fixpoint split_lines (text : jsstring) : list jsstring :=
  match text with
  | [] => [[]]
  | c :: rest =>
      if (c =? 10)%N then [] :: split_lines rest
      else
        match split_lines rest with
        | line :: lines => (c :: line) :: lines
        | [] => [[c]]
        end
  end.

Definition parseMultiline (text : jsstring) : list jsstring :=
  filter nonempty (map trim (split_lines text)).

(** The state update of [toggleInteractionType]. *)
Definition toggleInteractionType (value : InteractionType) (prev : list InteractionType)
    : list InteractionType :=
  if existsb (InteractionType_eqb value) prev
  then filter (fun item => negb (InteractionType_eqb item value)) prev
  else prev ++ [value].

(** The characters of the class the title is cleared of: backslash, slash,
    colon, asterisk, question mark, double quote, angle brackets and bar. *)
Definition reserved (c : code_unit) : bool :=
  existsb (N.eqb c) [92; 47; 58; 42; 63; 34; 60; 62; 124]%N.

(** The file name [handleDownloadHtml] gives the document. *)
Definition downloadName (title : jsstring) : jsstring :=
  let replaced := map (fun c => if reserved c then 95%N else c) title in
  (if nonempty replaced then replaced else utf16 "interactive-courseware") ++ utf16 ".html".

Record FormState := {
  f_topic : jsstring;
  f_audience : jsstring;
  f_objectives : jsstring;
  f_tone : jsstring;
  f_imageStyle : jsstring;
  f_constraints : jsstring
}.

Definition some_if_nonempty (A : Type) (l : list A) : option (list A) :=
  match l with [] => None | _ :: _ => Some l end.
Arguments some_if_nonempty {A} l.

(** The request [handleGenerateOutline] and [handleGenerateCourseware]
    build from the form; [None] where they throw (topic or audience blank). *)
Definition formRequest (formState : FormState) (selectedInteractionTypes : list InteractionType)
    : option GenerationRequest :=
  if negb (nonempty (trim (f_topic formState))) || negb (nonempty (trim (f_audience formState)))
  then None
  else
    let objectives := parseMultiline (f_objectives formState) in
    let constraints := parseMultiline (f_constraints formState) in
    let imageStyleValue := trim (f_imageStyle formState) in
    Some {| topic := f_topic formState;
            audience := f_audience formState;
            objectives := some_if_nonempty objectives;
            interactionTypes := some_if_nonempty selectedInteractionTypes;
            tone := some_if_nonempty (f_tone formState);
            imageStyle := some_if_nonempty imageStyleValue;
            constraints := some_if_nonempty constraints |}.

End App.

(** The two routes of [server.ts], for bodies of the declared types (for
    which the [Array.isArray] tests of the outline route never fail). *)
Module Server.

Inductive reply (A : Type) :=
| Status200 (payload : A)
| Status400 (error : jsstring)
| Status500 (error : jsstring).
Arguments Status200 {A} payload.
Arguments Status400 {A} error.
Arguments Status500 {A} error.

Local Open Scope service_scope.

(** A request as the application gets it.  Fastify reads the body before
    a handler is called; a request it cannot read (the JSON content type with
    an empty or malformed body, a media type without a parser) raises an
    error there: the handler does not run, and the error handler of the
    application answers. *)
Inductive incoming (A : Type) :=
| Refused
| Handed (body : option A).
Arguments Refused {A}.
Arguments Handed {A} body.

(** [app.setErrorHandler] *)
Definition errorHandler (A : Type) : reply A :=
  Status500 (utf16 "INTERNAL_SERVER_ERROR").

(** The handler of [POST /api/outline], on the body it is called with
    ([None]: [request.body] is [undefined], as for a request that carries no
    body and names no content type).  The body is the parsed request with
    the types the route declares for it: [objectives] and [interactionTypes]
    are arrays when they are present, so the two checks with [Array.isArray]
    that follow the first one pass and are left out. *)
Definition outlineRoute (w : world) (body : option GenerationRequest)
    : M (reply (CourseOutline json)) :=
  match body with
  | None => ret (Status400 (utf16 "INVALID_REQUEST"))
  | Some body =>
      if negb (nonempty (topic body)) || negb (nonempty (audience body))
      then ret (Status400 (utf16 "INVALID_REQUEST"))
      else
        try_catch
          (outline <- generateOutline w body ;; ret (Status200 outline))
          (fun _ => ret (Status500 (utf16 "OUTLINE_GENERATION_FAILED")))
  end.

Definition postOutline (w : world) (request : incoming GenerationRequest)
    : M (reply (CourseOutline json)) :=
  match request with
  | Refused => ret (errorHandler (CourseOutline json))
  | Handed body => outlineRoute w body
  end.

Record CoursewareBody := {
  body_outline : option (CourseOutline jsstring);
  body_request : option GenerationRequest
}.

Section Routes.

Variable stylesheet : jsstring.
Variable script : jsstring.

(** The handler of [POST /api/courseware], on the body it is called with,
    whose outline and request, when present, have the declared types. *)
Definition coursewareRoute (w : world) (body : option CoursewareBody)
    : M (reply CoursewareArtifact) :=
  match body with
  | Some {| body_outline := Some o; body_request := Some r |} =>
      try_catch
        (artifact <- generateCourseware stylesheet script w {| outline := o; request := r |} ;;
         ret (Status200 artifact))
        (fun _ => ret (Status500 (utf16 "COURSEWARE_GENERATION_FAILED")))
  | _ => ret (Status400 (utf16 "INVALID_REQUEST"))
  end.

Definition postCourseware (w : world) (request : incoming CoursewareBody)
    : M (reply CoursewareArtifact) :=
  match request with
  | Refused => ret (errorHandler CoursewareArtifact)
  | Handed body => coursewareRoute w body
  end.

End Routes.

End Server.

(** ** Lines of the form *)

Definition starts_clean (s : jsstring) : Prop :=
  match s with c :: _ => is_whitespace c = false | [] => True end.

Definition ends_clean (s : jsstring) : Prop := starts_clean (rev s).

(** A line as [parseMultiline] returns it: not empty, no white space at
    either end, and no line feed (U+000A), the one character the text is
    split on. *)
Definition clean_line (s : jsstring) : Prop :=
  s <> [] /\ starts_clean s /\ ends_clean s /\ ~ In 10%N s.

Lemma trimStart_clean s : starts_clean (trimStart s).
Proof.
  induction s as [|c s IH]; cbn [trimStart]; [exact I|].
  destruct (is_whitespace c) eqn:E; [exact IH|exact E].
Qed.

Lemma trimStart_suffix s : exists ws, s = ws ++ trimStart s.
Proof.
  induction s as [|c s (ws & IH)]; cbn [trimStart]; [now exists []|].
  destruct (is_whitespace c); [|now exists []].
  exists (c :: ws). cbn [app]. now f_equal.
Qed.

Lemma trimStart_of_clean s : starts_clean s -> trimStart s = s.
Proof. destruct s as [|c s]; [reflexivity|]. cbn. now intros ->. Qed.

Lemma trimEnd_prefix s : exists ws, s = trimEnd s ++ ws.
Proof.
  unfold trimEnd. destruct (trimStart_suffix (rev s)) as (ws & H).
  exists (rev ws). rewrite <- rev_app_distr, <- H. now rewrite rev_involutive.
Qed.

Lemma trimEnd_clean s : ends_clean (trimEnd s).
Proof. unfold ends_clean, trimEnd. rewrite rev_involutive. apply trimStart_clean. Qed.

Lemma trimEnd_keeps_start s : starts_clean s -> starts_clean (trimEnd s).
Proof.
  intros H. destruct (trimEnd_prefix s) as (ws & E).
  destruct (trimEnd s) as [|c t]; [exact I|]. rewrite E in H. exact H.
Qed.

Lemma trim_clean s : starts_clean (trim s) /\ ends_clean (trim s).
Proof.
  unfold trim. split; [apply trimEnd_keeps_start, trimStart_clean|apply trimEnd_clean].
Qed.

Lemma trim_of_clean s : starts_clean s -> ends_clean s -> trim s = s.
Proof.
  intros Hs He. unfold trim. rewrite (trimStart_of_clean s Hs).
  unfold trimEnd. rewrite (trimStart_of_clean (rev s) He). apply rev_involutive.
Qed.

Lemma trim_In c s : In c (trim s) -> In c s.
Proof.
  unfold trim. intros H.
  destruct (trimStart_suffix s) as (ws & E). destruct (trimEnd_prefix (trimStart s)) as (ws' & E').
  rewrite E, E'. apply in_or_app. right. apply in_or_app. now left.
Qed.

Lemma split_lines_no_newline text : Forall (fun l => ~ In 10%N l) (App.split_lines text).
Proof.
  induction text as [|c rest IH]; cbn [App.split_lines]; [repeat constructor; auto|].
  destruct (N.eqb_spec c 10) as [->|Hc]; [constructor; auto|].
  destruct (App.split_lines rest) as [|l ls]; [repeat constructor; intros [E|[]]; congruence|].
  inversion IH; subst. constructor; [|assumption].
  intros [E|Hin]; [congruence|contradiction].
Qed.

(** X16. The lines [parseMultiline] returns are not empty, have no white
    space at either end (no line terminator either, which [trim] takes for
    white space) and hold no line feed (U+000A).  The text is split on the
    line feed alone: a carriage return or a U+2028 inside a line stays. *)
Theorem parseMultiline_returns_clean_lines :
  forall text, Forall clean_line (App.parseMultiline text).
Proof.
  intros text. unfold App.parseMultiline. apply Forall_forall. intros l Hl.
  apply filter_In in Hl. destruct Hl as [Hin Hne].
  apply in_map_iff in Hin. destruct Hin as (raw & <- & Hraw).
  destruct (trim_clean raw) as [Hs He].
  repeat split; try assumption.
  - intros E. rewrite E in Hne. discriminate.
  - intros H10. apply trim_In in H10.
    pose proof (split_lines_no_newline text) as Hall. rewrite Forall_forall in Hall.
    exact (Hall raw Hraw H10).
Qed.

Lemma split_lines_line l : ~ In 10%N l -> App.split_lines l = [l].
Proof.
  induction l as [|c l IH]; intros H; [reflexivity|]. cbn [App.split_lines].
  destruct (N.eqb_spec c 10) as [->|_]; [exfalso; apply H; now left|].
  rewrite IH; [reflexivity|]. intros Hin. apply H. now right.
Qed.

Lemma split_lines_app l rest :
  ~ In 10%N l -> App.split_lines (l ++ 10%N :: rest) = l :: App.split_lines rest.
Proof.
  induction l as [|c l IH]; intros H; [reflexivity|]. cbn [app App.split_lines].
  destruct (N.eqb_spec c 10) as [->|_]; [exfalso; apply H; now left|].
  rewrite IH; [reflexivity|]. intros Hin. apply H. now right.
Qed.

Lemma split_lines_join l ls :
  Forall (fun l => ~ In 10%N l) (l :: ls) ->
  App.split_lines (join [10%N] (l :: ls)) = l :: ls.
Proof.
  revert l. induction ls as [|l2 ls IH]; intros l H; inversion H; subst.
  - cbn [join]. now apply split_lines_line.
  - change (join [10%N] (l :: l2 :: ls)) with (l ++ 10%N :: join [10%N] (l2 :: ls)).
    rewrite split_lines_app by assumption. f_equal. now apply IH.
Qed.

Lemma clean_lines_stay lines :
  Forall clean_line lines -> filter nonempty (map trim lines) = lines.
Proof.
  induction 1 as [|x xs (Hne & Hs & He & _) _ IH]; [reflexivity|].
  cbn [map filter]. rewrite (trim_of_clean x Hs He).
  destruct x; [congruence|]. cbn [nonempty]. now f_equal.
Qed.

(** X17. Lines written one per row are read back as they are:
    [parseMultiline] of clean lines joined by line breaks is the list of
    those lines. *)
Theorem parseMultiline_reads_back_joined_lines :
  forall lines, Forall clean_line lines ->
    App.parseMultiline (join [10%N] lines) = lines.
Proof.
  intros lines H. unfold App.parseMultiline.
  destruct lines as [|l ls]; [reflexivity|].
  rewrite split_lines_join.
  - now apply clean_lines_stay.
  - eapply Forall_impl; [|exact H]. intros a (_ & _ & _ & Ha). exact Ha.
Qed.

Lemma parseMultiline_witness :
  App.parseMultiline (join [10%N] [utf16 "know the leaf"; utf16 "name the parts"])
  = [utf16 "know the leaf"; utf16 "name the parts"].
Proof.
  apply parseMultiline_reads_back_joined_lines.
  repeat constructor; try (vm_compute; congruence); vm_compute; intuition discriminate.
Defined.

(** ** The selection of interaction types *)

Lemma InteractionType_eqb_eq a b : InteractionType_eqb a b = true <-> a = b.
Proof. destruct a, b; cbn; split; intros H; try reflexivity; discriminate. Qed.

Lemma existsb_type_In v l : existsb (InteractionType_eqb v) l = true <-> In v l.
Proof.
  rewrite existsb_exists. split.
  - intros (x & Hin & E). apply InteractionType_eqb_eq in E. now subst.
  - intros H. exists v. split; [exact H|]. now apply InteractionType_eqb_eq.
Qed.

(** X18. Toggling an interaction type flips its membership in the
    selection and nothing else: the type is selected afterwards exactly when
    it was not before, every other type is selected exactly when it was, and
    a selection without repetition stays without repetition. *)
Theorem toggle_flips_one_type :
  forall value prev,
    (In value (App.toggleInteractionType value prev) <-> ~ In value prev)
    /\ (forall other, other <> value ->
          (In other (App.toggleInteractionType value prev) <-> In other prev))
    /\ (NoDup prev -> NoDup (App.toggleInteractionType value prev)).
Proof.
  intros value prev. unfold App.toggleInteractionType.
  destruct (existsb (InteractionType_eqb value) prev) eqn:E.
  - apply existsb_type_In in E. split; [|split].
    + rewrite filter_In. split.
      * intros [_ H]. rewrite (proj2 (InteractionType_eqb_eq value value) eq_refl) in H.
        discriminate.
      * intros H. contradiction.
    + intros other Hne. rewrite filter_In. split; [tauto|]. intros H. split; [exact H|].
      destruct (InteractionType_eqb other value) eqn:E2; [|reflexivity].
      apply InteractionType_eqb_eq in E2. contradiction.
    + apply NoDup_filter.
  - assert (Hn : ~ In value prev).
    { intros H. apply existsb_type_In in H. congruence. }
    split; [|split].
    + split; [intros _; exact Hn|]. intros _. apply in_or_app. right. now left.
    + intros other Hne. rewrite in_app_iff. cbn [In]. split; [|tauto].
      intros [H|[H|[]]]; [exact H|congruence].
    + intros H. apply NoDup_app; [exact H|repeat constructor; auto|].
      intros x Hx [<-|[]]. contradiction.
Qed.

(** ** The name of the downloaded file *)

(** X19. The download name is safe for a file system: it holds none of
    the characters backslash, slash, colon, asterisk, question mark, double
    quote, angle brackets and bar; it ends in [.html], and something stands
    before that ending even for an empty title. *)
Theorem download_name_is_safe :
  forall title,
    (forall c, In c (App.downloadName title) -> App.reserved c = false)
    /\ exists base, base <> [] /\ App.downloadName title = base ++ utf16 ".html".
Proof.
  intros title. unfold App.downloadName. cbv zeta.
  set (replaced := map (fun c => if App.reserved c then 95%N else c) title).
  assert (Hr : forall c, In c replaced -> App.reserved c = false).
  { intros c Hc. apply in_map_iff in Hc. destruct Hc as (x & <- & _).
    destruct (App.reserved x) eqn:E; [reflexivity|exact E]. }
  assert (Hd : forall c, In c (utf16 "interactive-courseware") -> App.reserved c = false).
  { intros c Hc. apply negb_true_iff. revert c Hc.
    apply (proj1 (forallb_forall (fun c => negb (App.reserved c)) _)).
    vm_compute. reflexivity. }
  assert (He : forall c, In c (utf16 ".html") -> App.reserved c = false).
  { intros c Hc. apply negb_true_iff. revert c Hc.
    apply (proj1 (forallb_forall (fun c => negb (App.reserved c)) _)).
    vm_compute. reflexivity. }
  split.
  - intros c Hc. apply in_app_or in Hc. destruct Hc as [Hc|Hc]; [|now apply He].
    destruct (nonempty replaced); [now apply Hr|now apply Hd].
  - destruct replaced as [|c r] eqn:E; cbn [nonempty]; eexists; (split; [|reflexivity]).
    + vm_compute. discriminate.
    + discriminate.
Qed.

(** ** The routes *)

Lemma generateOutline_returns w request st :
  exists o st', generateOutline w request st = (Returns o, st').
Proof.
  destruct (isConfigured w) eqn:Hc.
  - destruct (@outlineAttempts_returns w request (buildOutlinePrompt request) 3 Hc st)
      as (r & st1 & E & _ & _).
    rewrite <- (@generateOutlineWithGemini_configured w request st Hc) in E.
    destruct r as [o|].
    + exists o, st1. revert E. apply generateOutline_of_outline.
    + destruct (@fallback_returned w request st st1 E) as (o & st' & Eo & _). eauto.
  - destruct (@fallback_returned w request st st
                (@generateOutlineWithGemini_unconfigured w request st Hc))
      as (o & st' & Eo & _). eauto.
Qed.

Lemma generateCourseware_returns stylesheet script w payload st :
  exists a st', generateCourseware stylesheet script w payload st = (Returns a, st').
Proof.
  destruct (coursewareSections_shape w payload (co_sections (outline payload)) 0 st)
    as (cs & st1 & E & _).
  unfold generateCourseware, buildCourseware, coursewareSections.
  eexists _, _. unfold bind at 1. unfold bind at 1. rewrite E. unfold bind at 1.
  unfold randomUUID at 1. unfold ret. reflexivity.
Qed.

Lemma outline_route_total w r st :
  nonempty (topic r) = true -> nonempty (audience r) = true ->
  exists o st', Server.outlineRoute w (Some r) st = (Returns (Server.Status200 o), st').
Proof.
  intros Ht Ha. unfold Server.outlineRoute. rewrite Ht, Ha. cbn [negb orb].
  destruct (generateOutline_returns w r st) as (o & st' & E).
  exists o, st'. unfold try_catch. unfold bind at 1. rewrite E. reflexivity.
Qed.



Lemma trim_nonempty s : nonempty (trim s) = true -> nonempty s = true.
Proof. destruct s; [vm_compute; discriminate|reflexivity]. Qed.

(** X22. What the form sends is accepted.  Whenever the client builds a
    request from its form (topic and audience not blank), every optional list
    or text of the request is absent or not empty, and the outline route,
    given this request as its body, answers 200. *)
Theorem form_request_is_accepted :
  forall formState selected r,
    App.formRequest formState selected = Some r ->
    objectives r <> Some [] /\ constraints r <> Some [] /\ interactionTypes r <> Some []
    /\ tone r <> Some [] /\ imageStyle r <> Some []
    /\ forall w st, exists o st',
         Server.outlineRoute w (Some r) st = (Returns (Server.Status200 o), st').
Proof.
  intros f sel r. unfold App.formRequest.
  destruct (nonempty (trim (App.f_topic f))) eqn:Et; [|discriminate].
  destruct (nonempty (trim (App.f_audience f))) eqn:Ea; [|discriminate].
  cbn [negb orb]. cbv zeta. intros [= <-].
  cbn [objectives constraints interactionTypes tone imageStyle].
  assert (Hs : forall (A : Type) (l : list A), App.some_if_nonempty l <> Some []).
  { intros A [|x l]; cbn; discriminate. }
  repeat split; try apply Hs.
  intros w st.
  destruct (outline_route_total w
              {| topic := App.f_topic f; audience := App.f_audience f;
                 objectives := App.some_if_nonempty (App.parseMultiline (App.f_objectives f));
                 interactionTypes := App.some_if_nonempty sel;
                 tone := App.some_if_nonempty (App.f_tone f);
                 imageStyle := App.some_if_nonempty (trim (App.f_imageStyle f));
                 constraints := App.some_if_nonempty (App.parseMultiline (App.f_constraints f)) |}
              st (trim_nonempty _ Et) (trim_nonempty _ Ea)) as (o & st' & E).
  eauto.
Qed.

Definition leaf_form : App.FormState :=
  {| App.f_topic := utf16 "Leaves"; App.f_audience := utf16 "Grade 5";
     App.f_objectives := join [10%N] [utf16 "  know the leaf "; []; utf16 "name the parts"];
     App.f_tone := []; App.f_imageStyle := utf16 "  "; App.f_constraints := [] |}.

Lemma form_request_witness :
  exists r, App.formRequest leaf_form [single; multi] = Some r
    /\ objectives r = Some [utf16 "know the leaf"; utf16 "name the parts"]
    /\ imageStyle r = None
    /\ exists o st',
         Server.outlineRoute no_credential (Some r) start
         = (Returns (Server.Status200 o), st').
Proof.
  assert (E : exists r, App.formRequest leaf_form [single; multi] = Some r
                /\ objectives r = Some [utf16 "know the leaf"; utf16 "name the parts"]
                /\ imageStyle r = None).
  { eexists. split; [vm_compute; reflexivity|]. split; vm_compute; reflexivity. }
  destruct E as (r & E & Ho & Hi). exists r.
  split; [exact E|]. split; [exact Ho|]. split; [exact Hi|].
  exact (proj2 (proj2 (proj2 (proj2 (proj2
           (form_request_is_accepted leaf_form [single; multi] r E)))))
           no_credential start).
Defined.
